(** * Flight analytics aggregation of aviation-backend/server.js

    A shallow embedding of [safeParseFloat], [processFlightAnalytics],
    [generateMonthlyTrend] and [generateEmptyMonthlyTrend], with the
    JavaScript built-ins they call, and the properties of the aggregation
    stated over it; then of the other helpers of the server that do not
    need the database: [processAviationStackFlight],
    [generateMockFlights], [formatDate], [authenticateToken], the two
    parts the flight search takes of a flight code and the duration the
    route that saves a flight stores.

    JavaScript numbers are IEEE 754 binary64 values: they are modelled by
    Rocq's primitive [float], whose [+], [*] and [/] are the operations
    the JavaScript engine performs.  Counters that only ever hold array
    lengths and [+ 1] increments are kept as [Z] (they stay far below
    2^53, where binary64 is exact on integers) and are converted with
    [JS.ofZ] where the source mixes them with durations. *)

From Stdlib Require Import ZArith List String Ascii Bool Lia Floats Sorted Permutation.
From Stdlib Require Import DecimalString DecimalZ DecimalPos.
Import ListNotations.

Local Open Scope string_scope.
Local Open Scope Z_scope.

(* ================================================================== *)
(** * JavaScript built-ins used by the aggregation *)
(* ================================================================== *)

Module JS.

(** ** Numbers *)

Definition isNaN (x : float) : bool := PrimFloat.is_nan x.

(** The Number nearest to an integer (round to nearest, ties to even). *)
Definition ofZ (z : Z) : float :=
  SF2Prim (binary_normalize prec emax z 0 false).

(** The Number nearest to [m * 10^e] for [m >= 0], with the given sign:
    the rounding the language prescribes for a decimal literal. *)
Definition ofDecimal (neg : bool) (m : Z) (e : Z) : float :=
  match m with
  | Zpos p =>
      match e with
      | Zneg k =>
          SF2Prim (SFdiv prec emax (S754_finite neg p 0)
                                   (S754_finite false (Pos.pow 10 k) 0))
      | _ => SF2Prim (binary_normalize prec emax
                        ((if neg then Z.opp else id) (Zpos p * 10 ^ e)) 0 neg)
      end
  | _ => if neg then neg_zero else zero
  end.

(** Exact integer rounding of the real value [s * m * 2^e] of a finite
    binary64, by a rule given on the rational [n / d]. *)
Definition floorQ (n d : Z) : Z := n / d.
Definition roundHalfUpQ (n d : Z) : Z := (2 * n + d) / (2 * d).

(** [Math.floor]. *)
Definition Math_floor (x : float) : float :=
  match Prim2SF x with
  | S754_finite s m (Zneg k) =>
      let r := floorQ ((if s then Z.opp else id) (Zpos m)) (2 ^ Zpos k) in
      if r =? 0 then zero else ofZ r
  | _ => x
  end.

(** [Math.round]: the nearest integer, a tie going towards +infinity;
    a result of zero keeps the sign of the argument. *)
Definition Math_round (x : float) : float :=
  match Prim2SF x with
  | S754_finite s m (Zneg k) =>
      let r := roundHalfUpQ ((if s then Z.opp else id) (Zpos m)) (2 ^ Zpos k) in
      if r =? 0 then (if s then neg_zero else zero) else ofZ r
  | _ => x
  end.

(** ** Strings of digits *)

(** Texts are strings of code units below 256; [parseFloat] skips the
    white space and line terminators among them. *)

Definition isStrWhiteSpaceChar (c : ascii) : bool :=
  let n := nat_of_ascii c in
  ((9 <=? n) && (n <=? 13))%nat || (n =? 32)%nat || (n =? 160)%nat.

Fixpoint trimStart (s : string) : string :=
  match s with
  | String c r => if isStrWhiteSpaceChar c then trimStart r else s
  | EmptyString => s
  end.

Definition digitOf (c : ascii) : option Z :=
  let n := nat_of_ascii c in
  if ((48 <=? n) && (n <=? 57))%nat then Some (Z.of_nat n - 48) else None.

(** Reads the longest run of decimal digits at the head of [s]: the
    accumulated value, how many digits were read, and the unread rest. *)
Fixpoint spanDigits (acc : Z) (cnt : nat) (s : string) : Z * nat * string :=
  match s with
  | String c r =>
      match digitOf c with
      | Some d => spanDigits (10 * acc + d) (S cnt) r
      | None => (acc, cnt, s)
      end
  | EmptyString => (acc, cnt, s)
  end.

(** A recognised StrDecimalLiteral. *)
Inductive StrLiteral :=
| LitInfinity (neg : bool)
| LitDecimal (neg : bool) (mant : Z) (exp10 : Z).

Definition readSign (s : string) : bool * string :=
  match s with
  | String "-" r => (true, r)
  | String "+" r => (false, r)
  | _ => (false, s)
  end.

(** ExponentPart: [e] or [E], an optional sign and at least one digit;
    an incomplete exponent is left unread. *)
Definition readExponent (s : string) : Z * string :=
  match s with
  | String c r =>
      if (Ascii.eqb c "e" || Ascii.eqb c "E")%bool then
        let '(neg, r1) := readSign r in
        match spanDigits 0 0 r1 with
        | (_, O, _) => (0, s)
        | (v, _, r2) => (if neg then - v else v, r2)
        end
      else (0, s)
  | EmptyString => (0, s)
  end.

Definition hasPrefix (p s : string) : option string :=
  if String.prefix p s
  then Some (String.substring (String.length p)
                              (String.length s - String.length p) s)
  else None.

(** The longest prefix of [s] that is a StrDecimalLiteral, with the
    unread rest of [s]. *)
Definition scanLiteral (s : string) : option (StrLiteral * string) :=
  let '(neg, s1) := readSign s in
  match hasPrefix "Infinity" s1 with
  | Some r => Some (LitInfinity neg, r)
  | None =>
      let '(ip, ni, s2) := spanDigits 0 0 s1 in
      let '(m, nf, s3) :=
        match s2 with
        | String "." r =>
            let '(m, nf, r') := spanDigits ip 0 r in
            match ni, nf with
            | O, O => (ip, O, s2)
            | _, _ => (m, nf, r')
            end
        | _ => (ip, O, s2)
        end in
      match ni, nf with
      | O, O => None
      | _, _ =>
          let '(ex, s4) := readExponent s3 in
          Some (LitDecimal neg m (ex - Z.of_nat nf), s4)
      end
  end.

Definition literalValue (l : StrLiteral) : float :=
  match l with
  | LitInfinity neg => if neg then neg_infinity else infinity
  | LitDecimal neg m e => ofDecimal neg m e
  end.

(** The global [parseFloat] on a string. *)
Definition parseFloat (s : string) : float :=
  match scanLiteral (trimStart s) with
  | Some (l, _) => literalValue l
  | None => nan
  end.

(** ** Number.prototype.toFixed *)

Definition digitsOfZ (z : Z) : string := NilZero.string_of_int (Z.to_int z).

Fixpoint zeros (n : nat) : string :=
  match n with
  | O => EmptyString
  | S k => String "0" (zeros k)
  end.

(** The digits of [n >= 0] with a decimal point before the last [f]. *)
Definition insertPoint (f : nat) (n : Z) : string :=
  let m := digitsOfZ n in
  match f with
  | O => m
  | _ =>
      let m := if (String.length m <=? f)%nat
               then zeros (S f - String.length m) ++ m else m in
      let k := String.length m in
      String.substring 0 (k - f) m ++ "." ++ String.substring (k - f) f m
  end.

(** What [x.toFixed(f)] denotes: either its text, or, for a finite [x] of
    magnitude at least 1e21, the text of [Number::toString], which is by
    definition a decimal whose Number value is [x]. *)
Inductive NumberText :=
| Text (s : string)
| ShortestOf (x : float).

(** The integer [n] for which [n / 10^f] is nearest to [m * 2^e], the
    larger one of two that are equally near. *)
Definition nearestScaled (f : nat) (m : positive) (e : Z) : Z :=
  match e with
  | Zneg k => roundHalfUpQ (Zpos m * 10 ^ Z.of_nat f) (2 ^ Zpos k)
  | _ => Zpos m * 2 ^ e * 10 ^ Z.of_nat f
  end.

Definition toFixed (f : nat) (x : float) : NumberText :=
  match Prim2SF x with
  | S754_nan => Text "NaN"
  | S754_infinity s => Text (if s then "-Infinity" else "Infinity")
  | S754_zero _ => Text (insertPoint f 0)
  | S754_finite s m e =>
      if (0x1.b1ae4d6e2ef5p+69 <=? abs x)%float then ShortestOf x
      else Text ((if s then "-" else "") ++ insertPoint f (nearestScaled f m e))
  end.

Definition parseFloatText (t : NumberText) : float :=
  match t with
  | Text s => parseFloat s
  | ShortestOf x => x
  end.

(** ** Values of a row field, and the [||] default on texts *)

Inductive JSValue :=
| JSUndefined
| JSNull
| JSNumber (x : float)
| JSString (s : string).

(** [ToString] of a value that is not a Number. *)
Definition ToString (v : JSValue) : string :=
  match v with
  | JSUndefined => "undefined"
  | JSNull => "null"
  | JSString s => s
  | JSNumber _ => ""
  end.

(** [v || d] for a field that holds a text or nothing: a missing value
    and the empty text are both falsy. *)
Definition orDefault (v : option string) (d : string) : string :=
  match v with
  | Some (String c r) => String c r
  | _ => d
  end.

(** ** Map: insertion-ordered, an existing key keeps its place *)

(** A [Map] with text keys is the list of its entries in insertion order,
    which is what [Array.from(m.entries())] and [m.values()] return.
    [mapGet] is [m.get(k)] ([None] where [m.has(k)] is false); [mapSet] is
    [m.set(k, v)]: a new key goes last, a key already present keeps its
    place and takes the new value. *)

Section MapOps.
Context {V : Type}.

Fixpoint mapGet (m : list (string * V)) (k : string) : option V :=
  match m with
  | [] => None
  | (k', v) :: t => if String.eqb k' k then Some v else mapGet t k
  end.

Fixpoint mapSet (m : list (string * V)) (k : string) (v : V)
  : list (string * V) :=
  match m with
  | [] => [(k, v)]
  | (k', v') :: t =>
      if String.eqb k' k then (k', v) :: t else (k', v') :: mapSet t k v
  end.
End MapOps.

(** ** Array.prototype.sort with a comparator: a stable sort *)

(** The language requires [sort] to be stable, so for a comparator that is
    a consistent ordering the result is determined: the entries in sorted
    order, those that compare equal in their input order.  Insertion from
    the right computes it.  The comparators of the aggregation subtract
    two counters, so [cmp] returns an integer; [x] goes after [y] when
    [cmp x y] is positive. *)

Section ArraySort.
Context {A : Type} (cmp : A -> A -> Z).

Fixpoint insertSorted (x : A) (l : list A) : list A :=
  match l with
  | [] => [x]
  | y :: t => if 0 <? cmp x y then y :: insertSorted x t else x :: y :: t
  end.

Definition arraySort (l : list A) : list A := fold_right insertSorted [] l.
End ArraySort.

(** [a.slice(0, n)]. *)
Definition slice0 {A : Type} (n : nat) (l : list A) : list A := firstn n l.

(** ** Date: what the aggregation reads of one *)

(** [new Date(year, month, 1)] read back with [getFullYear()] and
    [getMonth()]: the month overflows into the year, and a year from 0
    to 99 stands for 1900 + year. *)
Definition dateOfMonth (year month : Z) : Z * Z :=
  let yr := if (0 <=? year) && (year <=? 99) then 1900 + year else year in
  (yr + month / 12, month mod 12).

Definition padStart2 (s : string) : string :=
  (if (String.length s <? 2)%nat then zeros (2 - String.length s) ++ s else s)
  %string.

(** ** A Number as a condition, and as the index of an array *)

(** [x || d] for a Number [x]: NaN and the two zeros are falsy. *)
Definition orNumber (x d : float) : float :=
  if isNaN x || (x =? 0)%float then d else x.

(** The integer that a Number is, if it is one. *)
Definition integerOf (x : float) : option Z :=
  match Prim2SF x with
  | S754_zero _ => Some 0
  | S754_finite s m e =>
      let sign := if s then Z.opp else id in
      match e with
      | Zneg k =>
          if Zpos m mod 2 ^ Zpos k =? 0
          then Some (sign (Zpos m / 2 ^ Zpos k)) else None
      | _ => Some (sign (Zpos m * 2 ^ e))
      end
  | _ => None
  end.

(** [l[x]] for an array [l] and a Number [x]: the element at [x] when
    [x] is an integer within the array, undefined otherwise. *)
Definition arrayAt {A : Type} (l : list A) (x : float) : option A :=
  match integerOf x with
  | Some i =>
      if (0 <=? i) && (i <? Z.of_nat (List.length l))
      then nth_error l (Z.to_nat i) else None
  | None => None
  end.

(** ** String.prototype.split, substring and padStart *)

(** [s.split(sep)] for a separator of one character: the pieces between
    the separators, in order; there is always a first piece. *)
Fixpoint split (sep : ascii) (s : string) : list string :=
  match s with
  | EmptyString => [EmptyString]
  | String c r =>
      if Ascii.eqb c sep then EmptyString :: split sep r
      else match split sep r with
           | piece :: rest => String c piece :: rest
           | [] => [String c EmptyString]
           end
  end.

(** [s.substring(from, to)] for [0 <= from <= to], and [s.substring(from)]. *)
Definition substring (from to : nat) (s : string) : string :=
  String.substring from (to - from)%nat s.

Definition substringFrom (from : nat) (s : string) : string :=
  String.substring from (String.length s - from)%nat s.

(** [s.padStart(n, '0')]. *)
Definition padStart (n : nat) (s : string) : string :=
  (zeros (n - String.length s)%nat ++ s)%string.

(** ** Number::toString *)

(** [floor (m * 2^e * 10^t)], and whether the fraction left is above a
    half, or a half with an odd floor. *)
Definition scaled (m : positive) (e t : Z) : Z * bool :=
  let num := Zpos m * 2 ^ Z.max e 0 * 10 ^ Z.max t 0 in
  let den := 2 ^ Z.max (- e) 0 * 10 ^ Z.max (- t) 0 in
  let lo := num / den in
  let twice := 2 * (num mod den) in
  (lo, (den <? twice) || ((twice =? den) && Z.odd lo)).

Definition decimalLength (z : Z) : Z := Z.of_nat (String.length (digitsOfZ z)).

(** The [n] for which [10^(n-1) <= m * 2^e < 10^n]. *)
Definition magnitude (m : positive) (e : Z) : Z :=
  let whole := fst (scaled m e 0) in
  if 0 <? whole then decimalLength whole
  else decimalLength (fst (scaled m e 400)) - 400.

(** The integer [s] of [k] digits for which [s * 10^(n-k)] is the Number
    [x = m * 2^e], if there is one: the nearest to [x] of them, of two
    equally near the even one. *)
Definition digitsFor (x : float) (m : positive) (e n k : Z) : option Z :=
  let '(lo, up) := scaled m e (k - n) in
  let fits s :=
    (10 ^ (k - 1) <=? s) && (s <? 10 ^ k)
    && (ofDecimal false s (n - k) =? x)%float in
  match fits lo, fits (lo + 1) with
  | true, true => Some (if up then lo + 1 else lo)
  | true, false => Some lo
  | false, true => Some (lo + 1)
  | false, false => None
  end.

(** The least number of digits [k], from [k] on, with its [s] and [n];
    seventeen digits always identify a Number. *)
Fixpoint shortestDigits (fuel : nat) (x : float) (m : positive) (e n0 k : Z)
  : Z * Z :=
  match fuel with
  | O => (fst (scaled m e (k - n0)), n0)
  | S fuel' =>
      match digitsFor x m e n0 k with
      | Some s => (s, n0)
      | None =>
          match digitsFor x m e (n0 + 1) k with
          | Some s => (s, n0 + 1)
          | None => shortestDigits fuel' x m e n0 (k + 1)
          end
      end
  end.

(** The text of the digits [s] with the decimal exponent [n]. *)
Definition digitsText (s n : Z) : string :=
  let ds := digitsOfZ s in
  let k := String.length ds in
  let places := Z.to_nat n in
  let e := n - 1 in
  let sign : string := if e <? 0 then "-" else "+" in
  let exponent := (sign ++ digitsOfZ (Z.abs e))%string in
  if (-5 <=? n) && (n <=? 21) then
    if Z.of_nat k <=? n then (ds ++ zeros (places - k)%nat)%string
    else if 0 <? n then
      (String.substring 0 places ds ++ "."
       ++ String.substring places (k - places)%nat ds)%string
    else ("0." ++ zeros (Z.to_nat (- n)) ++ ds)%string
  else
    if (k =? 1)%nat then (ds ++ "e" ++ exponent)%string
    else (String.substring 0 1 ds ++ "." ++ String.substring 1 (k - 1)%nat ds
          ++ "e" ++ exponent)%string.

(** [String(x)], [x.toString()] and [`${x}`] for a Number [x]. *)
Definition NumberToString (x : float) : string :=
  match Prim2SF x with
  | S754_nan => "NaN"
  | S754_zero _ => "0"
  | S754_infinity s => if s then "-Infinity" else "Infinity"
  | S754_finite s m e =>
      let '(sd, n) := shortestDigits 17 (abs x) m e (magnitude m e) 1 in
      ((if s then "-" else "") ++ digitsText sd n)%string
  end.

(** ** Date: time values *)

(** The time value of a Date, in milliseconds since the epoch; [None] is
    the NaN of an Invalid Date. *)
Definition TimeValue := option Z.

(** [TimeClip]: a finite Number of magnitude at most 8.64e15, truncated. *)
Definition TimeClip (time : float) : TimeValue :=
  match Prim2SF time with
  | S754_zero _ => Some 0
  | S754_finite s m e =>
      let '(t, exceeds) :=
        match e with
        | Zneg k => (Zpos m / 2 ^ Zpos k,
                     8640000000000000 * 2 ^ Zpos k <? Zpos m)
        | _ => (Zpos m * 2 ^ e, 8640000000000000 <? Zpos m * 2 ^ e)
        end in
      if exceeds then None else Some (if s then - t else t)
  | _ => None
  end.

(** [d.getTime()], and a Date as an operand of [-]. *)
Definition getTime (d : TimeValue) : float :=
  match d with
  | Some t => ofZ t
  | None => nan
  end.

(** The day number of the first day of year [y]. *)
Definition DayFromYear (y : Z) : Z :=
  365 * (y - 1970) + (y - 1969) / 4 - (y - 1901) / 100 + (y - 1601) / 400.

(** The year a day falls in: the largest [y] with [DayFromYear y <= day]. *)
Definition YearFromDay (day : Z) : Z :=
  let y := 1970 + day * 400 / 146097 in
  if DayFromYear (y + 1) <=? day then y + 1
  else if DayFromYear y <=? day then y
  else y - 1.

(** The month (from 0) and the day of the month (from 1) of the day
    [d] of a year, [leap] being 1 in a leap year and 0 otherwise. *)
Definition MonthAndDate (d leap : Z) : Z * Z :=
  if d <? 31 then (0, d + 1)
  else if d <? 59 + leap then (1, d - 30)
  else if d <? 90 + leap then (2, d - 58 - leap)
  else if d <? 120 + leap then (3, d - 89 - leap)
  else if d <? 151 + leap then (4, d - 119 - leap)
  else if d <? 181 + leap then (5, d - 150 - leap)
  else if d <? 212 + leap then (6, d - 180 - leap)
  else if d <? 243 + leap then (7, d - 211 - leap)
  else if d <? 273 + leap then (8, d - 242 - leap)
  else if d <? 304 + leap then (9, d - 272 - leap)
  else if d <? 334 + leap then (10, d - 303 - leap)
  else (11, d - 333 - leap).

(** The year of [toISOString]: four digits from 0 to 9999, a sign and
    six digits otherwise. *)
Definition yearText (y : Z) : string :=
  let sign : string := if y <? 0 then "-" else "+" in
  if (0 <=? y) && (y <=? 9999) then padStart 4 (digitsOfZ y)
  else (sign ++ padStart 6 (digitsOfZ (Z.abs y)))%string.

(** The year, month and day of [toISOString]: YYYY-MM-DD. *)
Definition dateText (day : Z) : string :=
  let y := YearFromDay day in
  let leap := DayFromYear (y + 1) - DayFromYear y - 365 in
  let '(month, date) := MonthAndDate (day - DayFromYear y) leap in
  (yearText y ++ "-" ++ padStart 2 (digitsOfZ (month + 1))
   ++ "-" ++ padStart 2 (digitsOfZ date))%string.

(** The time of day of [toISOString]: HH:mm:ss.sss. *)
Definition timeText (ms : Z) : string :=
  (padStart 2 (digitsOfZ (ms / 3600000))
   ++ ":" ++ padStart 2 (digitsOfZ (ms / 60000 mod 60))
   ++ ":" ++ padStart 2 (digitsOfZ (ms / 1000 mod 60))
   ++ "." ++ padStart 3 (digitsOfZ (ms mod 1000)))%string.

(** [d.toISOString()] for a Date that is not invalid. *)
Definition toISOString (t : Z) : string :=
  (dateText (t / 86400000) ++ "T" ++ timeText (t mod 86400000) ++ "Z")%string.

End JS.

(* ================================================================== *)
(** * Flight rows and the analytics summary *)
(* ================================================================== *)

(** What [new Date(flight.flight_date)] makes of the field. *)
Inductive DateValue :=
| DateMissing                 (* null, undefined: the guard skips the row *)
| DateInvalid                 (* a value that gives an Invalid Date *)
| DateOn (year month : Z).    (* local getFullYear() and getMonth() *)

Record Flight := {
  flight_date : DateValue;
  flight_status : option string;
  departure_iata : option string;
  arrival_iata : option string;
  airline_iata : option string;
  duration_hours : JS.JSValue
}.

Module Month.
Record t := { month : string; flights : Z; hours : float }.
End Month.

Module Aircraft.
Record t := { type : string; count : Z; hours : float; percentage : float }.
End Aircraft.

Module Route.
Record t := { route : string; frequency : Z; avgDuration : float }.
End Route.

Module Airline.
Record t := { airline : string; flights : Z; reliability : float }.
End Airline.

Module Status.
Record t := { scheduled : Z; active : Z; completed : Z; cancelled : Z }.
End Status.

Module Time.
Record t := { day : float; night : float; ifr : float; crossCountry : float }.
End Time.

Module Summary.
Record t := {
  totalFlights : Z;
  totalHours : float;
  averageFlightTime : float;
  mostFrequentRoute : string;
  mostUsedAircraft : string;
  onTimePercentage : float;
  monthlyTrend : list Month.t;
  aircraftBreakdown : list Aircraft.t;
  routeAnalysis : list Route.t;
  statusDistribution : Status.t;
  timeDistribution : Time.t;
  airlineAnalysis : list Airline.t
}.
End Summary.

(* ================================================================== *)
(** * The aggregation (server.js, lines 191-381) *)
(* ================================================================== *)

Local Open Scope float_scope.
Local Open Scope Z_scope.

Notation "x +! y" := (PrimFloat.add x y) (at level 50, left associativity).
Notation "x *! y" := (PrimFloat.mul x y) (at level 40, left associativity).
Notation "x /! y" := (PrimFloat.div x y) (at level 40, left associativity).

(** Helper function to safely parse numbers. *)
Definition safeParseFloat (value : JS.JSValue) : float :=
  match value with
  | JS.JSNumber x => x
  | _ =>
      let num := JS.parseFloat (JS.ToString value) in
      if JS.isNaN num then 0%float else num
  end.

(** One entry of [routeMap] ([frequency], [totalDuration]) or of
    [aircraftMap] ([count], [hours]): the two loops of the source are the
    same loop under two keys. *)
Record Tally := { tallyCount : Z; tallyHours : float }.

Definition tallyStep (key : Flight -> string)
    (m : list (string * Tally)) (flight : Flight) : list (string * Tally) :=
  let k := key flight in
  let duration := safeParseFloat (duration_hours flight) in
  match JS.mapGet m k with
  | Some existing =>
      JS.mapSet m k {| tallyCount := tallyCount existing + 1;
                       tallyHours := tallyHours existing +! duration |}
  | None =>
      JS.mapSet m k {| tallyCount := 1; tallyHours := duration |}
  end.

Definition tallyBy (key : Flight -> string) (flights : list Flight)
  : list (string * Tally) :=
  fold_left (tallyStep key) flights [].

Definition totalFlights (flights : list Flight) : Z :=
  Z.of_nat (List.length flights).

(** The local [totalHours]: the sum, not yet rounded. *)
Definition totalHours (flights : list Flight) : float :=
  fold_left (fun sum flight => sum +! safeParseFloat (duration_hours flight))
            flights 0%float.

Definition averageFlightTime (flights : list Flight) : float :=
  if 0 <? totalFlights flights
  then totalHours flights /! JS.ofZ (totalFlights flights)
  else 0%float.

(** ** Route analysis *)

Definition routeKey (flight : Flight) : string :=
  (JS.orDefault (departure_iata flight) "N/A" ++ "-"
   ++ JS.orDefault (arrival_iata flight) "N/A")%string.

Definition routeMap (flights : list Flight) : list (string * Tally) :=
  tallyBy routeKey flights.

Definition routeEntry (e : string * Tally) : Route.t :=
  let '(route, data) := e in
  {| Route.route := route;
     Route.frequency := tallyCount data;
     Route.avgDuration :=
       if 0 <? tallyCount data
       then tallyHours data /! JS.ofZ (tallyCount data) else 0%float |}.

Definition routeAnalysis (flights : list Flight) : list Route.t :=
  JS.slice0 5
    (JS.arraySort (fun a b => Route.frequency b - Route.frequency a)
       (map routeEntry (routeMap flights))).

(** [routeAnalysis[0]?.route || 'N/A']. *)
Definition mostFrequentRoute (flights : list Flight) : string :=
  JS.orDefault (option_map Route.route (hd_error (routeAnalysis flights))) "N/A".

(** ** Aircraft/Airline analysis (using airline_iata as aircraft type) *)

Definition aircraftKey (flight : Flight) : string :=
  JS.orDefault (airline_iata flight) "Unknown".

Definition aircraftMap (flights : list Flight) : list (string * Tally) :=
  tallyBy aircraftKey flights.

Definition aircraftEntry (total : Z) (e : string * Tally) : Aircraft.t :=
  let '(type, data) := e in
  {| Aircraft.type := type;
     Aircraft.count := tallyCount data;
     Aircraft.hours := tallyHours data;
     Aircraft.percentage :=
       if 0 <? total
       then JS.ofZ (tallyCount data) /! JS.ofZ total *! 100%float
       else 0%float |}.

Definition aircraftBreakdown (flights : list Flight) : list Aircraft.t :=
  JS.slice0 5
    (JS.arraySort (fun a b => Aircraft.count b - Aircraft.count a)
       (map (aircraftEntry (totalFlights flights)) (aircraftMap flights))).

Definition mostUsedAircraft (flights : list Flight) : string :=
  JS.orDefault (option_map Aircraft.type (hd_error (aircraftBreakdown flights)))
               "N/A".

(** ** Status distribution *)

Definition statusIs (s : string) (f : Flight) : bool :=
  match flight_status f with
  | Some t => String.eqb t s
  | None => false
  end.

Definition countStatus (s : string) (flights : list Flight) : Z :=
  Z.of_nat (List.length (filter (statusIs s) flights)).

Definition statusDistribution (flights : list Flight) : Status.t :=
  {| Status.scheduled := countStatus "scheduled" flights;
     Status.active := countStatus "active" flights;
     Status.completed := countStatus "completed" flights;
     Status.cancelled := countStatus "cancelled" flights |}.

Definition onTimePercentage (flights : list Flight) : float :=
  let sd := statusDistribution flights in
  if 0 <? totalFlights flights
  then JS.ofZ (Status.completed sd + Status.active sd)
         /! JS.ofZ (totalFlights flights) *! 100%float
  else 0%float.

(** ** Time distribution (estimated based on typical patterns) *)

Definition ratio040 : float := 0x1.999999999999ap-2%float.
Definition ratio060 : float := 0x1.3333333333333p-1%float.

Definition timeDistribution (flights : list Flight) : Time.t :=
  {| Time.day := JS.Math_floor (totalHours flights *! 0.75%float);
     Time.night := JS.Math_floor (totalHours flights *! 0.25%float);
     Time.ifr := JS.Math_floor (totalHours flights *! ratio040);
     Time.crossCountry := JS.Math_floor (totalHours flights *! ratio060) |}.

(** ** Airline analysis *)

(** [random i] is what the [i]-th call of [Math.random()] returns during
    the aggregation; the calls happen in map order, before the sort. *)
Fixpoint airlineEntries (random : nat -> float) (i : nat)
    (entries : list (string * Tally)) : list Airline.t :=
  match entries with
  | [] => []
  | (airline, data) :: t =>
      {| Airline.airline := airline;
         Airline.flights := tallyCount data;
         Airline.reliability := 85%float +! random i *! 15%float |}
      :: airlineEntries random (S i) t
  end.

Definition airlineAnalysis (random : nat -> float) (flights : list Flight)
  : list Airline.t :=
  JS.slice0 5
    (JS.arraySort (fun a b => Airline.flights b - Airline.flights a)
       (airlineEntries random 0 (aircraftMap flights))).

(** ** Monthly trend *)

Definition monthNames : list string :=
  ["Jan"; "Feb"; "Mar"; "Apr"; "May"; "Jun";
   "Jul"; "Aug"; "Sep"; "Oct"; "Nov"; "Dec"]%string.

(** [`${date.getFullYear()}-${String(date.getMonth() + 1).padStart(2, '0')}`] *)
Definition monthKey (year month : Z) : string :=
  (JS.digitsOfZ year ++ "-" ++ JS.padStart2 (JS.digitsOfZ (month + 1)))%string.

(** The key computed for a row; an Invalid Date reads as NaN twice. *)
Definition flightMonthKey (d : DateValue) : option string :=
  match d with
  | DateMissing => None
  | DateInvalid => Some "NaN-NaN"%string
  | DateOn y m => Some (monthKey y m)
  end.

(** The first loop: [i] runs from 5 down to 0. [now] is the pair
    [(currentDate.getFullYear(), currentDate.getMonth())]. *)
Definition initMonth (now : Z * Z) (monthlyData : list (string * Month.t))
    (i : Z) : list (string * Month.t) :=
  let '(year, month) := JS.dateOfMonth (fst now) (snd now - i) in
  JS.mapSet monthlyData (monthKey year month)
    {| Month.month := nth (Z.to_nat month) monthNames "undefined"%string;
       Month.flights := 0;
       Month.hours := 0%float |}.

Definition initialMonthlyData (now : Z * Z) : list (string * Month.t) :=
  fold_left (initMonth now) [5; 4; 3; 2; 1; 0] [].

(** The second loop: one row. *)
Definition addFlight (monthlyData : list (string * Month.t)) (flight : Flight)
  : list (string * Month.t) :=
  match flightMonthKey (flight_date flight) with
  | Some key =>
      match JS.mapGet monthlyData key with
      | Some existing =>
          JS.mapSet monthlyData key
            {| Month.month := Month.month existing;
               Month.flights := Month.flights existing + 1;
               Month.hours := Month.hours existing
                              +! safeParseFloat (duration_hours flight) |}
      | None => monthlyData
      end
  | None => monthlyData
  end.

Definition roundHours (data : Month.t) : Month.t :=
  {| Month.month := Month.month data;
     Month.flights := Month.flights data;
     Month.hours := JS.Math_round (Month.hours data *! 10%float) /! 10%float |}.

Definition generateMonthlyTrend (now : Z * Z) (flights : list Flight)
  : list Month.t :=
  map (fun e => roundHours (snd e))
      (fold_left addFlight flights (initialMonthlyData now)).

Definition generateEmptyMonthlyTrend : list Month.t :=
  map (fun month => {| Month.month := month; Month.flights := 0;
                       Month.hours := 0%float |})
      ["Jan"; "Feb"; "Mar"; "Apr"; "May"; "Jun"]%string.

(** ** processFlightAnalytics *)

(** [x.toFixed(f)] read back by [parseFloat]. *)
Definition roundTo (f : nat) (x : float) : float :=
  JS.parseFloatText (JS.toFixed f x).

Definition emptySummary : Summary.t :=
  {| Summary.totalFlights := 0;
     Summary.totalHours := 0%float;
     Summary.averageFlightTime := 0%float;
     Summary.mostFrequentRoute := "N/A";
     Summary.mostUsedAircraft := "N/A";
     Summary.onTimePercentage := 0%float;
     Summary.monthlyTrend := generateEmptyMonthlyTrend;
     Summary.aircraftBreakdown := [];
     Summary.routeAnalysis := [];
     Summary.statusDistribution :=
       {| Status.scheduled := 0; Status.active := 0;
          Status.completed := 0; Status.cancelled := 0 |};
     Summary.timeDistribution :=
       {| Time.day := 0%float; Time.night := 0%float;
          Time.ifr := 0%float; Time.crossCountry := 0%float |};
     Summary.airlineAnalysis := [] |}.

(** [flights] is [None] for a null or undefined argument.  [now] and
    [random] are the two things the function reads from its environment:
    the clock and [Math.random]. *)
Definition processFlightAnalytics (now : Z * Z) (random : nat -> float)
    (flights : option (list Flight)) : Summary.t :=
  match flights with
  | None | Some [] => emptySummary
  | Some flights =>
      {| Summary.totalFlights := totalFlights flights;
         Summary.totalHours := roundTo 2 (totalHours flights);
         Summary.averageFlightTime := roundTo 2 (averageFlightTime flights);
         Summary.mostFrequentRoute := mostFrequentRoute flights;
         Summary.mostUsedAircraft := mostUsedAircraft flights;
         Summary.onTimePercentage := roundTo 1 (onTimePercentage flights);
         Summary.monthlyTrend := generateMonthlyTrend now flights;
         Summary.aircraftBreakdown := aircraftBreakdown flights;
         Summary.routeAnalysis := routeAnalysis flights;
         Summary.statusDistribution := statusDistribution flights;
         Summary.timeDistribution := timeDistribution flights;
         Summary.airlineAnalysis := airlineAnalysis random flights |}
  end.

(** The aggregation on a sequence of rows. *)
Definition aggregate (now : Z * Z) (random : nat -> float)
    (flights : list Flight) : Summary.t :=
  processFlightAnalytics now random (Some flights).

(* ================================================================== *)
(** * The other helpers of the server *)
(* ================================================================== *)

(** ** What a call can do other than return *)

Inductive Thrown := TypeError | RangeError.

Inductive Completion (A : Type) :=
| Returns (a : A)
| Throws (e : Thrown).
Arguments Returns {A} a.
Arguments Throws {A} e.

Definition andThen {A B : Type} (c : Completion A) (k : A -> Completion B)
  : Completion B :=
  match c with
  | Returns a => k a
  | Throws e => Throws e
  end.

Notation "'let!' x ':=' c 'in' k" := (andThen c (fun x => k))
  (at level 10, x name, c at level 100, k at level 200).

(** [o.field] where [o] may be undefined. *)
Definition defined {A : Type} (o : option A) : Completion A :=
  match o with
  | Some a => Returns a
  | None => Throws TypeError
  end.

(** ** A row as it is sent to the client or inserted *)

Module FlightRow.
Record t := {
  id : float;
  flight_date : string;
  flight_status : option string;
  departure_airport : string;
  departure_iata : string;
  departure_icao : string;
  departure_scheduled : string;
  arrival_airport : string;
  arrival_iata : string;
  arrival_icao : string;
  arrival_scheduled : string;
  airline_name : string;
  airline_iata : string;
  flight_number : string;
  flight_iata : string;
  flight_icao : string;
  duration_hours : float
}.
End FlightRow.

(** ** A flight of the AviationStack document *)

(** A field that holds a text: absent, null, or the text. *)
Inductive TextField :=
| FieldAbsent
| FieldNull
| FieldText (s : string).

(** [v || d]. *)
Definition textOr (v : TextField) (d : string) : string :=
  match v with
  | FieldText (String c r) => String c r
  | _ => d
  end.

(** [`${v}`]. *)
Definition textOf (v : TextField) : string :=
  match v with
  | FieldAbsent => "undefined"
  | FieldNull => "null"
  | FieldText s => s
  end.

Module Endpoint.
Record t := {
  airport : TextField;
  iata : TextField;
  icao : TextField;
  scheduled : TextField
}.
End Endpoint.

Module Carrier.
Record t := { name : TextField; iata : TextField }.
End Carrier.

Module Ident.
Record t := { number : TextField; iata : TextField; icao : TextField }.
End Ident.

Module ApiFlight.
Record t := {
  flight_status : TextField;
  departure : option Endpoint.t;
  arrival : option Endpoint.t;
  airline : option Carrier.t;
  flight : option Ident.t
}.
End ApiFlight.

(** [o?.field]: absent when [o] is null or undefined. *)
Definition field {O : Type} (get : O -> TextField) (o : option O) : TextField :=
  match o with
  | Some x => get x
  | None => FieldAbsent
  end.

Section HostDate.

(** What the host's parser makes of the text given to [new Date(text)]:
    a time in milliseconds, or NaN. *)
Variable parseDate : string -> float.

Definition newDate (text : string) : JS.TimeValue := JS.TimeClip (parseDate text).

(** Helper function to process AviationStack flight data.  [random] is
    what the one call of [Math.random()] returns. *)
Definition processAviationStackFlight (random : float) (flight : ApiFlight.t)
    (date : string) : FlightRow.t :=
  let departure := ApiFlight.departure flight in
  let arrival := ApiFlight.arrival flight in
  let durationHours :=
    match field Endpoint.scheduled departure,
          field Endpoint.scheduled arrival with
    | FieldText (String c r), FieldText (String c' r') =>
        (JS.getTime (newDate (String c' r'))
         - JS.getTime (newDate (String c r))) / 3600000
    | _, _ => 0
    end%float in
  {| FlightRow.id := JS.Math_floor (random *! 1000000%float);
     FlightRow.flight_date := date;
     FlightRow.flight_status :=
       Some (textOr (ApiFlight.flight_status flight) "scheduled");
     FlightRow.departure_airport :=
       textOr (field Endpoint.airport departure)
              (textOf (field Endpoint.iata departure) ++ " Airport");
     FlightRow.departure_iata := textOr (field Endpoint.iata departure) "";
     FlightRow.departure_icao := textOr (field Endpoint.icao departure) "";
     FlightRow.departure_scheduled := textOr (field Endpoint.scheduled departure) "";
     FlightRow.arrival_airport :=
       textOr (field Endpoint.airport arrival)
              (textOf (field Endpoint.iata arrival) ++ " Airport");
     FlightRow.arrival_iata := textOr (field Endpoint.iata arrival) "";
     FlightRow.arrival_icao := textOr (field Endpoint.icao arrival) "";
     FlightRow.arrival_scheduled := textOr (field Endpoint.scheduled arrival) "";
     FlightRow.airline_name := textOr (field Carrier.name (ApiFlight.airline flight)) "";
     FlightRow.airline_iata := textOr (field Carrier.iata (ApiFlight.airline flight)) "";
     FlightRow.flight_number := textOr (field Ident.number (ApiFlight.flight flight)) "";
     FlightRow.flight_iata := textOr (field Ident.iata (ApiFlight.flight flight)) "";
     FlightRow.flight_icao := textOr (field Ident.icao (ApiFlight.flight flight)) "";
     FlightRow.duration_hours := JS.orNumber (abs durationHours) 0%float |}.

(** ** Mock flights *)

Definition airlines : list (string * string) :=
  [("AA", "American Airlines");
   ("DL", "Delta Air Lines");
   ("UA", "United Airlines");
   ("SW", "Southwest Airlines");
   ("BA", "British Airways")].

Definition airports : list (string * string) :=
  [("JFK", "John F. Kennedy International Airport");
   ("LAX", "Los Angeles International Airport");
   ("ORD", "Chicago O'Hare International Airport");
   ("DFW", "Dallas/Fort Worth International Airport");
   ("LHR", "London Heathrow Airport")].

Definition statuses : list string :=
  ["scheduled"; "active"; "completed"; "cancelled"].

(** [Math.floor(Math.random() * l.length)] for the draw [r]. *)
Definition pick {A : Type} (l : list A) (r : float) : float :=
  JS.Math_floor (r *! JS.ofZ (Z.of_nat (List.length l))).

(** The text given to [new Date] for the departure. *)
Definition departureText (date : string) (rHour rMinute : float) : string :=
  date ++ "T"
  ++ JS.padStart 2 (JS.NumberToString (JS.Math_floor (rHour *! 24%float)))
  ++ ":"
  ++ JS.padStart 2 (JS.NumberToString (JS.Math_floor (rMinute *! 60%float)))
  ++ ":00".

(** [random n] is what the [n]-th call of [Math.random()] returns during
    [generateMockFlights]; the flight of index [i] takes eight, from
    [8 * i] on.  Its times of departure and of arrival, and its
    duration: *)
Definition mockDepTime (random : nat -> float) (date : string) (i : nat)
  : JS.TimeValue :=
  newDate (departureText date (random (8 * i + 4)%nat) (random (8 * i + 5)%nat)).

Definition mockDuration (random : nat -> float) (i : nat) : float :=
  2%float +! random (8 * i + 6)%nat *! 8%float.

Definition mockArrTime (random : nat -> float) (date : string) (i : nat)
  : JS.TimeValue :=
  JS.TimeClip (JS.getTime (mockDepTime random date i)
               +! mockDuration random i *! 60%float *! 60%float *! 1000%float).

(** The flight of index [i]: the callback of [Array.from]. *)
Definition mockFlight (random : nat -> float) (date : string) (i : nat)
  : Completion FlightRow.t :=
  let r j := random (8 * i + j)%nat in
  let airline := JS.arrayAt airlines (pick airlines (r 0%nat)) in
  let depAirport := JS.arrayAt airports (pick airports (r 1%nat)) in
  let arrAirport := JS.arrayAt airports (pick airports (r 2%nat)) in
  let flightNum := JS.Math_floor (r 3%nat *! 9999%float) +! 1%float in
  let depTime := mockDepTime random date i in
  let duration := mockDuration random i in
  let arrTime := mockArrTime random date i in
  let status := JS.arrayAt statuses (pick statuses (r 7%nat)) in
  let! depAirport := defined depAirport in
  let! departure_scheduled :=
    match depTime with
    | Some t => Returns (JS.toISOString t)
    | None => Throws RangeError
    end in
  let! arrAirport := defined arrAirport in
  let! arrival_scheduled :=
    match arrTime with
    | Some t => Returns (JS.toISOString t)
    | None => Throws RangeError
    end in
  let! airline := defined airline in
  Returns
    {| FlightRow.id := JS.ofZ (Z.of_nat i + 1);
       FlightRow.flight_date := date;
       FlightRow.flight_status := status;
       FlightRow.departure_airport := snd depAirport;
       FlightRow.departure_iata := fst depAirport;
       FlightRow.departure_icao := "";
       FlightRow.departure_scheduled := departure_scheduled;
       FlightRow.arrival_airport := snd arrAirport;
       FlightRow.arrival_iata := fst arrAirport;
       FlightRow.arrival_icao := "";
       FlightRow.arrival_scheduled := arrival_scheduled;
       FlightRow.airline_name := snd airline;
       FlightRow.airline_iata := fst airline;
       FlightRow.flight_number := JS.NumberToString flightNum;
       FlightRow.flight_iata := fst airline ++ JS.NumberToString flightNum;
       FlightRow.flight_icao := "";
       FlightRow.duration_hours := roundTo 2 duration |}.

(** [Array.from({ length: n }, f)], from the index [i] on. *)
Fixpoint arrayFrom {A : Type} (f : nat -> Completion A) (i n : nat)
  : Completion (list A) :=
  match n with
  | O => Returns []
  | S n' =>
      let! x := f i in
      let! rest := arrayFrom f (S i) n' in
      Returns (x :: rest)
  end.

(** Helper function to generate mock flight data when APIs fail. *)
Definition generateMockFlights (random : nat -> float) (date : string)
    (count : nat) : Completion (list FlightRow.t) :=
  arrayFrom (mockFlight random date) 0 count.

End HostDate.

(** Helper function to format date consistently, for a Date [date]. *)
Definition formatDate (date : JS.TimeValue) : Completion (option string) :=
  match date with
  | Some t => Returns (hd_error (JS.split "T" (JS.toISOString t)))
  | None => Throws RangeError
  end.

(** ** The token of a request *)

Section Authentication.
Context {User : Type}.

(** [jwt.verify(token, JWT_SECRET, callback)]: the payload of a token
    that verifies, none for one that does not. *)
Variable verify : string -> option User.

(** The middleware either answers or hands the request on. *)
Inductive Handled :=
| Answer (status : Z) (message : string)
| Next (user : User).

(** [authHeader && authHeader.split(' ')[1]]. *)
Definition tokenOf (authHeader : option string) : option string :=
  match authHeader with
  | None => None
  | Some EmptyString => Some EmptyString
  | Some h => nth_error (JS.split " " h) 1
  end.

(** Middleware to verify JWT token. *)
Definition authenticateToken (authHeader : option string) : Handled :=
  match tokenOf authHeader with
  | Some (String c r) =>
      match verify (String c r) with
      | Some user => Next user
      | None => Answer 403 "Invalid or expired token"
      end
  | _ => Answer 401 "Access token required"
  end.

End Authentication.

(** ** The two parts of a flight code, and the duration that is saved *)

(** [flight_iata.substring(0, 2)] and [flight_iata.substring(2)] of the
    flight search. *)
Definition airlineCode (flight_iata : string) : string :=
  JS.substring 0 2 flight_iata.

Definition flightNumber (flight_iata : string) : string :=
  JS.substringFrom 2 flight_iata.

(** [parseFloat(v)] for a value: its text is parsed. *)
Definition parseFloatOf (v : JS.JSValue) : float :=
  match v with
  | JS.JSNumber x => JS.parseFloat (JS.NumberToString x)
  | _ => JS.parseFloat (JS.ToString v)
  end.

(** [parseFloat(flightData.duration_hours) || 0] of the route that saves
    a flight. *)
Definition savedDuration (duration_hours : JS.JSValue) : float :=
  JS.orNumber (parseFloatOf duration_hours) 0%float.

(* ================================================================== *)
(** * Properties of the aggregation *)
(* ================================================================== *)

(** From here on the file states and proves what the aggregation does:
    facts on binary64 rounding and on the text of numbers first, then the
    fields of the summary one group at a time. *)

(** Two Numbers with different bit patterns are different. *)
Ltac float_neq :=
  let H := fresh in
  intro H; apply (f_equal Prim2SF) in H; vm_compute in H; discriminate H.

Definition sampleFlight (date : DateValue) (status departure arrival airline : string)
    (duration : JS.JSValue) : Flight :=
  {| flight_date := date; flight_status := Some status;
     departure_iata := Some departure; arrival_iata := Some arrival;
     airline_iata := Some airline; duration_hours := duration |}.

Definition noRandom (_ : nat) : float := 0%float.

(* ================================================================== *)
(** * Worked inputs *)
(* ================================================================== *)

Example parseFloat_examples :
  JS.parseFloat "3.5abc" = 3.5%float
  /\ JS.parseFloat "  -12.25e2x" = (-1225)%float
  /\ JS.parseFloat ".5" = 0.5%float
  /\ JS.parseFloat "5." = 5%float
  /\ JS.parseFloat "2e+" = 2%float
  /\ JS.parseFloat "1e999" = infinity
  /\ JS.parseFloat "-Infinityx" = neg_infinity
  /\ JS.isNaN (JS.parseFloat "abc") = true
  /\ JS.isNaN (JS.parseFloat ".") = true
  /\ JS.isNaN (JS.parseFloat "") = true.
Proof. repeat split. Qed.

Example toFixed_examples :
  JS.toFixed 2 0x1.0147ae147ae14p+0%float = JS.Text "1.00"   (* 1.005 *)
  /\ JS.toFixed 2 0.125%float = JS.Text "0.13"
  /\ JS.toFixed 2 (-0x1.0624dd2f1a9fcp-10)%float = JS.Text "-0.00"
  /\ JS.toFixed 1 0x1.8fccccccccccdp+6%float = JS.Text "100.0"
  /\ JS.toFixed 0 2.5%float = JS.Text "3"
  /\ JS.toFixed 2 nan = JS.Text "NaN".
Proof. repeat split. Qed.

Example Math_examples :
  JS.Math_round 2.5%float = 3%float
  /\ JS.Math_round (-2.5)%float = (-2)%float
  /\ JS.Math_round 0x1.fffffffffffffp-2%float = 0%float  (* just under 0.5 *)
  /\ JS.Math_floor (-0.5)%float = (-1)%float
  /\ JS.Math_floor 0x1.7f9db22d0e56p+1%float = 2%float.  (* 2.997 *)
Proof. repeat split. Qed.

(** One completed flight JFK-LAX of 5.25 hours by AA. *)
Example one_completed_flight :
  let s := aggregate (2026, 10) noRandom
             [sampleFlight (DateOn 2024 0) "completed" "JFK" "LAX" "AA"
                           (JS.JSNumber 5.25)] in
  Summary.totalFlights s = 1
  /\ Summary.totalHours s = 5.25%float
  /\ Summary.mostFrequentRoute s = "JFK-LAX"
  /\ Summary.mostUsedAircraft s = "AA"
  /\ Summary.onTimePercentage s = 100%float
  /\ Status.completed (Summary.statusDistribution s) = 1.
Proof. repeat split. Qed.

(** One flight LAX-ORD seen first, then two flights JFK-LAX. *)
Example two_routes :
  let s := aggregate (2026, 10) noRandom
             [sampleFlight (DateOn 2026 9) "completed" "LAX" "ORD" "UA"
                           (JS.JSString "4.1");
              sampleFlight (DateOn 2026 10) "active" "JFK" "LAX" "AA"
                           (JS.JSString "5.25");
              sampleFlight (DateOn 2026 10) "scheduled" "JFK" "LAX" "AA"
                           (JS.JSNumber 5.5)] in
  Summary.mostFrequentRoute s = "JFK-LAX"
  /\ map (fun e => (Route.route e, Route.frequency e)) (Summary.routeAnalysis s)
     = [("JFK-LAX", 2); ("LAX-ORD", 1)]
  /\ map (fun e => (Month.month e, Month.flights e, Month.hours e))
         (Summary.monthlyTrend s)
     = [("Jun", 0, 0%float); ("Jul", 0, 0%float); ("Aug", 0, 0%float);
        ("Sep", 0, 0%float); ("Oct", 1, 0x1.0666666666666p+2%float);
        ("Nov", 2, 0x1.599999999999ap+3%float)].
Proof. repeat split. Qed.

(** A text duration, a text that is no number, and an unknown status. *)
Example coerced_and_unrecognised :
  let s := aggregate (2026, 10) noRandom
             [sampleFlight DateInvalid "diverted" "JFK" "LAX" "AA"
                           (JS.JSString "3.5");
              sampleFlight DateMissing "completed" "JFK" "LAX" "AA"
                           (JS.JSString "abc")] in
  Summary.totalFlights s = 2
  /\ Summary.totalHours s = 3.5%float
  /\ Summary.statusDistribution s
     = {| Status.scheduled := 0; Status.active := 0;
          Status.completed := 1; Status.cancelled := 0 |}
  /\ Summary.onTimePercentage s = 50%float.
Proof. repeat split. Qed.

(* ================================================================== *)
(** * Facts on binary64 rounding *)
(* ================================================================== *)

Module FloatFacts.

Lemma shr_1_nonneg mrs : 0 <= shr_m mrs -> 0 <= shr_m (shr_1 mrs).
Proof.
  destruct mrs as [m r s]; simpl.
  destruct m as [|[p|p|]|[p|p|]]; simpl; lia.
Qed.

Lemma iter_shr_1_nonneg p mrs :
  0 <= shr_m mrs -> 0 <= shr_m (iter_pos shr_1 p mrs).
Proof.
  revert mrs; induction p as [p IH|p IH|]; intros mrs H; simpl.
  - apply IH, IH, shr_1_nonneg, H.
  - apply IH, IH, H.
  - apply shr_1_nonneg, H.
Qed.

Lemma shr_nonneg mrs e n : 0 <= shr_m mrs -> 0 <= shr_m (fst (shr mrs e n)).
Proof.
  intros H; destruct n; simpl; auto using iter_shr_1_nonneg.
Qed.

Lemma shr_record_of_loc_m m l : shr_m (shr_record_of_loc m l) = m.
Proof. destruct l as [|[]]; reflexivity. Qed.

Lemma shr_fexp_nonneg m e l :
  0 <= m -> 0 <= shr_m (fst (shr_fexp prec emax m e l)).
Proof.
  intros H; unfold shr_fexp. apply shr_nonneg.
  rewrite shr_record_of_loc_m; exact H.
Qed.

Lemma round_nearest_even_nonneg m l : 0 <= m -> 0 <= round_nearest_even m l.
Proof.
  intros H; destruct l as [|[]]; simpl; try lia.
  destruct (Z.even m); lia.
Qed.

Lemma binary_round_aux_not_nan s m e l :
  0 <= m -> binary_round_aux prec emax s m e l <> S754_nan.
Proof.
  intros H. unfold binary_round_aux.
  pose proof (shr_fexp_nonneg m e l H) as H1.
  destruct (shr_fexp prec emax m e l) as [mrs' e'].
  pose proof (shr_fexp_nonneg
                (round_nearest_even (shr_m mrs') (loc_of_shr_record mrs'))
                e' loc_Exact (round_nearest_even_nonneg _ _ H1)) as H2.
  destruct (shr_fexp prec emax (round_nearest_even _ _) e' loc_Exact)
    as [mrs'' e''].
  simpl in H2. destruct (shr_m mrs''); try discriminate; try lia.
  destruct (e'' <=? emax - prec); discriminate.
Qed.

Lemma binary_round_not_nan s m e : binary_round prec emax s m e <> S754_nan.
Proof.
  unfold binary_round.
  destruct (shl_align m e _) as [mz ez].
  apply binary_round_aux_not_nan; lia.
Qed.

Lemma binary_normalize_not_nan m e sz :
  binary_normalize prec emax m e sz <> S754_nan.
Proof.
  destruct m; simpl; try discriminate; apply binary_round_not_nan.
Qed.

Lemma SFdiv_finite_not_nan s1 m1 e1 s2 m2 e2 :
  SFdiv prec emax (S754_finite s1 m1 e1) (S754_finite s2 m2 e2) <> S754_nan.
Proof.
  unfold SFdiv, SFdiv_core_binary.
  match goal with
  | |- context [Z.div_eucl ?a ?b] =>
      pose proof (Z_div_mod a b eq_refl) as Hd;
      assert (0 <= a) as Ha; [|destruct (Z.div_eucl a b) as [q r]]
  end.
  - destruct (_ - _ - _); try lia. apply Z.shiftl_nonneg; lia.
  - apply binary_round_aux_not_nan. destruct Hd as [Hd Hr]. nia.
Qed.

Lemma SFldexp_not_nan x e : x <> S754_nan -> SFldexp prec emax x e <> S754_nan.
Proof.
  destruct x; simpl; auto. intros _; apply binary_round_not_nan.
Qed.

Lemma SFopp_not_nan x : x <> S754_nan -> SFopp x <> S754_nan.
Proof. destruct x; simpl; congruence. Qed.

Lemma SFeqb_refl x : x <> S754_nan -> SFeqb x x = true.
Proof.
  destruct x as [s|s| |s m e]; intros H; try congruence; unfold SFeqb; simpl.
  - reflexivity.
  - destruct s; reflexivity.
  - rewrite Z.compare_refl, Pos.compare_cont_refl. destruct s; reflexivity.
Qed.

Lemma is_nan_false x : Prim2SF x <> S754_nan -> PrimFloat.is_nan x = false.
Proof.
  intros H. unfold PrimFloat.is_nan.
  rewrite eqb_spec, SFeqb_refl by exact H. reflexivity.
Qed.

(** Reading a specification value that is not NaN gives a Number that is
    not NaN. *)
Lemma SF2Prim_not_nan x : x <> S754_nan -> PrimFloat.is_nan (SF2Prim x) = false.
Proof.
  destruct x as [s|s| |s m e]; intros H; try congruence.
  - destruct s; reflexivity.
  - destruct s; reflexivity.
  - apply is_nan_false. unfold SF2Prim.
    assert (Prim2SF (Z.ldexp (of_uint63 (Uint63Axioms.of_Z (Z.pos m))) e)
            <> S754_nan) as Hl.
    { rewrite Z_ldexp_spec. apply SFldexp_not_nan.
      rewrite of_uint63_spec. apply binary_normalize_not_nan. }
    destruct s; [rewrite opp_spec; apply SFopp_not_nan|]; exact Hl.
Qed.

End FloatFacts.

(* ================================================================== *)
(** * Rounding keeps a result between representable bounds *)
(* ================================================================== *)

Module RoundFacts.

Lemma iter_pos_nat {A : Type} (f : A -> A) p : forall x,
  iter_pos f p x = Nat.iter (Pos.to_nat p) f x.
Proof.
  induction p as [p IH|p IH|]; intros x; simpl iter_pos.
  - rewrite !IH, Pos2Nat.inj_xI.
    replace (S (2 * Pos.to_nat p)) with (Pos.to_nat p + (Pos.to_nat p + 1))%nat
      by lia.
    rewrite !Nat.iter_add. reflexivity.
  - rewrite !IH, Pos2Nat.inj_xO.
    replace (2 * Pos.to_nat p)%nat with (Pos.to_nat p + Pos.to_nat p)%nat by lia.
    rewrite Nat.iter_add. reflexivity.
  - reflexivity.
Qed.

(** ** Shifting right *)

(** After [k] shifts the mantissa is [mx / 2^k], and nothing is recorded
    as lost when nothing was. *)
Definition shifted (mx k : Z) (mrs : shr_record) : Prop :=
  shr_m mrs = mx / 2 ^ k
  /\ (mx mod 2 ^ k = 0 -> shr_r mrs = false /\ shr_s mrs = false).

Lemma pow2_succ_split mx k :
  0 <= k ->
  mx / 2 ^ (k + 1) = mx / 2 ^ k / 2
  /\ (mx mod 2 ^ (k + 1) = 0 ->
      mx mod 2 ^ k = 0 /\ (mx / 2 ^ k) mod 2 = 0).
Proof.
  intros Hk. assert (0 < 2 ^ k) as Hp by (apply Z.pow_pos_nonneg; lia).
  rewrite Z.pow_add_r, Z.pow_1_r by lia. split.
  - rewrite Z.div_div by lia. reflexivity.
  - intros H. rewrite Z.rem_mul_r in H by lia.
    pose proof (Z.mod_pos_bound mx (2 ^ k) Hp) as B2.
    pose proof (Z.mod_pos_bound (mx / 2 ^ k) 2 ltac:(lia)) as B3.
    assert (0 <= 2 ^ k * ((mx / 2 ^ k) mod 2)) as B4 by nia.
    split; [lia|].
    assert (2 ^ k * ((mx / 2 ^ k) mod 2) = 0) as E by lia.
    apply Z.mul_eq_0 in E. lia.
Qed.

Lemma shr_1_fields m r s :
  0 <= m ->
  shr_1 (Build_shr_record m r s)
  = Build_shr_record (m / 2) (Z.odd m) (r || s).
Proof.
  intros Hm. rewrite <- Z.div2_div.
  destruct m as [|[p|p|]|p]; try lia; reflexivity.
Qed.

Lemma shr_1_shifted mx k mrs :
  0 <= mx -> 0 <= k -> shifted mx k mrs -> shifted mx (k + 1) (shr_1 mrs).
Proof.
  intros Hmx Hk [Hm Hrs].
  destruct (pow2_succ_split mx k Hk) as [Hd Hz].
  destruct mrs as [m r s]. simpl in Hm, Hrs. unfold shifted.
  assert (0 <= m) as Hm0 by (rewrite Hm; apply Z.div_pos;
                             [lia | apply Z.pow_pos_nonneg; lia]).
  rewrite shr_1_fields by exact Hm0. simpl. rewrite Hd, <- Hm.
  split; [reflexivity|]. intros H. destruct (Hz H) as [H1 H2].
  destruct (Hrs H1) as [-> ->]. rewrite <- Hm in H2.
  rewrite Zmod_odd in H2. destruct (Z.odd m); [discriminate | auto].
Qed.

Lemma iter_shr_1_shifted mx (n : nat) mrs :
  0 <= mx -> shifted mx 0 mrs ->
  shifted mx (Z.of_nat n) (Nat.iter n shr_1 mrs).
Proof.
  intros Hmx H0. induction n as [|n IH]; [exact H0|].
  rewrite Nat2Z.inj_succ, <- Z.add_1_r. simpl.
  apply shr_1_shifted; [exact Hmx | lia | exact IH].
Qed.

Lemma shr_shifted mx e n :
  0 <= mx -> 0 <= n ->
  shifted mx n (fst (shr (Build_shr_record mx false false) e n))
  /\ snd (shr (Build_shr_record mx false false) e n) = e + n.
Proof.
  intros Hmx Hn.
  assert (shifted mx 0 (Build_shr_record mx false false)) as H0.
  { split; simpl; [now rewrite Z.div_1_r | auto]. }
  destruct n as [|p|p]; try lia; simpl.
  - split; [exact H0 | lia].
  - split; [|reflexivity]. rewrite iter_pos_nat.
    rewrite <- (positive_nat_Z p). apply iter_shr_1_shifted; assumption.
Qed.

Lemma round_nearest_even_shifted mx k mrs :
  shifted mx k mrs ->
  let r := round_nearest_even (shr_m mrs) (loc_of_shr_record mrs) in
  mx / 2 ^ k <= r <= mx / 2 ^ k + 1 /\ (mx mod 2 ^ k = 0 -> r = mx / 2 ^ k).
Proof.
  intros [Hm Hrs]. destruct mrs as [m r s]. simpl in *. subst m.
  split.
  - destruct r, s; simpl; try destruct (Z.even _); lia.
  - intros H. destruct (Hrs H) as [-> ->]. reflexivity.
Qed.

(** ** Digits *)

Lemma digits2_size p : digits2_pos p = Pos.size p.
Proof. induction p; simpl; congruence. Qed.

Lemma digits_bounds p :
  2 ^ (Z.pos (digits2_pos p) - 1) <= Z.pos p < 2 ^ Z.pos (digits2_pos p).
Proof.
  rewrite digits2_size.
  pose proof (Pos.size_gt p) as Hgt. pose proof (Pos.size_le p) as Hle.
  apply Pos2Z.pos_lt_pos in Hgt. apply Pos2Z.pos_le_pos in Hle.
  rewrite Pos2Z.inj_pow in Hgt, Hle.
  change (Z.pos p~0) with (2 * Z.pos p) in Hle.
  split; [|exact Hgt].
  replace (Z.pos (Pos.size p)) with (Z.pos (Pos.size p) - 1 + 1) in Hle by lia.
  rewrite Z.pow_add_r, Z.pow_1_r in Hle by lia. lia.
Qed.

Lemma digits_le_of_lt p d :
  0 <= d -> Z.pos p < 2 ^ d -> Z.pos (digits2_pos p) <= d.
Proof.
  intros Hd H. pose proof (digits_bounds p) as [Hlo _].
  assert (2 ^ (Z.pos (digits2_pos p) - 1) < 2 ^ d) as Hlt by lia.
  apply Z.pow_lt_mono_r_iff in Hlt; lia.
Qed.

Lemma digits_ge_of_le p d :
  0 <= d -> 2 ^ d <= Z.pos p -> d + 1 <= Z.pos (digits2_pos p).
Proof.
  intros Hd H. pose proof (digits_bounds p) as [_ Hhi].
  assert (2 ^ d < 2 ^ Z.pos (digits2_pos p)) as Hlt by lia.
  apply Z.pow_lt_mono_r_iff in Hlt; lia.
Qed.


(** ** The result of rounding an exact product or sum *)

Lemma fexp_eq e : fexp prec emax e = Z.max (e - 53) (-1074).
Proof. reflexivity. Qed.

(** What rounding returns once the mantissa [r] that the rounding rule
    picks at exponent [e1] is known. *)
Definition roundResult (r e1 : Z) : spec_float :=
  if r =? 0 then S754_zero false
  else if r =? 2 ^ 53 then
    (if e1 + 1 <=? 971 then S754_finite false (2 ^ 52) (e1 + 1)
     else S754_infinity false)
  else if e1 <=? 971 then S754_finite false (Z.to_pos r) e1
  else S754_infinity false.

Lemma shr_noshift mrs e n : n <= 0 -> shr mrs e n = (mrs, e).
Proof. destruct n; try lia; reflexivity. Qed.

Lemma second_shift r e1 :
  0 <= r <= 2 ^ 53 -> -1074 <= e1 ->
  (let '(mrs, e) := shr_fexp prec emax r e1 loc_Exact in
   match shr_m mrs with
   | Z0 => S754_zero false
   | Zpos m => if e <=? emax - prec then S754_finite false m e
               else S754_infinity false
   | Zneg _ => S754_nan
   end) = roundResult r e1.
Proof.
  intros Hr He. unfold roundResult, shr_fexp.
  destruct (Z.eqb_spec r 0) as [->|Hr0].
  - rewrite shr_noshift by (simpl Zdigits2; rewrite fexp_eq; lia).
    reflexivity.
  - destruct (Z.eqb_spec r (2 ^ 53)) as [->|Hr1].
    + replace (fexp prec emax (Zdigits2 (2 ^ 53) + e1) - e1) with 1
        by (simpl Zdigits2; rewrite fexp_eq; lia).
      reflexivity.
    + destruct r as [|p|p]; try lia.
      rewrite shr_noshift.
      * reflexivity.
      * simpl Zdigits2. rewrite fexp_eq.
        pose proof (digits_le_of_lt p 53 ltac:(lia) ltac:(lia)). lia.
Qed.

Theorem binary_round_aux_exact (p : positive) (ex : Z) :
  let mx := Z.pos p in
  let e1 := fexp prec emax (Zdigits2 mx + ex) in
  ex <= e1 ->
  exists r,
    mx / 2 ^ (e1 - ex) <= r <= mx / 2 ^ (e1 - ex) + 1
    /\ (mx mod 2 ^ (e1 - ex) = 0 -> r = mx / 2 ^ (e1 - ex))
    /\ r <= 2 ^ 53
    /\ (-1074 < e1 -> 2 ^ 52 <= r)
    /\ binary_round_aux prec emax false mx ex loc_Exact = roundResult r e1.
Proof.
  intros mx e1 He. set (n := e1 - ex).
  assert (0 <= n) as Hn by (unfold n; lia).
  assert (0 < 2 ^ n) as Hp by (apply Z.pow_pos_nonneg; lia).
  pose proof (digits_bounds p) as [Hlo Hhi].
  set (d := Z.pos (digits2_pos p)) in *.
  assert (e1 = Z.max (d + ex - 53) (-1074)) as He1 by reflexivity.
  destruct (shr_shifted mx ex n ltac:(lia) Hn) as [Hsh Hexp].
  unfold binary_round_aux. unfold shr_fexp at 1.
  change (shr_record_of_loc mx loc_Exact) with (Build_shr_record mx false false).
  fold e1. fold n.
  destruct (shr (Build_shr_record mx false false) ex n) as [mrs' e'].
  simpl in Hsh, Hexp. subst e'. replace (ex + n) with e1 by (unfold n; lia).
  pose proof (round_nearest_even_shifted mx n mrs' Hsh) as Hr.
  cbv zeta in Hr.
  set (r := round_nearest_even (shr_m mrs') (loc_of_shr_record mrs')) in *.
  destruct Hr as [Hr1 Hr2].
  assert (mx / 2 ^ n < 2 ^ 53) as Hq.
  { apply Z.div_lt_upper_bound; [exact Hp|].
    rewrite <- Z.pow_add_r by lia.
    eapply Z.lt_le_trans; [exact Hhi|].
    apply Z.pow_le_mono_r; lia. }
  assert (0 <= mx / 2 ^ n) as Hq0 by (apply Z.div_pos; lia).
  exists r. split; [exact Hr1|]. split; [exact Hr2|].
  split; [lia|]. split.
  - intros Hnorm.
    assert (n = d - 53) as En by (unfold n; lia).
    assert (2 ^ 52 <= mx / 2 ^ n); [|lia].
    apply Z.div_le_lower_bound; [exact Hp|].
    rewrite <- Z.pow_add_r by lia.
    replace (n + 52) with (d - 1) by lia. exact Hlo.
  - apply second_shift; lia.
Qed.

(** ** Comparison with a representable bound *)

(** [x] is a non-negative value at most the binary64 [mc * 2^ec]. *)
Definition belowFloat (x : spec_float) (mc : positive) (ec : Z) : Prop :=
  x = S754_zero false
  \/ exists mr er,
       x = S754_finite false mr er
       /\ Z.pos mr < 2 ^ 53
       /\ (er < ec \/ (er = ec /\ Z.pos mr <= Z.pos mc)).

(** [x] is a positive value at least the binary64 [mc * 2^ec]. *)
Definition aboveFloat (x : spec_float) (mc : positive) (ec : Z) : Prop :=
  x = S754_infinity false
  \/ exists mr er,
       x = S754_finite false mr er
       /\ (ec < er \/ (er = ec /\ Z.pos mc <= Z.pos mr)).

Lemma belowFloat_leb x mc ec :
  belowFloat x mc ec -> SFleb x (S754_finite false mc ec) = true.
Proof.
  intros [->|(mr & er & -> & _ & H)]; [reflexivity|].
  unfold SFleb, SFcompare.
  destruct H as [H|[-> H]].
  - rewrite (proj2 (Z.compare_lt_iff _ _) H). reflexivity.
  - rewrite Z.compare_refl.
    change (Pos.compare_cont Eq mr mc) with (Pos.compare mr mc).
    destruct (Pos.compare_spec mr mc); try reflexivity. lia.
Qed.

Lemma aboveFloat_leb x mc ec :
  aboveFloat x mc ec -> SFleb (S754_finite false mc ec) x = true.
Proof.
  intros [->|(mr & er & -> & H)]; [reflexivity|].
  unfold SFleb, SFcompare.
  destruct H as [H|[-> H]].
  - rewrite (proj2 (Z.compare_lt_iff _ _) H). reflexivity.
  - rewrite Z.compare_refl.
    change (Pos.compare_cont Eq mc mr) with (Pos.compare mc mr).
    destruct (Pos.compare_spec mc mr); try reflexivity. lia.
Qed.

Lemma bounded_canonical mc ec :
  bounded prec emax mc ec = true ->
  ec = Z.max (Z.pos (digits2_pos mc) + ec - 53) (-1074) /\ ec <= 971.
Proof.
  unfold bounded, canonical_mantissa. rewrite andb_true_iff, fexp_eq.
  intros [H1 H2]. apply Z.eqb_eq in H1. apply Z.leb_le in H2.
  change (emax - prec) with 971 in H2. lia.
Qed.

Lemma roundResult_cases r e1 :
  0 <= r <= 2 ^ 53 ->
  roundResult r e1 = S754_zero false /\ r = 0
  \/ roundResult r e1 = S754_infinity false
     /\ 0 < r /\ (r = 2 ^ 53 /\ 971 < e1 + 1 \/ 971 < e1)
  \/ (exists mr er, roundResult r e1 = S754_finite false mr er
                    /\ (Z.pos mr = r /\ er = e1 /\ r < 2 ^ 53
                        \/ Z.pos mr = 2 ^ 52 /\ er = e1 + 1 /\ r = 2 ^ 53)
                    /\ er <= 971).
Proof.
  intros Hr. unfold roundResult.
  destruct (Z.eqb_spec r 0); [auto|].
  destruct (Z.eqb_spec r (2 ^ 53)) as [->|].
  - destruct (Z.leb_spec (e1 + 1) 971);
      [|right; left; split; [reflexivity|split; [lia | left; split; lia]]].
    right; right. exists (2 ^ 52)%positive, (e1 + 1).
    split; [reflexivity|]. split; [right; repeat split|lia].
  - destruct (Z.leb_spec e1 971);
      [|right; left; split; [reflexivity|split; [lia | right; lia]]].
    right; right. exists (Z.to_pos r), e1.
    split; [reflexivity|]. rewrite Z2Pos.id by lia.
    split; [left; repeat split; lia | lia].
Qed.

Section Bound.
Variables (p mc : positive) (ex ec : Z).
Hypothesis aligned : ex <= fexp prec emax (Zdigits2 (Z.pos p) + ex).
Hypothesis canonical : bounded prec emax mc ec = true.
Hypothesis finer : ex <= ec.

(** Rounding a value that is at most a binary64 gives at most it. *)
Theorem round_below :
  Z.pos p <= Z.pos mc * 2 ^ (ec - ex) ->
  belowFloat (binary_round_aux prec emax false (Z.pos p) ex loc_Exact) mc ec.
Proof.
  intros Hle.
  destruct (binary_round_aux_exact p ex aligned)
    as (r & [Hr1 Hr2] & Hr3 & Hr4 & _ & ->).
  destruct (bounded_canonical mc ec canonical) as [Hc Hec].
  pose proof (digits_bounds p) as [Hplo Hphi].
  pose proof (digits_bounds mc) as [Hclo Hchi].
  set (dx := Z.pos (digits2_pos p)) in *.
  set (dc := Z.pos (digits2_pos mc)) in *.
  assert (0 < 2 ^ (ec - ex)) as Hp by (apply Z.pow_pos_nonneg; lia).
  assert (Z.pos mc < 2 ^ 53) as Hmc.
  { eapply Z.lt_le_trans; [exact Hchi|]. apply Z.pow_le_mono_r; lia. }
  assert (dx + ex <= dc + ec) as Hd.
  { assert (dx <= dc + (ec - ex)); [|lia].
    apply digits_le_of_lt; [lia|]. rewrite Z.pow_add_r by lia. nia. }
  set (e1 := fexp prec emax (Zdigits2 (Z.pos p) + ex)) in *.
  assert (e1 = Z.max (dx + ex - 53) (-1074)) as He1 by reflexivity.
  assert (e1 <= ec) as Hee by lia.
  assert (0 <= Z.pos p / 2 ^ (e1 - ex)) as Hq0
      by (apply Z.div_pos; [lia | apply Z.pow_pos_nonneg; lia]).
  assert (e1 = ec -> r <= Z.pos mc) as Hsame.
  { intros Heq.
    assert (Z.pos p / 2 ^ (e1 - ex) <= Z.pos mc) as Hq
        by (rewrite Heq; apply Z.div_le_upper_bound; lia).
    destruct (Z.eq_dec (Z.pos p / 2 ^ (e1 - ex)) (Z.pos mc)) as [Hqe|]; [|lia].
    rewrite Hr3; [lia|]. rewrite Heq in *.
    assert (Z.pos p = Z.pos mc * 2 ^ (ec - ex)) as ->.
    { pose proof (Z.mul_div_le (Z.pos p) (2 ^ (ec - ex)) Hp). nia. }
    apply Z.mod_mul. lia. }
  destruct (roundResult_cases r e1 ltac:(lia))
    as [[-> _]|[(_ & _ & Hinf)|(mr & er & -> & Hcase & Her)]].
  - left; reflexivity.
  - exfalso. destruct Hinf as [[-> Hinf]|Hinf]; [|lia].
    assert (e1 = ec) as Heq by lia. apply Hsame in Heq. lia.
  - right. exists mr, er. split; [reflexivity|].
    destruct (Z.eq_dec e1 ec) as [Heq|Hne].
    + (* same exponent as the bound *)
      pose proof (Hsame Heq) as Hrm.
      destruct Hcase as [(Hm & -> & _)|(_ & _ & ->)]; [|lia].
      split; [lia|]. right. split; [exact Heq | lia].
    + destruct Hcase as [(Hm & -> & Hlt)|(Hm & -> & _)].
      * split; [lia|]. left; lia.
      * split; [rewrite Hm; apply Z.pow_lt_mono_r; lia|].
        destruct (Z.eq_dec (e1 + 1) ec) as [Heq|]; [|left; lia].
        right. split; [exact Heq|]. rewrite Hm.
        assert (dc = 53) as Hdc by lia. rewrite Hdc in Hclo. exact Hclo.
Qed.

(** Rounding a value that is at least a binary64 gives at least it. *)
Theorem round_above :
  Z.pos mc * 2 ^ (ec - ex) <= Z.pos p ->
  aboveFloat (binary_round_aux prec emax false (Z.pos p) ex loc_Exact) mc ec.
Proof.
  intros Hge.
  destruct (binary_round_aux_exact p ex aligned)
    as (r & [Hr1 Hr2] & Hr3 & Hr4 & Hr5 & ->).
  destruct (bounded_canonical mc ec canonical) as [Hc Hec].
  pose proof (digits_bounds p) as [Hplo Hphi].
  pose proof (digits_bounds mc) as [Hclo Hchi].
  set (dx := Z.pos (digits2_pos p)) in *.
  set (dc := Z.pos (digits2_pos mc)) in *.
  assert (0 < 2 ^ (ec - ex)) as Hp by (apply Z.pow_pos_nonneg; lia).
  assert (dc + ec <= dx + ex) as Hd.
  { assert (dc - 1 + (ec - ex) + 1 <= dx); [|lia].
    apply digits_ge_of_le; [lia|]. rewrite Z.pow_add_r by lia. nia. }
  set (e1 := fexp prec emax (Zdigits2 (Z.pos p) + ex)) in *.
  assert (e1 = Z.max (dx + ex - 53) (-1074)) as He1 by reflexivity.
  assert (ec <= e1) as Hee by lia.
  assert (0 <= Z.pos p / 2 ^ (e1 - ex)) as Hq0
      by (apply Z.div_pos; [lia | apply Z.pow_pos_nonneg; lia]).
  assert (0 < r) as Hrpos.
  { destruct (Z.eq_dec e1 ec) as [Heq|Hne].
    - assert (Z.pos mc <= Z.pos p / 2 ^ (e1 - ex)); [|lia].
      rewrite Heq. apply Z.div_le_lower_bound; lia.
    - assert (2 ^ 52 <= r) by (apply Hr5; lia). lia. }
  destruct (roundResult_cases r e1 ltac:(lia))
    as [[_ ?]|[[-> _]|(mr & er & -> & Hcase & Her)]];
    [lia | left; reflexivity|].
  right. exists mr, er. split; [reflexivity|].
  destruct Hcase as [(Hm & -> & Hlt)|(Hm & -> & _)]; [|left; lia].
  destruct (Z.eq_dec e1 ec) as [Heq|Hne]; [|left; lia].
  right. split; [exact Heq|]. rewrite Hm.
  assert (Z.pos mc <= Z.pos p / 2 ^ (e1 - ex)); [|lia].
  rewrite Heq. apply Z.div_le_lower_bound; lia.
Qed.
End Bound.

(** ** Sums of positive values *)

Lemma iter_xO_pow m d : Z.pos (Pos.iter xO m d) = Z.pos m * 2 ^ Z.pos d.
Proof.
  apply (Pos.iter_ind _ xO m (fun d a => Z.pos a = Z.pos m * 2 ^ Z.pos d)).
  - rewrite Z.pow_1_r. lia.
  - intros q a IH. rewrite Pos2Z.inj_succ, Z.pow_succ_r by lia.
    change (Z.pos a~0) with (2 * Z.pos a). lia.
Qed.

Lemma shl_align_spec m e e' :
  let '(m', e'') := shl_align m e e' in
  e'' = Z.min e e' /\ Z.pos m' = Z.pos m * 2 ^ (e - e'').
Proof.
  unfold shl_align. destruct (e' - e) as [|d|d] eqn:E.
  - split; [lia|]. replace (e - e) with 0 by lia. rewrite Z.pow_0_r. lia.
  - split; [lia|]. replace (e - e) with 0 by lia. rewrite Z.pow_0_r. lia.
  - split; [lia|]. rewrite iter_xO_pow. f_equal. f_equal. lia.
Qed.

Lemma aligned_of_digits p ex :
  2 ^ 52 <= Z.pos p -> ex <= fexp prec emax (Zdigits2 (Z.pos p) + ex).
Proof.
  intros H. rewrite fexp_eq. simpl Zdigits2.
  pose proof (digits_ge_of_le p 52 ltac:(lia) H). lia.
Qed.

(** The sum of two positive values, the first of them normal and of the
    larger exponent. *)
Lemma SFadd_pos m1 e1 m2 e2 :
  e2 <= e1 -> 2 ^ 52 <= Z.pos m1 ->
  exists S : positive,
    Z.pos S = Z.pos m1 * 2 ^ (e1 - e2) + Z.pos m2
    /\ SFadd prec emax (S754_finite false m1 e1) (S754_finite false m2 e2)
       = binary_round_aux prec emax false (Z.pos S) e2 loc_Exact.
Proof.
  intros He Hm1. unfold SFadd. rewrite Z.min_r by exact He.
  pose proof (shl_align_spec m1 e1 e2) as H1.
  pose proof (shl_align_spec m2 e2 e2) as H2.
  destruct (shl_align m1 e1 e2) as [a1 x1].
  destruct (shl_align m2 e2 e2) as [a2 x2].
  destruct H1 as [-> H1], H2 as [-> H2].
  rewrite Z.min_r in H1 by exact He. rewrite Z.min_id in H2.
  replace (e2 - e2) with 0 in H2 by lia. rewrite Z.pow_0_r in H2.
  cbn [fst cond_Zopp]. exists (a1 + a2)%positive.
  split; [rewrite Pos2Z.inj_add; lia|].
  change (Z.pos a1 + Z.pos a2) with (Z.pos (a1 + a2)).
  cbn [binary_normalize]. unfold binary_round.
  assert (2 ^ 52 <= Z.pos (a1 + a2)) as Hbig.
  { rewrite Pos2Z.inj_add, H1.
    assert (0 < 2 ^ (e1 - e2)) by (apply Z.pow_pos_nonneg; lia).
    nia. }
  pose proof (aligned_of_digits (a1 + a2) e2 Hbig) as Hal.
  pose proof (shl_align_spec (a1 + a2) e2
                (fexp prec emax (Z.pos (digits2_pos (a1 + a2)) + e2))) as H3.
  destruct (shl_align (a1 + a2) e2 _) as [a3 x3].
  destruct H3 as [-> H3]. simpl Zdigits2 in Hal.
  rewrite Z.min_l in * by exact Hal.
  replace (e2 - e2) with 0 in H3 by lia. rewrite Z.pow_0_r in H3.
  replace a3 with (a1 + a2)%positive by lia. reflexivity.
Qed.

(** ** 85 + r * 15 for r between 0 and 1 *)

Definition sf15 : spec_float := S754_finite false 8444249301319680 (-49).
Definition sf85 : spec_float := S754_finite false 5981343255101440 (-46).
Definition sf100 : spec_float := S754_finite false 7036874417766400 (-46).

Lemma scaled_sum_bounds m e :
  e <= -52 -> Z.pos m < 2 ^ (- e) ->
  let y := SFadd prec emax sf85
                 (SFmul prec emax (S754_finite false m e) sf15) in
  SFleb sf85 y = true /\ SFleb y sf100 = true.
Proof.
  intros He Hm. cbv zeta.
  change (SFmul prec emax (S754_finite false m e) sf15)
    with (binary_round_aux prec emax false
            (Z.pos (m * 8444249301319680)) (e + -49) loc_Exact).
  assert (0 < 2 ^ (- e)) as Hp by (apply Z.pow_pos_nonneg; lia).
  assert (belowFloat
            (binary_round_aux prec emax false
               (Z.pos (m * 8444249301319680)) (e + -49) loc_Exact)
            8444249301319680 (-49)) as Ht.
  { apply round_below.
    - apply aligned_of_digits. rewrite Pos2Z.inj_mul. lia.
    - reflexivity.
    - lia.
    - rewrite Pos2Z.inj_mul. replace (-49 - (e + -49)) with (- e) by lia. nia. }
  destruct Ht as [->|(mt & et & -> & Hmt & Het)]; [split; reflexivity|].
  assert (et <= -49) as Het' by lia.
  change (SFadd prec emax sf85 (S754_finite false mt et))
    with (SFadd prec emax (S754_finite false 5981343255101440 (-46))
                (S754_finite false mt et)).
  destruct (SFadd_pos 5981343255101440 (-46) mt et ltac:(lia) ltac:(lia))
    as (S & HS & ->).
  assert (0 < 2 ^ (-46 - et)) as Hq by (apply Z.pow_pos_nonneg; lia).
  assert (2 ^ 52 <= Z.pos S) as Hbig by nia.
  split.
  - apply aboveFloat_leb, round_above.
    + apply aligned_of_digits, Hbig.
    + reflexivity.
    + lia.
    + lia.
  - apply belowFloat_leb, round_below.
    + apply aligned_of_digits, Hbig.
    + reflexivity.
    + lia.
    + rewrite HS.
      assert (Z.pos mt <= 1055531162664960 * 2 ^ (-46 - et)); [|lia].
      destruct Het as [Hlt|[-> Hle]].
      * replace (-46 - et) with (4 + (-50 - et)) by lia.
        rewrite Z.pow_add_r by lia.
        assert (1 <= 2 ^ (-50 - et))
          by (assert (0 < 2 ^ (-50 - et))
                by (apply Z.pow_pos_nonneg; lia); lia).
        change (2 ^ 53) with 9007199254740992 in Hmt.
        change (2 ^ 4) with 16. nia.
      * change (2 ^ (-46 - -49)) with 8. lia.
Qed.

(** A Number between 0 (included) and 1 (excluded), as [Math.random]
    returns. *)
Definition unitInterval (r : float) : Prop :=
  (0 <=? r)%float = true /\ (r <? 1)%float = true.

Theorem scaled_draw_bounds (r : float) :
  unitInterval r ->
  (85 <=? 85 + r * 15)%float = true /\ (85 + r * 15 <=? 100)%float = true.
Proof.
  intros [H0 H1]. rewrite !leb_spec, !add_spec, !mul_spec.
  rewrite leb_spec in H0. rewrite ltb_spec in H1.
  pose proof (Prim2SF_valid r) as Hv.
  replace (Prim2SF 85) with sf85 by reflexivity.
  replace (Prim2SF 100) with sf100 by reflexivity.
  replace (Prim2SF 15) with sf15 by reflexivity.
  replace (Prim2SF 0) with (S754_zero false) in H0 by reflexivity.
  replace (Prim2SF 1) with (S754_finite false 4503599627370496 (-52)) in H1
    by reflexivity.
  destruct (Prim2SF r) as [s|s| |s m e]; try discriminate.
  - destruct s; split; reflexivity.
  - destruct s; discriminate.
  - destruct s; [discriminate|].
    simpl in Hv. apply bounded_canonical in Hv. destruct Hv as [Hc _].
    pose proof (digits_bounds m) as [_ Hhi].
    unfold SFltb, SFcompare in H1.
    assert (Z.pos m < 2 ^ 53) as Hm53.
    { eapply Z.lt_le_trans; [exact Hhi|]. apply Z.pow_le_mono_r; lia. }
    destruct (Z.compare_spec e (-52)) as [He|He|He]; try discriminate.
    + subst e. apply scaled_sum_bounds; [lia|].
      destruct (Pos.compare_cont Eq m 4503599627370496) eqn:E;
        try discriminate.
      pose proof (proj1 (Pos.compare_lt_iff m 4503599627370496) E) as Hlt.
      apply Pos2Z.pos_lt_pos in Hlt. exact Hlt.
    + apply scaled_sum_bounds; [lia|].
      eapply Z.lt_le_trans; [exact Hm53|].
      clear - He. apply Z.pow_le_mono_r; lia.
Qed.

End RoundFacts.

(* ================================================================== *)
(** * Numeric-prefix parsing *)
(* ================================================================== *)

Lemma ofDecimal_not_nan neg m e : JS.isNaN (JS.ofDecimal neg m e) = false.
Proof.
  unfold JS.isNaN, JS.ofDecimal.
  destruct m; try (destruct neg; reflexivity).
  destruct e; apply FloatFacts.SF2Prim_not_nan;
    auto using FloatFacts.binary_normalize_not_nan,
               FloatFacts.SFdiv_finite_not_nan.
Qed.



Lemma append_empty_r s : (s ++ "")%string = s.
Proof. induction s; simpl; congruence. Qed.







Lemma hasPrefix_Infinity_digits s :
  match s with
  | String c _ => JS.digitOf c <> None \/ c = "."%char
  | EmptyString => False
  end ->
  forall g, JS.hasPrefix "Infinity" (s ++ g) = None.
Proof.
  destruct s as [|c s]; [contradiction|]. intros H g.
  unfold JS.hasPrefix.
  change (String.prefix "Infinity" (String c s ++ g))
    with (if ascii_dec "I" c then String.prefix "nfinity" (s ++ g) else false).
  destruct (ascii_dec "I" c) as [<-|]; [|reflexivity].
  destruct H as [H|H]; [elim H; reflexivity | discriminate].
Qed.

Lemma substring_all s : String.substring 0 (String.length s) s = s.
Proof. induction s; simpl; congruence. Qed.


Lemma append_length s t :
  String.length (s ++ t)%string = (String.length s + String.length t)%nat.
Proof. induction s; simpl; congruence. Qed.

Lemma append_assoc s1 s2 s3 :
  ((s1 ++ s2) ++ s3)%string = (s1 ++ (s2 ++ s3))%string.
Proof. induction s1; simpl; congruence. Qed.






(* ================================================================== *)
(** * Rounding to a number of decimals *)
(* ================================================================== *)

(** ** Runs of digits *)

Fixpoint allDigits (s : string) : bool :=
  match s with
  | EmptyString => true
  | String c r =>
      match JS.digitOf c with
      | Some _ => allDigits r
      | None => false
      end
  end.

(** The value [spanDigits] accumulates over a run of digits. *)
Fixpoint digitsValue (acc : Z) (s : string) : Z :=
  match s with
  | EmptyString => acc
  | String c r =>
      match JS.digitOf c with
      | Some d => digitsValue (10 * acc + d) r
      | None => acc
      end
  end.

Definition stopsDigits (rest : string) : Prop :=
  match rest with
  | EmptyString => True
  | String c _ => JS.digitOf c = None
  end.

Lemma spanDigits_run a : forall acc cnt rest,
  allDigits a = true -> stopsDigits rest ->
  JS.spanDigits acc cnt (a ++ rest)
  = (digitsValue acc a, (cnt + String.length a)%nat, rest).
Proof.
  induction a as [|c a IH]; intros acc cnt rest Ha Hr; simpl in *.
  - rewrite Nat.add_0_r. destruct rest as [|c r]; [reflexivity|].
    simpl in *. rewrite Hr. reflexivity.
  - destruct (JS.digitOf c); [|discriminate].
    rewrite IH by assumption. f_equal. f_equal. lia.
Qed.

Lemma allDigits_app a b :
  allDigits (a ++ b) = (allDigits a && allDigits b)%bool.
Proof.
  induction a as [|c a IH]; simpl; [reflexivity|].
  destruct (JS.digitOf c); [exact IH | reflexivity].
Qed.

Lemma digitsValue_app a b acc :
  allDigits a = true ->
  digitsValue acc (a ++ b) = digitsValue (digitsValue acc a) b.
Proof.
  revert acc; induction a as [|c a IH]; intros acc Ha; simpl in *;
    [reflexivity|].
  destruct (JS.digitOf c); [auto | discriminate].
Qed.

Lemma allDigits_zeros n : allDigits (JS.zeros n) = true.
Proof. induction n; simpl; auto. Qed.

Lemma digitsValue_zeros n : digitsValue 0 (JS.zeros n) = 0.
Proof. induction n; simpl; auto. Qed.

Lemma length_zeros n : String.length (JS.zeros n) = n.
Proof. induction n; simpl; congruence. Qed.

(** ** The digits of an integer *)

Fixpoint uintValue (acc : Z) (d : Decimal.uint) : Z :=
  match d with
  | Decimal.Nil => acc
  | Decimal.D0 d => uintValue (10 * acc) d
  | Decimal.D1 d => uintValue (10 * acc + 1) d
  | Decimal.D2 d => uintValue (10 * acc + 2) d
  | Decimal.D3 d => uintValue (10 * acc + 3) d
  | Decimal.D4 d => uintValue (10 * acc + 4) d
  | Decimal.D5 d => uintValue (10 * acc + 5) d
  | Decimal.D6 d => uintValue (10 * acc + 6) d
  | Decimal.D7 d => uintValue (10 * acc + 7) d
  | Decimal.D8 d => uintValue (10 * acc + 8) d
  | Decimal.D9 d => uintValue (10 * acc + 9) d
  end.

Lemma string_of_uint_digits d :
  allDigits (NilEmpty.string_of_uint d) = true
  /\ forall acc, digitsValue acc (NilEmpty.string_of_uint d) = uintValue acc d.
Proof.
  induction d as [|d [IH1 IH2]|d [IH1 IH2]|d [IH1 IH2]|d [IH1 IH2]
                  |d [IH1 IH2]|d [IH1 IH2]|d [IH1 IH2]|d [IH1 IH2]
                  |d [IH1 IH2]|d [IH1 IH2]];
    simpl; split; auto; intros acc; rewrite <- IH2; f_equal; lia.
Qed.

Lemma uintValue_pos d : forall acc,
  uintValue (Z.pos acc) d = Z.pos (Pos.of_uint_acc d acc).
Proof.
  induction d; intros acc; cbn [uintValue Pos.of_uint_acc];
    try reflexivity; rewrite <- IHd; f_equal; lia.
Qed.

Lemma uintValue_zero d : uintValue 0 d = Z.of_N (Pos.of_uint d).
Proof.
  induction d; cbn [uintValue Pos.of_uint Z.of_N]; try reflexivity;
    try exact IHd; apply (uintValue_pos d).
Qed.

Lemma digitsOfZ_digits n :
  0 <= n ->
  allDigits (JS.digitsOfZ n) = true
  /\ digitsValue 0 (JS.digitsOfZ n) = n
  /\ JS.digitsOfZ n <> EmptyString.
Proof.
  intros Hn. unfold JS.digitsOfZ. destruct n as [|p|p]; try lia.
  - repeat split; discriminate.
  - simpl. pose proof (Unsigned.to_uint_nonnil p) as Hnil.
    destruct (string_of_uint_digits (Pos.to_uint p)) as [H1 H2].
    assert (NilZero.string_of_uint (Pos.to_uint p)
            = NilEmpty.string_of_uint (Pos.to_uint p)) as ->
        by (destruct (Pos.to_uint p); [congruence | reflexivity ..]).
    split; [exact H1|]. split.
    + rewrite H2, uintValue_zero, Unsigned.of_to. reflexivity.
    + destruct (Pos.to_uint p); [congruence | discriminate ..].
Qed.

(** ** Reading back the text of toFixed *)

Lemma substring_split i : forall s,
  (i <= String.length s)%nat ->
  s = (String.substring 0 i s
       ++ String.substring i (String.length s - i) s)%string
  /\ String.length (String.substring 0 i s) = i.
Proof.
  induction i as [|i IH]; intros s Hi.
  - rewrite Nat.sub_0_r, substring_all.
    destruct s; simpl; auto.
  - destruct s as [|c s]; simpl in Hi; [lia|].
    destruct (IH s ltac:(lia)) as [E L]. simpl. split; [|congruence].
    f_equal. exact E.
Qed.

Lemma digit_not_sign c d s :
  JS.digitOf c = Some d -> JS.readSign (String c s) = (false, String c s).
Proof.
  destruct c as [[] [] [] [] [] [] [] []]; cbv; intros H;
    try reflexivity; discriminate H.
Qed.

Definition signText (neg : bool) : string :=
  if neg then "-"%string else EmptyString.

(** A run of digits, a point and a run of digits read as one literal. *)
Lemma scanLiteral_fixed neg a b :
  allDigits a = true -> a <> EmptyString -> allDigits b = true ->
  JS.scanLiteral (signText neg ++ a ++ "." ++ b)
  = Some (JS.LitDecimal neg (digitsValue 0 (a ++ b))
                        (0 - Z.of_nat (String.length b)), EmptyString).
Proof.
  intros Ha Hne Hb. destruct a as [|c a]; [congruence|].
  assert (exists d, JS.digitOf c = Some d) as [d Hc]
      by (simpl in Ha; destruct (JS.digitOf c); [eauto | discriminate]).
  rewrite (digitsValue_app (String c a) b 0 Ha).
  unfold JS.scanLiteral.
  assert (JS.readSign (signText neg ++ String c a ++ "." ++ b)
          = (neg, (String c a ++ "." ++ b)%string)) as ->.
  { destruct neg; [reflexivity|]. simpl signText. simpl append.
    apply (digit_not_sign c d), Hc. }
  rewrite hasPrefix_Infinity_digits by (left; congruence).
  rewrite (spanDigits_run (String c a) 0 0 ("." ++ b)%string Ha)
    by reflexivity.
  cbn [append String.length Nat.add].
  rewrite <- (append_empty_r b) at 1.
  rewrite (spanDigits_run b _ 0 EmptyString Hb) by exact I.
  cbn [Nat.add]. change (JS.readExponent "") with (0, EmptyString).
  reflexivity.
Qed.

(** A run of digits read as an integer literal. *)
Lemma scanLiteral_integer neg a :
  allDigits a = true -> a <> EmptyString ->
  JS.scanLiteral (signText neg ++ a)
  = Some (JS.LitDecimal neg (digitsValue 0 a) 0, EmptyString).
Proof.
  intros Ha Hne. destruct a as [|c a]; [congruence|].
  assert (exists d, JS.digitOf c = Some d) as [d Hc]
      by (simpl in Ha; destruct (JS.digitOf c); [eauto | discriminate]).
  unfold JS.scanLiteral.
  assert (JS.readSign (signText neg ++ String c a)
          = (neg, String c a)) as ->.
  { destruct neg; [reflexivity|]. apply (digit_not_sign c d), Hc. }
  pose proof (hasPrefix_Infinity_digits (String c a)
                ltac:(left; congruence) EmptyString) as Hp.
  pose proof (spanDigits_run (String c a) 0 0 EmptyString Ha I) as Hs.
  rewrite append_empty_r in Hp, Hs. rewrite Hp, Hs.
  reflexivity.
Qed.

Lemma insertPoint_scan neg f n :
  0 <= n ->
  JS.scanLiteral (signText neg ++ JS.insertPoint f n)
  = Some (JS.LitDecimal neg n (0 - Z.of_nat f), EmptyString).
Proof.
  intros Hn. destruct (digitsOfZ_digits n Hn) as (Hd & Hv & Hne).
  unfold JS.insertPoint. destruct f as [|f].
  - rewrite scanLiteral_integer, Hv by assumption. reflexivity.
  - set (m0 := JS.digitsOfZ n) in *.
    set (m := if (String.length m0 <=? S f)%nat
              then (JS.zeros (S (S f) - String.length m0) ++ m0)%string
              else m0).
    assert (allDigits m = true /\ digitsValue 0 m = n
            /\ (S f < String.length m)%nat) as (Hmd & Hmv & Hml).
    { unfold m. destruct (Nat.leb_spec (String.length m0) (S f)).
      - rewrite allDigits_app, allDigits_zeros, Hd.
        rewrite digitsValue_app, digitsValue_zeros, Hv
          by apply allDigits_zeros.
        rewrite append_length, length_zeros.
        repeat split. lia.
      - auto. }
    destruct (substring_split (String.length m - S f) m ltac:(lia))
      as [Esplit Elen].
    replace (String.length m - (String.length m - S f))%nat with (S f)
      in Esplit by lia.
    set (a := String.substring 0 (String.length m - S f) m) in *.
    set (b := String.substring (String.length m - S f) (S f) m) in *.
    assert (allDigits a = true /\ allDigits b = true) as [Had Hbd].
    { rewrite Esplit, allDigits_app in Hmd.
      apply andb_true_iff in Hmd. exact Hmd. }
    assert (String.length b = S f) as Hbl.
    { apply (f_equal String.length) in Esplit.
      rewrite append_length, Elen in Esplit. lia. }
    rewrite scanLiteral_fixed; try assumption.
    + rewrite <- Esplit, Hmv, Hbl. reflexivity.
    + intros E. rewrite E in Elen. simpl in Elen. lia.
Qed.

Lemma trimStart_fixed neg f n :
  0 <= n ->
  JS.trimStart (signText neg ++ JS.insertPoint f n)
  = (signText neg ++ JS.insertPoint f n)%string.
Proof.
  intros Hn. pose proof (insertPoint_scan false f n Hn) as H.
  destruct neg; [reflexivity|]. simpl signText in *. simpl append in *.
  destruct (JS.insertPoint f n) as [|c s]; [reflexivity|].
  simpl. destruct (JS.isStrWhiteSpaceChar c) eqn:E; [|reflexivity].
  exfalso. unfold JS.scanLiteral in H.
  destruct c as [[] [] [] [] [] [] [] []]; try discriminate E;
    cbv in H; discriminate H.
Qed.

Lemma nearestScaled_nonneg f m e : 0 <= JS.nearestScaled f m e.
Proof.
  unfold JS.nearestScaled, JS.roundHalfUpQ.
  assert (0 < 10 ^ Z.of_nat f) by (apply Z.pow_pos_nonneg; lia).
  destruct e as [|k|k].
  - rewrite Z.pow_0_r. lia.
  - assert (0 < 2 ^ Z.pos k) by (apply Z.pow_pos_nonneg; lia). nia.
  - assert (0 < 2 ^ Z.pos k) by (apply Z.pow_pos_nonneg; lia).
    apply Z.div_pos; nia.
Qed.

(** What [parseFloat(x.toFixed(f))] is: the Number nearest to the
    decimal with [f] digits after the point that is nearest to [x], of two
    such decimals the one further from zero; zeros lose their sign, and
    NaN, the infinities and magnitudes from 1e21 stay as they are. *)
Theorem roundTo_spec (f : nat) (x : float) :
  roundTo f x
  = match Prim2SF x with
    | S754_nan => nan
    | S754_infinity s => if s then neg_infinity else infinity
    | S754_zero _ => 0%float
    | S754_finite s m e =>
        if (0x1.b1ae4d6e2ef5p+69 <=? abs x)%float then x
        else JS.ofDecimal s (JS.nearestScaled f m e) (0 - Z.of_nat f)
    end.
Proof.
  unfold roundTo, JS.toFixed.
  destruct (Prim2SF x) as [s|s| |s m e]; cbn [JS.parseFloatText].
  - unfold JS.parseFloat.
    change (JS.insertPoint f 0)
      with (signText false ++ JS.insertPoint f 0)%string.
    rewrite (trimStart_fixed false f 0), (insertPoint_scan false f 0) by lia.
    reflexivity.
  - destruct s; reflexivity.
  - reflexivity.
  - destruct (0x1.b1ae4d6e2ef5p+69 <=? abs x)%float; [reflexivity|].
    cbn [JS.parseFloatText]. unfold JS.parseFloat.
    pose proof (nearestScaled_nonneg f m e) as Hn.
    change (if s then "-"%string else EmptyString) with (signText s).
    rewrite (trimStart_fixed s f _ Hn), (insertPoint_scan s f _ Hn).
    reflexivity.
Qed.

Example roundTo_examples :
  roundTo 2 0x1.0147ae147ae14p+0%float = 1%float          (* 1.005 *)
  /\ roundTo 2 0.125%float = 0x1.0a3d70a3d70a4p-3%float   (* 0.13 *)
  /\ roundTo 2 (-0.125)%float = (-0x1.0a3d70a3d70a4p-3)%float
  /\ roundTo 1 0x1.8fccccccccccdp+6%float = 100%float     (* 99.95 *)
  /\ roundTo 2 5.25%float = 5.25%float.
Proof. repeat split. Qed.

(* ================================================================== *)
(** * Durations, totals and counters *)
(* ================================================================== *)

(** ** Coercion of a duration *)

Definition isNumber (v : JS.JSValue) : bool :=
  match v with JS.JSNumber _ => true | _ => false end.

(** A value that is not already a Number never coerces to NaN. *)
Lemma safeParseFloat_not_nan (v : JS.JSValue) :
  isNumber v = false -> JS.isNaN (safeParseFloat v) = false.
Proof.
  destruct v; try discriminate; intros _; unfold safeParseFloat.
  all: destruct (JS.isNaN (JS.parseFloat _)) eqn:E; [reflexivity | exact E].
Qed.

Lemma safeParseFloat_absent :
  safeParseFloat JS.JSUndefined = 0%float /\ safeParseFloat JS.JSNull = 0%float.
Proof. split; reflexivity. Qed.

Definition flightOfDuration (d : JS.JSValue) : Flight :=
  sampleFlight DateMissing "completed" "JFK" "LAX" "AA" d.


(** ** Where NaN cannot come from *)

(** A Number that is neither NaN nor an infinity. *)
Definition finiteNumber (x : float) : Prop :=
  match Prim2SF x with
  | S754_zero _ | S754_finite _ _ _ => True
  | _ => False
  end.

Lemma SFadd_finite_not_nan a d :
  a <> S754_nan ->
  match d with S754_zero _ | S754_finite _ _ _ => True | _ => False end ->
  SFadd prec emax a d <> S754_nan.
Proof.
  intros Ha Hd.
  destruct a as [sa|sa| |sa ma ea]; try congruence;
    destruct d as [sd|sd| |sd md ed]; try contradiction; simpl;
    try discriminate.
  - destruct sa, sd; discriminate.
  - apply FloatFacts.binary_normalize_not_nan.
Qed.

Lemma roundTo_not_nan f x :
  Prim2SF x <> S754_nan -> JS.isNaN (roundTo f x) = false.
Proof.
  intros H. rewrite roundTo_spec.
  pose proof (FloatFacts.is_nan_false x H) as Hx.
  destruct (Prim2SF x) as [s|s| |s m e]; try congruence.
  - reflexivity.
  - destruct s; reflexivity.
  - destruct (_ <=? _)%float; [exact Hx | apply ofDecimal_not_nan].
Qed.

(** When every duration coerces to a finite Number, [totalHours] is not
    NaN. *)
Theorem finite_durations_totalHours (now : Z * Z) (random : nat -> float)
    (F : list Flight) :
  Forall (fun f => finiteNumber (safeParseFloat (duration_hours f))) F ->
  JS.isNaN (Summary.totalHours (aggregate now random F)) = false.
Proof.
  intros HF. destruct F as [|f0 F0] eqn:EF; [reflexivity|]. rewrite <- EF in *.
  assert (aggregate now random F
          = processFlightAnalytics now random (Some (f0 :: F0))) as ->
      by (rewrite EF; reflexivity).
  cbn [processFlightAnalytics Summary.totalHours]. rewrite <- EF.
  clear EF f0 F0. apply roundTo_not_nan. unfold totalHours.
  assert (forall acc, Prim2SF acc <> S754_nan ->
            Prim2SF (fold_left
                       (fun sum flight =>
                          sum +! safeParseFloat (duration_hours flight))
                       F acc) <> S754_nan) as Hfold.
  { induction HF as [|f F Hf HF IH]; intros acc Hacc; simpl; [exact Hacc|].
    apply IH. rewrite add_spec. apply SFadd_finite_not_nan; assumption. }
  apply Hfold. discriminate.
Qed.

(** ** Scalar aggregates *)

(** The sum of the coerced durations, taken in row order from 0. *)
Definition sumCoerced (flights : list Flight) : float :=
  fold_right (fun d acc => acc +! d) 0%float
             (rev (map (fun f => safeParseFloat (duration_hours f)) flights)).

Lemma totalHours_sumCoerced flights : totalHours flights = sumCoerced flights.
Proof.
  unfold totalHours, sumCoerced.
  rewrite <- fold_left_rev_right, <- map_rev.
  induction (rev flights) as [|f l IH]; simpl; congruence.
Qed.


(** ** Time distribution *)

Definition timeOfHours (h : float) : Time.t :=
  {| Time.day := JS.Math_floor (h *! 0.75%float);
     Time.night := JS.Math_floor (h *! 0.25%float);
     Time.ifr := JS.Math_floor (h *! ratio040);
     Time.crossCountry := JS.Math_floor (h *! ratio060) |}.

Example ratio040_literal : JS.parseFloat "0.40" = ratio040.
Proof. reflexivity. Qed.

Example ratio060_literal : JS.parseFloat "0.60" = ratio060.
Proof. reflexivity. Qed.

(** One row of 3.996 hours: the sum is 3.996 and the summary's
    [totalHours] is 4, so the night share is 0 by the code and would be 1
    from the summary's value. *)
Definition flight3996 : Flight :=
  sampleFlight DateMissing "completed" "JFK" "LAX" "AA"
               (JS.JSNumber 0x1.ff7ced916872bp+1%float).

Lemma C9_summary_hours_counterexample :
  let s := aggregate (2026, 10) noRandom [flight3996] in
  Summary.totalHours s = 4%float
  /\ Time.night (Summary.timeDistribution s) = 0%float
  /\ Summary.timeDistribution s <> timeOfHours (Summary.totalHours s).
Proof.
  cbv zeta. split; [reflexivity|]. split; [reflexivity|].
  intro H. apply (f_equal Time.night) in H. revert H.
  vm_compute. float_neq.
Qed.

(** C9 (amended): [timeDistribution] is the four fixed fractions 0.75,
    0.25, 0.40 and 0.60 of the sum of the coerced durations before that
    sum is rounded, each floored; no per-row field other than the duration
    enters it. *)
Theorem C9_time_distribution (now : Z * Z) (random : nat -> float)
    (F : list Flight) :
  Summary.timeDistribution (aggregate now random F)
  = timeOfHours (sumCoerced F).
Proof.
  destruct F as [|f F]; [reflexivity|].
  rewrite <- totalHours_sumCoerced. reflexivity.
Qed.

(** ** Status distribution *)

Definition status_eq_dec : forall a b : option string, {a = b} + {a <> b}.
Proof. decide equality; apply string_dec. Defined.

Definition occurrences (s : string) (F : list Flight) : Z :=
  Z.of_nat (count_occ status_eq_dec (map flight_status F) (Some s)).

Definition recognised (st : option string) : Prop :=
  st = Some "scheduled"%string \/ st = Some "active"%string
  \/ st = Some "completed"%string \/ st = Some "cancelled"%string.

Definition statusSum (sd : Status.t) : Z :=
  Status.scheduled sd + Status.active sd + Status.completed sd
  + Status.cancelled sd.

Lemma statusIs_iff s f : statusIs s f = true <-> flight_status f = Some s.
Proof.
  unfold statusIs. destruct (flight_status f) as [t|]; [|split; discriminate].
  rewrite String.eqb_eq. split; congruence.
Qed.

Lemma countStatus_occurrences s F : countStatus s F = occurrences s F.
Proof.
  unfold countStatus, occurrences. f_equal.
  induction F as [|f F IH]; simpl; [reflexivity|].
  destruct (statusIs s f) eqn:E.
  - apply statusIs_iff in E. destruct (status_eq_dec _ _); simpl; congruence.
  - destruct (status_eq_dec (flight_status f) (Some s)) as [e|e]; [|exact IH].
    apply statusIs_iff in e. congruence.
Qed.

Lemma summary_statusDistribution now random F :
  Summary.statusDistribution (aggregate now random F) = statusDistribution F.
Proof. destruct F; reflexivity. Qed.

Lemma occurrences_cons s f F :
  occurrences s (f :: F) =
  (if status_eq_dec (flight_status f) (Some s) then 1 else 0) + occurrences s F.
Proof.
  unfold occurrences. simpl.
  destruct (status_eq_dec _ _); lia.
Qed.

Lemma occurrences_app s F G :
  occurrences s (F ++ G) = occurrences s F + occurrences s G.
Proof.
  unfold occurrences. rewrite map_app, count_occ_app. lia.
Qed.

Lemma statusSum_cons f F :
  statusSum (statusDistribution (f :: F)) =
  statusSum (statusDistribution F)
  + (if status_eq_dec (flight_status f) (Some "scheduled"%string) then 1 else 0)
  + (if status_eq_dec (flight_status f) (Some "active"%string) then 1 else 0)
  + (if status_eq_dec (flight_status f) (Some "completed"%string) then 1 else 0)
  + (if status_eq_dec (flight_status f) (Some "cancelled"%string) then 1 else 0).
Proof.
  unfold statusSum, statusDistribution; simpl.
  rewrite !countStatus_occurrences, !occurrences_cons. lia.
Qed.

Lemma statusSum_bounds F :
  statusSum (statusDistribution F) <= Z.of_nat (List.length F)
  /\ (statusSum (statusDistribution F) = Z.of_nat (List.length F)
      <-> Forall (fun f => recognised (flight_status f)) F).
Proof.
  induction F as [|f F [IHle IHeq]].
  - split; [cbv; discriminate|]. split; [constructor | reflexivity].
  - rewrite statusSum_cons. simpl List.length. rewrite Nat2Z.inj_succ.
    unfold recognised in *.
    repeat match goal with
           | |- context [status_eq_dec ?a ?b] => destruct (status_eq_dec a b)
           end; try congruence.
    all: split; [lia|]; rewrite Forall_cons_iff; split; intro H.
    all: try (split; [tauto | apply IHeq; lia]).
    all: try (apply proj2 in H; apply IHeq in H; lia).
    + exfalso; lia.
    + destruct H as [[H|[H|[H|H]]] _]; congruence.
Qed.

(** C6: each counter of [statusDistribution] is the number of rows whose
    status is exactly that literal; a row with another status changes no
    counter; the four counters add up to at most the number of rows, and
    to exactly that number if and only if every row has one of the four
    statuses. *)
Theorem C6_status_distribution (now : Z * Z) (random : nat -> float)
    (F : list Flight) :
  let sd := Summary.statusDistribution (aggregate now random F) in
  (Status.scheduled sd = occurrences "scheduled" F
   /\ Status.active sd = occurrences "active" F
   /\ Status.completed sd = occurrences "completed" F
   /\ Status.cancelled sd = occurrences "cancelled" F)
  /\ (forall F1 f F2, F = (F1 ++ f :: F2)%list ->
        ~ recognised (flight_status f) ->
        sd = Summary.statusDistribution (aggregate now random (F1 ++ F2)%list))
  /\ statusSum sd <= Z.of_nat (List.length F)
  /\ (statusSum sd = Z.of_nat (List.length F)
      <-> Forall (fun f => recognised (flight_status f)) F).
Proof.
  cbv zeta. rewrite summary_statusDistribution.
  split; [|split; [|apply statusSum_bounds]].
  - unfold statusDistribution; simpl.
    rewrite !countStatus_occurrences. auto.
  - intros F1 f F2 -> Hf. rewrite summary_statusDistribution.
    unfold statusDistribution. rewrite !countStatus_occurrences.
    rewrite !occurrences_app, !occurrences_cons.
    unfold recognised in Hf.
    repeat match goal with
           | |- context [status_eq_dec ?a ?b] => destruct (status_eq_dec a b)
           end; try tauto.
    all: simpl; repeat f_equal; lia.
Qed.

Lemma C6_status_distribution_witness :
  let F := [sampleFlight DateMissing "diverted" "JFK" "LAX" "AA" JS.JSNull;
            sampleFlight DateMissing "active" "JFK" "LAX" "AA" JS.JSNull] in
  Summary.statusDistribution (aggregate (2026, 10) noRandom F) =
  Summary.statusDistribution
    (aggregate (2026, 10) noRandom
       [sampleFlight DateMissing "active" "JFK" "LAX" "AA" JS.JSNull]).
Proof.
  intro F.
  apply (proj1 (proj2 (C6_status_distribution (2026, 10) noRandom F))
           [] (sampleFlight DateMissing "diverted" "JFK" "LAX" "AA" JS.JSNull)
           [sampleFlight DateMissing "active" "JFK" "LAX" "AA" JS.JSNull]).
  - reflexivity.
  - unfold recognised; simpl. intros [H|[H|[H|H]]]; discriminate H.
Defined.

(** ** The empty input *)

(** What the guard returns, apart from the months of the trend. *)
Lemma empty_input_zeroed (now : Z * Z) (random : nat -> float)
    (flights : option (list Flight)) :
  flights = None \/ flights = Some [] ->
  let s := processFlightAnalytics now random flights in
  Summary.totalFlights s = 0
  /\ Summary.totalHours s = 0%float
  /\ Summary.averageFlightTime s = 0%float
  /\ Summary.mostFrequentRoute s = "N/A"%string
  /\ Summary.mostUsedAircraft s = "N/A"%string
  /\ Summary.onTimePercentage s = 0%float
  /\ Summary.routeAnalysis s = []
  /\ Summary.aircraftBreakdown s = []
  /\ Summary.airlineAnalysis s = []
  /\ Summary.statusDistribution s = {| Status.scheduled := 0; Status.active := 0;
                                       Status.completed := 0; Status.cancelled := 0 |}
  /\ Summary.timeDistribution s = timeOfHours 0%float
  /\ List.length (Summary.monthlyTrend s) = 6%nat
  /\ Forall (fun e => Month.flights e = 0 /\ Month.hours e = 0%float)
            (Summary.monthlyTrend s).
Proof.
  intros [-> | ->]; cbv zeta; repeat split; repeat constructor.
Qed.

(** The short names of the six calendar months that end at [now]. *)
Definition recentMonthNames (now : Z * Z) : list string :=
  map (fun i => nth (Z.to_nat ((snd now - i) mod 12)) monthNames ""%string)
      [5; 4; 3; 2; 1; 0].

(** C2: in November 2026 the empty input gets the months January to June,
    where the six most recent months are June to November, the months
    [generateMonthlyTrend] gives for the same clock. *)
Theorem C2_empty_trend_months_are_fixed :
  let now := (2026, 10) in
  map Month.month
      (Summary.monthlyTrend (processFlightAnalytics now noRandom (Some [])))
  = ["Jan"; "Feb"; "Mar"; "Apr"; "May"; "Jun"]%string
  /\ map Month.month
         (Summary.monthlyTrend (processFlightAnalytics now noRandom None))
     = ["Jan"; "Feb"; "Mar"; "Apr"; "May"; "Jun"]%string
  /\ recentMonthNames now = ["Jun"; "Jul"; "Aug"; "Sep"; "Oct"; "Nov"]%string
  /\ map Month.month (generateMonthlyTrend now [])
     = ["Jun"; "Jul"; "Aug"; "Sep"; "Oct"; "Nov"]%string.
Proof. repeat split. Qed.

(* ================================================================== *)
(** * Sorting by a count, descending *)
(* ================================================================== *)

Lemma In_firstn {A : Type} (n : nat) (l : list A) (x : A) :
  In x (firstn n l) -> In x l.
Proof.
  revert l; induction n as [|n IH]; intros [|y l]; simpl; try tauto.
  intros [H|H]; auto.
Qed.


Section SortFacts.
Context {A : Type} (rank : A -> Z).

Let byRank (a b : A) : Z := rank b - rank a.

Lemma insertSorted_perm x l :
  Permutation (JS.insertSorted byRank x l) (x :: l).
Proof.
  induction l as [|y t IH]; simpl; [reflexivity|].
  destruct (0 <? byRank x y); [|reflexivity].
  rewrite IH. apply perm_swap.
Qed.

Lemma arraySort_perm l : Permutation (JS.arraySort byRank l) l.
Proof.
  induction l as [|x l IH]; simpl; [reflexivity|].
  rewrite insertSorted_perm. now constructor.
Qed.

Lemma arraySort_length l : List.length (JS.arraySort byRank l) = List.length l.
Proof. apply Permutation_length, arraySort_perm. Qed.

Lemma arraySort_In l x : In x (JS.arraySort byRank l) <-> In x l.
Proof.
  split; apply Permutation_in;
    [|symmetry]; apply arraySort_perm.
Qed.

(** [a] comes before [b]: a larger count, or the same count and [a]
    earlier in the order [before] of the input. *)
Variable before : A -> A -> Prop.

Definition ranksFirst (a b : A) : Prop :=
  rank b < rank a \/ (rank a = rank b /\ before a b).

Lemma insertSorted_sorted x l :
  StronglySorted ranksFirst l -> Forall (before x) l ->
  StronglySorted ranksFirst (JS.insertSorted byRank x l).
Proof.
  induction l as [|y t IH]; intros Hs Hb; simpl.
  - repeat constructor.
  - inversion Hs as [|? ? Hst Hy]; subst.
    inversion Hb as [|? ? Hxy Hxt]; subst.
    unfold byRank at 1. destruct (Z.ltb_spec 0 (rank y - rank x)) as [Hlt|Hge].
    + constructor; [apply IH; assumption|].
      eapply Permutation_Forall; [symmetry; apply insertSorted_perm|].
      constructor; [left; lia | assumption].
    + constructor; [assumption|].
      constructor.
      * destruct (Z.eq_dec (rank x) (rank y)); [right; auto | left; lia].
      * rewrite Forall_forall in *. intros z Hz.
        specialize (Hy z Hz). specialize (Hxt z Hz).
        destruct Hy as [Hy|[Hy _]];
          (destruct (Z.eq_dec (rank x) (rank z)); [right; auto | left; lia]).
Qed.

(** The sort is stable: on an input listed in the order [before], it
    returns the entries by descending count, entries of equal count
    staying in the order [before]. *)
Lemma arraySort_sorted l :
  StronglySorted before l -> StronglySorted ranksFirst (JS.arraySort byRank l).
Proof.
  induction l as [|x l IH]; intros Hs; simpl; [constructor|].
  inversion Hs; subst.
  apply insertSorted_sorted; [auto|].
  eapply Permutation_Forall; [symmetry; apply arraySort_perm | assumption].
Qed.


End SortFacts.

(** Sorting commutes with a projection that keeps the counts. *)
Lemma arraySort_map {A B : Type} (f : A -> B) (rankA : A -> Z) (rankB : B -> Z) :
  (forall a, rankB (f a) = rankA a) ->
  forall l,
    map f (JS.arraySort (fun a b => rankA b - rankA a) l)
    = JS.arraySort (fun a b => rankB b - rankB a) (map f l).
Proof.
  intros Hr l. induction l as [|x l IH]; simpl; [reflexivity|].
  rewrite <- IH. generalize (JS.arraySort (fun a b => rankA b - rankA a) l).
  intros s. induction s as [|y t IHt]; simpl; [reflexivity|].
  rewrite !Hr. destruct (0 <? rankA y - rankA x); simpl; congruence.
Qed.

(* ================================================================== *)
(** * Grouping rows under a key *)
(* ================================================================== *)

Local Close Scope string_scope.
Local Open Scope list_scope.

(** The distinct keys, each at the place of its first occurrence. *)
Fixpoint firstSeen (ks : list string) : list string :=
  match ks with
  | [] => []
  | k :: t => k :: filter (fun k' => negb (String.eqb k' k)) (firstSeen t)
  end.

(** The position of the first occurrence of [k]. *)
Fixpoint firstIndex (k : string) (ks : list string) : nat :=
  match ks with
  | [] => O
  | k' :: t => if String.eqb k' k then O else S (firstIndex k t)
  end.

(** A running sum that starts from its first term. *)
Definition accumulate (ds : list float) : float :=
  match ds with
  | [] => 0%float
  | d :: t => fold_left PrimFloat.add t d
  end.

Lemma accumulate_snoc ds d :
  ds <> [] -> accumulate (ds ++ [d]) = accumulate ds +! d.
Proof.
  destruct ds as [|d0 t]; [congruence|]. intros _. simpl.
  rewrite fold_left_app. reflexivity.
Qed.

Lemma In_firstSeen ks k : In k (firstSeen ks) <-> In k ks.
Proof.
  induction ks as [|a t IH]; simpl; [tauto|].
  rewrite filter_In, IH, negb_true_iff, String.eqb_neq.
  destruct (string_dec a k); intuition congruence.
Qed.

Lemma NoDup_firstSeen ks : NoDup (firstSeen ks).
Proof.
  induction ks as [|a t IH]; simpl; constructor.
  - rewrite filter_In, negb_true_iff, String.eqb_neq. tauto.
  - apply NoDup_filter, IH.
Qed.

Lemma firstSeen_snoc ks k :
  firstSeen (ks ++ [k]) =
  if in_dec string_dec k ks then firstSeen ks else firstSeen ks ++ [k].
Proof.
  induction ks as [|a t IH]; simpl; [reflexivity|].
  rewrite IH. destruct (string_dec a k) as [->|n].
  - destruct (in_dec string_dec k t); [reflexivity|].
    rewrite filter_app. simpl. rewrite String.eqb_refl. simpl.
    now rewrite app_nil_r.
  - destruct (in_dec string_dec k t); [reflexivity|].
    rewrite filter_app. simpl.
    replace (String.eqb k a) with false
      by (symmetry; apply String.eqb_neq; congruence).
    reflexivity.
Qed.

Lemma length_firstSeen ks :
  List.length (firstSeen ks) = List.length (nodup string_dec ks).
Proof.
  apply Permutation_length, NoDup_Permutation.
  - apply NoDup_firstSeen.
  - apply NoDup_nodup.
  - intros k. rewrite In_firstSeen, nodup_In. reflexivity.
Qed.

Lemma StronglySorted_filter {A : Type} (R : A -> A -> Prop) p l :
  StronglySorted R l -> StronglySorted R (filter p l).
Proof.
  induction 1 as [|x l Hs IH Hx]; simpl; [constructor|].
  destruct (p x); [|exact IH].
  constructor; [exact IH|].
  rewrite Forall_forall in *. intros z Hz. apply Hx.
  apply filter_In in Hz. tauto.
Qed.

Lemma StronglySorted_weaken {A : Type} (R R' : A -> A -> Prop) l :
  (forall a b, In a l -> In b l -> R a b -> R' a b) ->
  StronglySorted R l -> StronglySorted R' l.
Proof.
  intros H Hs. induction Hs as [|x l Hs IH Hx]; constructor.
  - apply IH. intros; apply H; simpl; auto.
  - rewrite Forall_forall in *. intros z Hz. apply H; simpl; auto.
Qed.

Lemma StronglySorted_map {A B : Type} (f : A -> B) (R : B -> B -> Prop) l :
  StronglySorted (fun a b => R (f a) (f b)) l -> StronglySorted R (map f l).
Proof.
  induction 1 as [|x l Hs IH Hx]; simpl; constructor; [exact IH|].
  rewrite Forall_forall in *. intros z Hz.
  apply in_map_iff in Hz. destruct Hz as (y & <- & Hy). auto.
Qed.

(** [firstSeen] lists the keys by first occurrence. *)
Lemma firstSeen_sorted ks :
  StronglySorted (fun a b => (firstIndex a ks < firstIndex b ks)%nat)
                 (firstSeen ks).
Proof.
  induction ks as [|k t IH]; simpl; constructor.
  - eapply StronglySorted_weaken;
      [|apply StronglySorted_filter; exact IH].
    intros a b Ha Hb H. simpl.
    apply filter_In in Ha, Hb.
    destruct Ha as [_ Ha], Hb as [_ Hb].
    rewrite negb_true_iff, String.eqb_sym in Ha, Hb.
    rewrite Ha, Hb. cbv beta in H. lia.
  - rewrite Forall_forall. intros z Hz.
    apply filter_In in Hz. destruct Hz as [_ Hz].
    rewrite negb_true_iff in Hz. rewrite String.eqb_refl.
    rewrite String.eqb_sym in Hz. rewrite Hz. lia.
Qed.

(** ** Map operations on a list of distinct keys *)

Section MapFacts.
Context {V : Type} (g : string -> V).

Lemma mapGet_map_in L k :
  In k L -> JS.mapGet (map (fun k => (k, g k)) L) k = Some (g k).
Proof.
  induction L as [|a L IH]; simpl; [tauto|].
  destruct (String.eqb_spec a k) as [->|n]; [reflexivity|].
  intros [H|H]; [congruence | auto].
Qed.

Lemma mapGet_map_notin L k :
  ~ In k L -> JS.mapGet (map (fun k => (k, g k)) L) k = None.
Proof.
  induction L as [|a L IH]; simpl; [reflexivity|].
  destruct (String.eqb_spec a k) as [->|n]; [tauto|].
  intros H; apply IH; tauto.
Qed.

Lemma mapSet_map_notin L k v :
  ~ In k L ->
  JS.mapSet (map (fun k => (k, g k)) L) k v
  = map (fun k => (k, g k)) L ++ [(k, v)].
Proof.
  induction L as [|a L IH]; simpl; [reflexivity|].
  destruct (String.eqb_spec a k) as [->|n]; [tauto|].
  intros H; rewrite IH by tauto; reflexivity.
Qed.

Lemma mapSet_map_in L k v :
  NoDup L -> In k L ->
  JS.mapSet (map (fun k => (k, g k)) L) k v
  = map (fun k' => (k', if String.eqb k' k then v else g k')) L.
Proof.
  induction L as [|a L IH]; simpl; [tauto|].
  intros Hnd Hin. inversion Hnd as [|? ? Ha Hnd']; subst.
  destruct (String.eqb_spec a k) as [->|n].
  - f_equal. apply map_ext_in. intros b Hb.
    destruct (String.eqb_spec b k); [congruence | reflexivity].
  - f_equal. apply IH; [assumption|]. destruct Hin; [congruence | assumption].
Qed.
End MapFacts.

(** ** The tally of a key *)

Section TallyFacts.
Variable key : Flight -> string.

Definition keyIs (k : string) (f : Flight) : bool := String.eqb (key f) k.

(** How many rows have key [k]. *)
Definition countKey (k : string) (F : list Flight) : Z :=
  Z.of_nat (count_occ string_dec (map key F) k).

(** The durations of the rows of key [k], added up in row order. *)
Definition hoursOfKey (k : string) (F : list Flight) : float :=
  accumulate (map (fun f => safeParseFloat (duration_hours f))
                  (filter (keyIs k) F)).

Definition tallyOfKey (F : list Flight) (k : string) : Tally :=
  {| tallyCount := countKey k F; tallyHours := hoursOfKey k F |}.

Lemma countKey_snoc k F f :
  countKey k (F ++ [f]) = countKey k F + (if keyIs k f then 1 else 0).
Proof.
  unfold countKey, keyIs. rewrite map_app, count_occ_app. simpl.
  destruct (string_dec (key f) k) as [e|n].
  - rewrite (proj2 (String.eqb_eq _ _) e). lia.
  - rewrite (proj2 (String.eqb_neq _ _) n). lia.
Qed.

Lemma hoursOfKey_snoc_other k F f :
  keyIs k f = false -> hoursOfKey k (F ++ [f]) = hoursOfKey k F.
Proof.
  intros H. unfold hoursOfKey. rewrite filter_app. simpl. rewrite H.
  now rewrite app_nil_r.
Qed.

Lemma filter_keyIs_nonempty k F : In k (map key F) -> filter (keyIs k) F <> [].
Proof.
  intros H. apply in_map_iff in H. destruct H as (f & Hk & Hf).
  intros E. assert (In f (filter (keyIs k) F)) as Hin.
  { apply filter_In. split; [exact Hf|]. unfold keyIs. now apply String.eqb_eq. }
  rewrite E in Hin. exact Hin.
Qed.

Lemma hoursOfKey_snoc_same k F f :
  keyIs k f = true -> In k (map key F) ->
  hoursOfKey k (F ++ [f])
  = hoursOfKey k F +! safeParseFloat (duration_hours f).
Proof.
  intros H Hin. unfold hoursOfKey. rewrite filter_app. simpl. rewrite H.
  rewrite map_app. simpl. apply accumulate_snoc.
  intros E. apply map_eq_nil in E. revert E.
  apply filter_keyIs_nonempty, Hin.
Qed.

Lemma hoursOfKey_snoc_first k F f :
  keyIs k f = true -> ~ In k (map key F) ->
  hoursOfKey k (F ++ [f]) = safeParseFloat (duration_hours f).
Proof.
  intros H Hin. unfold hoursOfKey. rewrite filter_app. simpl. rewrite H.
  replace (filter (keyIs k) F) with (@nil Flight); [reflexivity|].
  symmetry. induction F as [|a F IH]; simpl; [reflexivity|].
  simpl in Hin. unfold keyIs at 1.
  destruct (String.eqb_spec (key a) k); [tauto|]. apply IH. tauto.
Qed.

Lemma countKey_notin k F : ~ In k (map key F) -> countKey k F = 0.
Proof.
  intros H. unfold countKey.
  rewrite (proj1 (count_occ_not_In string_dec _ _) H). reflexivity.
Qed.

Lemma countKey_pos k F : In k (map key F) -> 0 < countKey k F.
Proof.
  intros H. unfold countKey.
  apply (count_occ_In string_dec) in H. lia.
Qed.

Lemma tallyBy_snoc F f :
  tallyBy key (F ++ [f]) = tallyStep key (tallyBy key F) f.
Proof. unfold tallyBy. rewrite fold_left_app. reflexivity. Qed.

(** The map the loop builds: one entry per distinct key, in order of
    first occurrence, holding the number of rows of that key and the
    sum of their durations. *)
Theorem tallyBy_closed_form F :
  tallyBy key F
  = map (fun k => (k, tallyOfKey F k)) (firstSeen (map key F)).
Proof.
  induction F as [|f F IH] using rev_ind; [reflexivity|].
  rewrite tallyBy_snoc, IH. unfold tallyStep.
  rewrite map_app. simpl map. rewrite firstSeen_snoc.
  destruct (in_dec string_dec (key f) (map key F)) as [Hin|Hin].
  - rewrite mapGet_map_in by (apply In_firstSeen, Hin).
    rewrite mapSet_map_in
      by (auto using NoDup_firstSeen; apply In_firstSeen, Hin).
    apply map_ext_in. intros k Hk. f_equal.
    unfold tallyOfKey. simpl.
    destruct (String.eqb k (key f)) eqn:E.
    + apply String.eqb_eq in E. subst k.
      rewrite countKey_snoc, hoursOfKey_snoc_same; auto;
        unfold keyIs; rewrite String.eqb_refl; reflexivity.
    + rewrite countKey_snoc, hoursOfKey_snoc_other;
        unfold keyIs; rewrite String.eqb_sym, E; [f_equal; lia | reflexivity].
  - rewrite mapGet_map_notin by (rewrite In_firstSeen; exact Hin).
    rewrite mapSet_map_notin by (rewrite In_firstSeen; exact Hin).
    rewrite map_app. simpl. f_equal.
    + apply map_ext_in. intros k Hk. f_equal.
      apply (proj1 (In_firstSeen _ _)) in Hk.
      assert (keyIs k f = false) as E.
      { unfold keyIs. apply String.eqb_neq. intros Heq. apply Hin. now rewrite Heq. }
      unfold tallyOfKey.
      rewrite countKey_snoc, hoursOfKey_snoc_other, E by exact E.
      f_equal; lia.
    + unfold tallyOfKey.
      assert (keyIs (key f) f = true) as E
          by (unfold keyIs; apply String.eqb_refl).
      rewrite countKey_snoc, hoursOfKey_snoc_first, E, countKey_notin; auto.
Qed.

(** The keys with their counts, in the order of the map. *)
Definition keyCounts (F : list Flight) : list (string * Z) :=
  map (fun k => (k, countKey k F)) (firstSeen (map key F)).

(** The order [slice(0, 5)] of the sorted entries realises. *)
Definition ranked (F : list Flight) : list (string * Z) :=
  JS.arraySort (fun a b => snd b - snd a) (keyCounts F).

Definition outranks (F : list Flight) (a b : string * Z) : Prop :=
  snd b < snd a
  \/ (snd a = snd b
      /\ (firstIndex (fst a) (map key F) < firstIndex (fst b) (map key F))%nat).

Lemma keyCounts_tally F :
  map (fun e => (fst e, tallyCount (snd e))) (tallyBy key F) = keyCounts F.
Proof.
  rewrite tallyBy_closed_form. unfold keyCounts. rewrite map_map.
  reflexivity.
Qed.

Lemma ranked_sorted F : StronglySorted (outranks F) (ranked F).
Proof.
  unfold ranked.
  apply (arraySort_sorted (A := string * Z) snd
           (fun a b => (firstIndex (fst a) (map key F)
                        < firstIndex (fst b) (map key F))%nat)).
  unfold keyCounts. apply StronglySorted_map. simpl.
  apply firstSeen_sorted.
Qed.

Lemma ranked_In F e :
  In e (ranked F) <-> In (fst e) (map key F) /\ snd e = countKey (fst e) F.
Proof.
  unfold ranked.
  rewrite (arraySort_In (A := string * Z) snd).
  unfold keyCounts. rewrite in_map_iff. split.
  - intros (k & <- & Hk). apply (proj1 (In_firstSeen _ _)) in Hk. auto.
  - intros [Hk He]. exists (fst e). rewrite In_firstSeen.
    split; [|exact Hk]. destruct e; simpl in *; congruence.
Qed.

Lemma ranked_length F :
  List.length (ranked F) = List.length (nodup string_dec (map key F)).
Proof.
  unfold ranked.
  rewrite (arraySort_length (A := string * Z) snd).
  unfold keyCounts. rewrite length_map. apply length_firstSeen.
Qed.

Lemma ranked_NoDup F : NoDup (map fst (ranked F)).
Proof.
  unfold ranked.
  eapply Permutation_NoDup.
  - symmetry. apply Permutation_map.
    apply (arraySort_perm (A := string * Z) snd).
  - unfold keyCounts. rewrite map_map. simpl. rewrite map_id.
    apply NoDup_firstSeen.
Qed.
End TallyFacts.

(** ** The five most frequent keys *)

Lemma NoDup_firstn {A : Type} n (l : list A) : NoDup l -> NoDup (firstn n l).
Proof.
  revert l; induction n as [|n IH]; intros [|x l] H; simpl; try constructor.
  - inversion H; subst. intros Hx. apply In_firstn in Hx. contradiction.
  - inversion H; auto.
Qed.

Section TopFive.
Variable key : Flight -> string.

Definition topFive (F : list Flight) : list (string * Z) :=
  JS.slice0 5 (ranked key F).

Lemma topFive_NoDup F : NoDup (map fst (topFive F)).
Proof.
  unfold topFive, JS.slice0. rewrite <- firstn_map.
  apply NoDup_firstn, ranked_NoDup.
Qed.




End TopFive.

(** ** Route analysis *)

Definition routeView (e : Route.t) : string * Z :=
  (Route.route e, Route.frequency e).

Lemma routeAnalysis_view F :
  map routeView (routeAnalysis F) = topFive routeKey F.
Proof.
  unfold routeAnalysis, topFive, JS.slice0. rewrite <- firstn_map. f_equal.
  rewrite (arraySort_map routeView Route.frequency snd) by reflexivity.
  unfold ranked. f_equal. rewrite map_map.
  rewrite <- keyCounts_tally. apply map_ext. intros [k t]. reflexivity.
Qed.

Lemma routeAnalysis_entry F e :
  In e (routeAnalysis F) ->
  exists k, In k (map routeKey F)
            /\ e = routeEntry (k, tallyOfKey routeKey F k).
Proof.
  unfold routeAnalysis, JS.slice0. intros H. apply In_firstn in H.
  apply (proj1 (arraySort_In Route.frequency _ _)) in H.
  unfold routeMap in H. rewrite tallyBy_closed_form, map_map in H.
  apply in_map_iff in H. destruct H as (k & <- & Hk).
  exists k. split; [apply In_firstSeen, Hk | reflexivity].
Qed.





Definition threeRoutes : list Flight :=
  [sampleFlight (DateOn 2026 9) "completed" "LAX" "ORD" "UA" (JS.JSString "4.1");
   sampleFlight (DateOn 2026 10) "active" "JFK" "LAX" "AA" (JS.JSString "5.25");
   sampleFlight (DateOn 2026 10) "scheduled" "JFK" "LAX" "AA" (JS.JSNumber 5.5)]%string.


(** ** Aircraft breakdown and airline analysis *)

Definition aircraftView (e : Aircraft.t) : string * Z :=
  (Aircraft.type e, Aircraft.count e).

Definition airlineView (e : Airline.t) : string * Z :=
  (Airline.airline e, Airline.flights e).

Lemma aircraftBreakdown_view F :
  map aircraftView (aircraftBreakdown F) = topFive aircraftKey F.
Proof.
  unfold aircraftBreakdown, topFive, JS.slice0. rewrite <- firstn_map. f_equal.
  rewrite (arraySort_map aircraftView Aircraft.count snd) by reflexivity.
  unfold ranked. f_equal. rewrite map_map.
  rewrite <- keyCounts_tally. apply map_ext. intros [k t]. reflexivity.
Qed.

Lemma airlineEntries_view random M : forall i,
  map airlineView (airlineEntries random i M)
  = map (fun e => (fst e, tallyCount (snd e))) M.
Proof.
  induction M as [|[k t] M IH]; intros i; simpl; [reflexivity|].
  rewrite IH. reflexivity.
Qed.

Lemma airlineAnalysis_view random F :
  map airlineView (airlineAnalysis random F) = topFive aircraftKey F.
Proof.
  unfold airlineAnalysis, topFive, JS.slice0. rewrite <- firstn_map. f_equal.
  rewrite (arraySort_map airlineView Airline.flights snd) by reflexivity.
  unfold ranked. f_equal. rewrite airlineEntries_view.
  apply keyCounts_tally.
Qed.

Lemma aircraftBreakdown_entry F e :
  In e (aircraftBreakdown F) ->
  exists k, In k (map aircraftKey F)
            /\ e = aircraftEntry (totalFlights F)
                                 (k, tallyOfKey aircraftKey F k).
Proof.
  unfold aircraftBreakdown, JS.slice0. intros H. apply In_firstn in H.
  apply (proj1 (arraySort_In Aircraft.count _ _)) in H.
  unfold aircraftMap in H. rewrite tallyBy_closed_form, map_map in H.
  apply in_map_iff in H. destruct H as (k & <- & Hk).
  exists k. split; [apply In_firstSeen, Hk | reflexivity].
Qed.




(* ================================================================== *)
(** * Monthly trend *)
(* ================================================================== *)

(** ** Month keys tell months apart *)

Lemma digitsOfZ_inj z1 z2 : JS.digitsOfZ z1 = JS.digitsOfZ z2 -> z1 = z2.
Proof.
  unfold JS.digitsOfZ. intros H.
  assert (forall z, NilZero.int_of_string (NilZero.string_of_int (Z.to_int z))
                    = Some (Z.to_int z)) as Hisi.
  { intros z. apply NilZero.isi; destruct z; simpl; try discriminate;
      intros E; injection E; apply DecimalPos.Unsigned.to_uint_nonnil. }
  apply DecimalZ.to_int_inj.
  pose proof (Hisi z1) as H1. rewrite H, Hisi in H1. congruence.
Qed.

Lemma append_inj_suffix s1 : forall s2 t1 t2,
  (s1 ++ t1)%string = (s2 ++ t2)%string ->
  String.length t1 = String.length t2 ->
  s1 = s2 /\ t1 = t2.
Proof.
  induction s1 as [|c s1 IH]; intros [|c2 s2] t1 t2 H Hl; simpl in H.
  - auto.
  - apply (f_equal String.length) in H. simpl in H.
    rewrite append_length in H. lia.
  - apply (f_equal String.length) in H. simpl in H.
    rewrite append_length in H. lia.
  - injection H as -> H. destruct (IH _ _ _ H Hl) as [-> ->]. auto.
Qed.

Definition monthText (month : Z) : string := JS.padStart2 (JS.digitsOfZ (month + 1)).

Lemma month_cases m :
  0 <= m < 12 -> In m [0; 1; 2; 3; 4; 5; 6; 7; 8; 9; 10; 11].
Proof. intros H. simpl. lia. Qed.

Lemma monthText_length m : 0 <= m < 12 -> String.length (monthText m) = 2%nat.
Proof.
  intros H. apply month_cases in H. simpl in H.
  repeat (destruct H as [<-|H]; [reflexivity|]). contradiction.
Qed.

Lemma monthText_inj m1 m2 :
  0 <= m1 < 12 -> 0 <= m2 < 12 -> monthText m1 = monthText m2 -> m1 = m2.
Proof.
  intros H1 H2. apply month_cases in H1, H2. simpl in H1, H2.
  repeat (destruct H1 as [<-|H1]; [|]); try contradiction;
    repeat (destruct H2 as [<-|H2]; [|]); try contradiction;
    intros E; try reflexivity; discriminate E.
Qed.

Lemma monthText_not_aN m : 0 <= m < 12 -> monthText m <> "aN"%string.
Proof.
  intros H. apply month_cases in H. simpl in H.
  repeat (destruct H as [<-|H]; [discriminate|]). contradiction.
Qed.

Lemma monthKey_inj y1 m1 y2 m2 :
  0 <= m1 < 12 -> 0 <= m2 < 12 ->
  monthKey y1 m1 = monthKey y2 m2 -> y1 = y2 /\ m1 = m2.
Proof.
  intros H1 H2 E. unfold monthKey in E. fold (monthText m1) (monthText m2) in E.
  rewrite <- !append_assoc in E.
  apply append_inj_suffix in E;
    [|now rewrite !monthText_length].
  destruct E as [Ey Em]. split; [|now apply monthText_inj].
  apply append_inj_suffix in Ey; [|reflexivity].
  apply digitsOfZ_inj, Ey.
Qed.

Lemma monthKey_not_NaN y m : 0 <= m < 12 -> monthKey y m <> "NaN-NaN"%string.
Proof.
  intros H E. unfold monthKey in E. fold (monthText m) in E.
  rewrite <- append_assoc in E.
  change "NaN-NaN"%string with ("NaN-N" ++ "aN")%string in E.
  apply append_inj_suffix in E; [|now rewrite monthText_length].
  destruct E as [_ E]. revert E. now apply monthText_not_aN.
Qed.

(** A date as [getFullYear()] and [getMonth()] can return it. *)
Definition dateWellFormed (d : DateValue) : Prop :=
  match d with
  | DateOn _ m => 0 <= m < 12
  | _ => True
  end.

(** The row falls in the calendar month [ym]. *)
Definition inMonth (ym : Z * Z) (f : Flight) : bool :=
  match flight_date f with
  | DateOn y m => (y =? fst ym) && (m =? snd ym)
  | _ => false
  end.

Lemma flightMonthKey_inMonth f y m :
  dateWellFormed (flight_date f) -> 0 <= m < 12 ->
  (flightMonthKey (flight_date f) = Some (monthKey y m)
   <-> inMonth (y, m) f = true).
Proof.
  unfold inMonth. destruct (flight_date f) as [| |y' m']; simpl; intros Hd Hm.
  - split; discriminate.
  - split; [|discriminate]. intros [= E]. symmetry in E.
    now apply monthKey_not_NaN in E.
  - rewrite andb_true_iff, !Z.eqb_eq. split.
    + intros [= E]. now apply monthKey_inj in E.
    + intros [-> ->]. reflexivity.
Qed.

(** ** Maps listed from an index *)

Section IndexedMap.
Context {X V : Type} (keyOf : X -> string).

Lemma mapGet_indexed (g : X -> V) L x :
  NoDup (map keyOf L) -> In x L ->
  JS.mapGet (map (fun x => (keyOf x, g x)) L) (keyOf x) = Some (g x).
Proof.
  induction L as [|a L IH]; simpl; [tauto|]. intros Hnd Hin.
  inversion Hnd as [|? ? Ha Hnd']; subst.
  destruct (String.eqb_spec (keyOf a) (keyOf x)) as [e|n].
  - destruct Hin as [->|Hin]; [reflexivity|].
    elim Ha. rewrite e. now apply in_map.
  - destruct Hin as [->|Hin]; [congruence | auto].
Qed.

Lemma mapGet_indexed_none (g : X -> V) L k :
  ~ In k (map keyOf L) ->
  JS.mapGet (map (fun x => (keyOf x, g x)) L) k = None.
Proof.
  induction L as [|a L IH]; simpl; [reflexivity|]. intros H.
  destruct (String.eqb_spec (keyOf a) k); [tauto | apply IH; tauto].
Qed.

Lemma mapSet_indexed (g g' : X -> V) L x :
  NoDup (map keyOf L) -> In x L ->
  g' x = g' x ->
  (forall y, In y L -> keyOf y <> keyOf x -> g' y = g y) ->
  JS.mapSet (map (fun x => (keyOf x, g x)) L) (keyOf x) (g' x)
  = map (fun x => (keyOf x, g' x)) L.
Proof.
  intros Hnd Hin _. revert Hnd Hin.
  induction L as [|a L IH]; simpl; [tauto|]. intros Hnd Hin Hg.
  inversion Hnd as [|? ? Ha Hnd']; subst.
  destruct (String.eqb_spec (keyOf a) (keyOf x)) as [e|n].
  - assert (forall y, In y L -> keyOf y <> keyOf x) as Hne.
    { intros y Hy E. apply Ha. rewrite e, <- E. now apply in_map. }
    f_equal.
    + f_equal. destruct Hin as [->|Hin]; [reflexivity|].
      elim (Hne x Hin). reflexivity.
    + apply map_ext_in. intros y Hy. f_equal. symmetry. auto.
  - f_equal; [f_equal; symmetry; auto|].
    apply IH; auto. destruct Hin as [->|Hin]; [congruence | assumption].
Qed.

Lemma mapSet_indexed_new (m : list (string * V)) k v :
  ~ In k (map fst m) -> JS.mapSet m k v = m ++ [(k, v)].
Proof.
  induction m as [|[a w] m IH]; simpl; [reflexivity|]. intros H.
  destruct (String.eqb_spec a k); [tauto|]. rewrite IH by tauto. reflexivity.
Qed.
End IndexedMap.

Lemma NoDup_map_local {A B : Type} (f : A -> B) l :
  (forall x y, In x l -> In y l -> f x = f y -> x = y) ->
  NoDup l -> NoDup (map f l).
Proof.
  intros Hinj Hnd. induction Hnd as [|a l Ha Hnd IH]; simpl; constructor.
  - intros H. apply in_map_iff in H. destruct H as (y & E & Hy).
    apply Ha. rewrite <- (Hinj y a); simpl; auto.
  - apply IH. intros; apply Hinj; simpl; auto.
Qed.

(** ** The six buckets *)

Definition monthOffsets : list Z := [5; 4; 3; 2; 1; 0].

(** The calendar month [i] months before [now]. *)
Definition monthsBack (now : Z * Z) (i : Z) : Z * Z :=
  let t := 12 * fst now + snd now - i in (t / 12, t mod 12).

Definition clockWellFormed (now : Z * Z) : Prop :=
  100 <= fst now /\ 0 <= snd now < 12.

Lemma dateOfMonth_monthsBack now i :
  clockWellFormed now ->
  JS.dateOfMonth (fst now) (snd now - i) = monthsBack now i.
Proof.
  intros [Hy Hm]. unfold JS.dateOfMonth, monthsBack.
  replace ((0 <=? fst now) && (fst now <=? 99)) with false
    by (symmetry; apply andb_false_iff; right; apply Z.leb_gt; lia).
  replace (12 * fst now + snd now - i) with (fst now * 12 + (snd now - i))
    by lia.
  rewrite Z.div_add_l by lia.
  rewrite (Z.add_comm (fst now * 12)), Z.mod_add by lia. reflexivity.
Qed.

Lemma monthsBack_month now i : 0 <= snd (monthsBack now i) < 12.
Proof. unfold monthsBack. simpl. apply Z.mod_pos_bound. lia. Qed.

Lemma monthsBack_inj now i j :
  In i monthOffsets -> In j monthOffsets ->
  monthsBack now i = monthsBack now j -> i = j.
Proof.
  unfold monthsBack, monthOffsets. intros Hi Hj E. simpl in Hi, Hj.
  cbv zeta in E.
  pose proof (f_equal fst E) as Hd. pose proof (f_equal snd E) as Hm.
  cbn [fst snd] in Hd, Hm.
  pose proof (Z.div_mod (12 * fst now + snd now - i) 12 ltac:(lia)) as Ei.
  pose proof (Z.div_mod (12 * fst now + snd now - j) 12 ltac:(lia)) as Ej.
  lia.
Qed.

Definition keyAt (now : Z * Z) (i : Z) : string :=
  monthKey (fst (monthsBack now i)) (snd (monthsBack now i)).

Lemma keyAt_inj now i j :
  In i monthOffsets -> In j monthOffsets -> keyAt now i = keyAt now j -> i = j.
Proof.
  intros Hi Hj E. unfold keyAt in E.
  apply monthKey_inj in E; try apply monthsBack_month.
  apply (monthsBack_inj now); auto.
  destruct (monthsBack now i), (monthsBack now j), E; simpl in *; congruence.
Qed.

Lemma keyAt_NoDup now : NoDup (map (keyAt now) monthOffsets).
Proof.
  apply NoDup_map_local.
  - intros; eapply keyAt_inj; eauto.
  - unfold monthOffsets. repeat constructor; simpl; lia.
Qed.

(** The bucket of offset [i] after the rows [F], before rounding. *)
Definition rawBucket (now : Z * Z) (F : list Flight) (i : Z) : Month.t :=
  let ym := monthsBack now i in
  {| Month.month := nth (Z.to_nat (snd ym)) monthNames "undefined"%string;
     Month.flights := Z.of_nat (List.length (filter (inMonth ym) F));
     Month.hours :=
       fold_left PrimFloat.add
         (map (fun f => safeParseFloat (duration_hours f))
              (filter (inMonth ym) F)) 0%float |}.

Lemma initMonth_eq now m i :
  clockWellFormed now ->
  initMonth now m i = JS.mapSet m (keyAt now i) (rawBucket now [] i).
Proof.
  intros H. unfold initMonth, keyAt, rawBucket.
  rewrite dateOfMonth_monthsBack by exact H.
  destruct (monthsBack now i); reflexivity.
Qed.

Lemma initialMonthlyData_eq now :
  clockWellFormed now ->
  initialMonthlyData now
  = map (fun i => (keyAt now i, rawBucket now [] i)) monthOffsets.
Proof.
  intros H. unfold initialMonthlyData.
  assert (forall L m,
             NoDup (map fst m ++ map (keyAt now) L) ->
             fold_left (initMonth now) L m
             = m ++ map (fun i => (keyAt now i, rawBucket now [] i)) L) as Hf.
  { induction L as [|i L IH]; intros m Hnd; simpl.
    - now rewrite app_nil_r.
    - rewrite initMonth_eq by exact H.
      simpl in Hnd. pose proof (NoDup_remove_2 _ _ _ Hnd) as Hi.
      rewrite mapSet_indexed_new
        by (intros Hin; apply Hi, in_or_app; auto).
      rewrite IH.
      + rewrite <- app_assoc. reflexivity.
      + rewrite map_app, <- app_assoc. simpl.
        eapply Permutation_NoDup; [|exact Hnd].
        symmetry. apply Permutation_refl. }
  apply (Hf monthOffsets []). apply keyAt_NoDup.
Qed.

Lemma rawBucket_snoc_out now F f i :
  inMonth (monthsBack now i) f = false ->
  rawBucket now (F ++ [f]) i = rawBucket now F i.
Proof.
  intros H. unfold rawBucket. cbv zeta. rewrite filter_app. simpl.
  rewrite H, app_nil_r. reflexivity.
Qed.

Lemma rawBucket_snoc_in now F f i :
  inMonth (monthsBack now i) f = true ->
  rawBucket now (F ++ [f]) i
  = {| Month.month := Month.month (rawBucket now F i);
       Month.flights := Month.flights (rawBucket now F i) + 1;
       Month.hours := Month.hours (rawBucket now F i)
                      +! safeParseFloat (duration_hours f) |}.
Proof.
  intros H. unfold rawBucket. cbv zeta. rewrite filter_app. simpl.
  rewrite H. cbn [Month.month Month.flights Month.hours]. f_equal.
  - rewrite length_app. simpl. lia.
  - rewrite map_app, fold_left_app. reflexivity.
Qed.

Lemma inMonth_keyAt now f i :
  dateWellFormed (flight_date f) ->
  (flightMonthKey (flight_date f) = Some (keyAt now i)
   <-> inMonth (monthsBack now i) f = true).
Proof.
  intros Hd. unfold keyAt.
  rewrite (flightMonthKey_inMonth f _ _ Hd (monthsBack_month now i)).
  destruct (monthsBack now i); reflexivity.
Qed.

Lemma addFlight_step now F f :
  dateWellFormed (flight_date f) ->
  addFlight (map (fun i => (keyAt now i, rawBucket now F i)) monthOffsets) f
  = map (fun i => (keyAt now i, rawBucket now (F ++ [f]) i)) monthOffsets.
Proof.
  intros Hd. unfold addFlight.
  destruct (existsb (fun i => inMonth (monthsBack now i) f) monthOffsets)
    eqn:Ex.
  - apply existsb_exists in Ex. destruct Ex as (i & Hi & Hin).
    rewrite (proj2 (inMonth_keyAt now f i Hd) Hin).
    rewrite (mapGet_indexed (keyAt now) _ _ i (keyAt_NoDup now) Hi).
    rewrite <- (rawBucket_snoc_in now F f i Hin).
    apply (mapSet_indexed (keyAt now) (rawBucket now F)
             (rawBucket now (F ++ [f])) monthOffsets i
             (keyAt_NoDup now) Hi eq_refl).
    intros j Hj Hne. apply rawBucket_snoc_out.
    destruct (inMonth (monthsBack now j) f) eqn:Ej; [|reflexivity].
    elim Hne.
    apply (inMonth_keyAt now f j Hd) in Ej.
    apply (inMonth_keyAt now f i Hd) in Hin. congruence.
  - assert (forall i, In i monthOffsets ->
                      inMonth (monthsBack now i) f = false) as Hout.
    { intros i Hi. destruct (inMonth (monthsBack now i) f) eqn:E; [|reflexivity].
      rewrite <- Ex. symmetry. apply existsb_exists. eauto. }
    replace (map (fun i => (keyAt now i, rawBucket now (F ++ [f]) i))
                 monthOffsets)
      with (map (fun i => (keyAt now i, rawBucket now F i)) monthOffsets)
      by (apply map_ext_in; intros i Hi;
          rewrite rawBucket_snoc_out; auto).
    destruct (flightMonthKey (flight_date f)) as [key|] eqn:Ek; [|reflexivity].
    rewrite mapGet_indexed_none; [reflexivity|].
    intros Hin. apply in_map_iff in Hin. destruct Hin as (i & <- & Hi).
    apply (inMonth_keyAt now f i Hd) in Ek. rewrite Hout in Ek by exact Hi.
    discriminate.
Qed.

Definition datesWellFormed (F : list Flight) : Prop :=
  Forall (fun f => dateWellFormed (flight_date f)) F.

(** The bucket of offset [i], as returned. *)
Definition bucketOf (now : Z * Z) (F : list Flight) (i : Z) : Month.t :=
  roundHours (rawBucket now F i).

(** What [generateMonthlyTrend] returns: the six buckets of the months
    from five months ago to the current one, each with the name of its
    month, the number of rows dated in it and the sum of their durations
    rounded to one decimal. *)
Theorem generateMonthlyTrend_closed_form now F :
  clockWellFormed now -> datesWellFormed F ->
  generateMonthlyTrend now F = map (bucketOf now F) monthOffsets.
Proof.
  intros Hnow HF. unfold generateMonthlyTrend.
  assert (fold_left addFlight F (initialMonthlyData now)
          = map (fun i => (keyAt now i, rawBucket now F i)) monthOffsets) as ->.
  { rewrite initialMonthlyData_eq by exact Hnow.
    induction F as [|f F IH] using rev_ind; [reflexivity|].
    apply Forall_app in HF. destruct HF as [HF Hf].
    rewrite fold_left_app. cbn [fold_left]. rewrite IH by exact HF.
    apply addFlight_step. now inversion Hf. }
  rewrite map_map. reflexivity.
Qed.

(** Whether the row is dated in one of the six months. *)
Definition inWindow (now : Z * Z) (f : Flight) : bool :=
  existsb (fun i => inMonth (monthsBack now i) f) monthOffsets.

Lemma filter_filter_sub {A : Type} (p q : A -> bool) l :
  (forall x, p x = true -> q x = true) ->
  filter p (filter q l) = filter p l.
Proof.
  intros H. induction l as [|x l IH]; simpl; [reflexivity|].
  destruct (q x) eqn:Eq; simpl.
  - destruct (p x); congruence.
  - destruct (p x) eqn:Ep; [|exact IH]. apply H in Ep. congruence.
Qed.

(** Rows dated outside the six months, or not dated, leave the trend as
    it is without them. *)
Lemma generateMonthlyTrend_window now F :
  clockWellFormed now -> datesWellFormed F ->
  generateMonthlyTrend now F = generateMonthlyTrend now (filter (inWindow now) F).
Proof.
  intros Hnow HF.
  rewrite !generateMonthlyTrend_closed_form; auto.
  - apply map_ext_in. intros i Hi. unfold bucketOf, rawBucket. cbv zeta.
    rewrite filter_filter_sub; [reflexivity|].
    intros f Hf. apply existsb_exists. eauto.
  - unfold datesWellFormed in *. rewrite Forall_forall in *.
    intros f Hf. apply filter_In in Hf. apply HF. tauto.
Qed.

(** For a non-empty input the summary's trend is the six buckets, oldest
    first; rows outside the six months do not enter it, and are counted
    in [totalFlights] all the same. *)
Theorem monthlyTrend_nonempty (now : Z * Z) (random : nat -> float)
    (F : list Flight) :
  clockWellFormed now -> datesWellFormed F -> F <> [] ->
  let s := aggregate now random F in
  Summary.monthlyTrend s = map (bucketOf now F) monthOffsets
  /\ List.length (Summary.monthlyTrend s) = 6%nat
  /\ Summary.monthlyTrend s
     = map (bucketOf now (filter (inWindow now) F)) monthOffsets
  /\ Summary.totalFlights s = Z.of_nat (List.length F).
Proof.
  intros Hnow HF Hne. destruct F as [|f0 F0] eqn:EF; [congruence|].
  rewrite <- EF in *.
  assert (aggregate now random F
          = processFlightAnalytics now random (Some (f0 :: F0))) as ->
      by (rewrite EF; reflexivity).
  cbn [processFlightAnalytics Summary.monthlyTrend Summary.totalFlights].
  rewrite <- EF. clear EF f0 F0. cbv zeta.
  assert (datesWellFormed (filter (inWindow now) F)) as HF'.
  { unfold datesWellFormed in *. rewrite Forall_forall in *.
    intros f Hf. apply filter_In in Hf. apply HF. tauto. }
  rewrite generateMonthlyTrend_closed_form by assumption.
  split; [reflexivity|]. split; [reflexivity|]. split; [|reflexivity].
  rewrite <- (generateMonthlyTrend_closed_form now F) by assumption.
  rewrite <- (generateMonthlyTrend_closed_form now (filter (inWindow now) F))
    by assumption.
  apply generateMonthlyTrend_window; assumption.
Qed.

(** C4: in November 2026 the trend of the empty input has six entries,
    named January to June, where the six months that end at the current
    one are June to November; the trend [generateMonthlyTrend] builds for
    the same clock, and the one a single undated row gets, are those. *)
Theorem C4_empty_input_trend_is_not_recent :
  let now := (2026, 10) in
  let undated := sampleFlight DateMissing "completed" "JFK" "LAX" "AA"
                              (JS.JSString "1.5") in
  map Month.month (Summary.monthlyTrend (aggregate now noRandom []))
  = ["Jan"; "Feb"; "Mar"; "Apr"; "May"; "Jun"]%string
  /\ map (fun i => nth (Z.to_nat (snd (monthsBack now i))) monthNames
                       ""%string) monthOffsets
     = ["Jun"; "Jul"; "Aug"; "Sep"; "Oct"; "Nov"]%string
  /\ map Month.month (Summary.monthlyTrend (aggregate now noRandom [undated]))
     = ["Jun"; "Jul"; "Aug"; "Sep"; "Oct"; "Nov"]%string
  /\ Summary.monthlyTrend (aggregate now noRandom [])
     <> map (bucketOf now []) monthOffsets.
Proof.
  cbv zeta. repeat split. vm_compute. discriminate.
Qed.

(* ================================================================== *)
(** * Determinism and the reliability score *)
(* ================================================================== *)

Definition eraseScore (e : Airline.t) : Airline.t :=
  {| Airline.airline := Airline.airline e;
     Airline.flights := Airline.flights e;
     Airline.reliability := 0%float |}.

(** The summary with every [reliability] blanked. *)
Definition eraseReliability (s : Summary.t) : Summary.t :=
  {| Summary.totalFlights := Summary.totalFlights s;
     Summary.totalHours := Summary.totalHours s;
     Summary.averageFlightTime := Summary.averageFlightTime s;
     Summary.mostFrequentRoute := Summary.mostFrequentRoute s;
     Summary.mostUsedAircraft := Summary.mostUsedAircraft s;
     Summary.onTimePercentage := Summary.onTimePercentage s;
     Summary.monthlyTrend := Summary.monthlyTrend s;
     Summary.aircraftBreakdown := Summary.aircraftBreakdown s;
     Summary.routeAnalysis := Summary.routeAnalysis s;
     Summary.statusDistribution := Summary.statusDistribution s;
     Summary.timeDistribution := Summary.timeDistribution s;
     Summary.airlineAnalysis := map eraseScore (Summary.airlineAnalysis s) |}.

Lemma eraseScore_view l :
  map eraseScore l
  = map (fun v => {| Airline.airline := fst v; Airline.flights := snd v;
                     Airline.reliability := 0%float |}) (map airlineView l).
Proof. rewrite map_map. reflexivity. Qed.

Lemma airlineEntries_score random M : forall i e,
  In e (airlineEntries random i M) ->
  exists j, Airline.reliability e = 85%float +! random j *! 15%float.
Proof.
  induction M as [|[k t] M IH]; intros i e; simpl; [tauto|].
  intros [<-|H]; [exists i; reflexivity | eapply IH, H].
Qed.

Lemma airlineAnalysis_score random F e :
  In e (airlineAnalysis random F) ->
  exists j, Airline.reliability e = 85%float +! random j *! 15%float.
Proof.
  unfold airlineAnalysis, JS.slice0. intros H. apply In_firstn in H.
  apply (proj1 (arraySort_In Airline.flights _ _)) in H.
  eapply airlineEntries_score, H.
Qed.

(** The largest draw below 1 that is a multiple of 2^-52. *)
Definition nearlyOne : float := 0x1.ffffffffffffep-1%float.

Lemma C8_reliability_counterexample :
  let s := aggregate (2026, 10) (fun _ => nearlyOne)
                     [flightOfDuration (JS.JSString "1.5")] in
  RoundFacts.unitInterval nearlyOne
  /\ map Airline.reliability (Summary.airlineAnalysis s) = [100%float]
  /\ ~ Forall (fun e => (Airline.reliability e <? 100)%float = true)
              (Summary.airlineAnalysis s).
Proof.
  cbv zeta. split; [split; reflexivity|]. split; [reflexivity|].
  intros H. inversion H as [|e l He _]; subst. revert He.
  vm_compute. discriminate.
Qed.

(** C8 (amended): two runs on the same input with the same clock give
    the same summary in every field other than the [reliability] of the
    airline entries, whatever [Math.random] returns in each; and when
    [Math.random] returns Numbers from 0 (included) to 1 (excluded), every
    [reliability] is at least 85 and at most 100, the bound 100 being
    reached. *)
Theorem C8_determinism_and_reliability (now : Z * Z)
    (random1 random2 : nat -> float) (F : list Flight) :
  eraseReliability (aggregate now random1 F)
  = eraseReliability (aggregate now random2 F)
  /\ ((forall i, RoundFacts.unitInterval (random1 i)) ->
      Forall (fun e => (85 <=? Airline.reliability e)%float = true
                       /\ (Airline.reliability e <=? 100)%float = true)
             (Summary.airlineAnalysis (aggregate now random1 F))).
Proof.
  split.
  - destruct F as [|f F]; [reflexivity|].
    unfold aggregate, processFlightAnalytics, eraseReliability.
    cbn [Summary.totalFlights Summary.totalHours Summary.averageFlightTime
         Summary.mostFrequentRoute Summary.mostUsedAircraft
         Summary.onTimePercentage Summary.monthlyTrend
         Summary.aircraftBreakdown Summary.routeAnalysis
         Summary.statusDistribution Summary.timeDistribution
         Summary.airlineAnalysis].
    f_equal. rewrite !eraseScore_view, !airlineAnalysis_view. reflexivity.
  - intros Hr. destruct F as [|f F]; [constructor|].
    unfold aggregate, processFlightAnalytics. cbn [Summary.airlineAnalysis].
    rewrite Forall_forall. intros e He.
    destruct (airlineAnalysis_score _ _ _ He) as (j & ->).
    apply RoundFacts.scaled_draw_bounds, Hr.
Qed.

Lemma C8_determinism_and_reliability_witness :
  Forall (fun e => (85 <=? Airline.reliability e)%float = true
                   /\ (Airline.reliability e <=? 100)%float = true)
         (Summary.airlineAnalysis
            (aggregate (2026, 10) (fun _ => nearlyOne) threeRoutes)).
Proof.
  apply (proj2 (C8_determinism_and_reliability
                  (2026, 10) (fun _ => nearlyOne) noRandom threeRoutes)).
  intros i. split; reflexivity.
Defined.

(* ================================================================== *)
(** * What the listed counts add up to *)
(* ================================================================== *)

Definition sumZ (l : list Z) : Z := fold_right Z.add 0 l.

(** Whether the key [k] is one of [ks]. *)
Definition listed (ks : list string) (k : string) : bool :=
  existsb (String.eqb k) ks.

Lemma sumZ_app l l' : sumZ (l ++ l') = sumZ l + sumZ l'.
Proof. induction l as [|x l IH]; simpl; lia. Qed.

Lemma sumZ_perm l l' : Permutation l l' -> sumZ l = sumZ l'.
Proof. induction 1; simpl; lia. Qed.

Lemma sumZ_nonneg l : Forall (fun z => 0 <= z) l -> 0 <= sumZ l.
Proof. induction 1; simpl; lia. Qed.

Lemma listed_In ks k : listed ks k = true <-> In k ks.
Proof.
  unfold listed. rewrite existsb_exists. split.
  - intros (x & Hx & E). apply String.eqb_eq in E. now subst.
  - intros H. exists k. split; [exact H | apply String.eqb_refl].
Qed.

Lemma listed_cons_count k ks l :
  ~ In k ks ->
  List.length (filter (listed (k :: ks)) l)
  = (count_occ string_dec l k + List.length (filter (listed ks) l))%nat.
Proof.
  intros Hk. induction l as [|x l IH]; [reflexivity|].
  cbn [filter count_occ]. unfold listed at 1. cbn [existsb].
  fold (listed ks x).
  destruct (string_dec x k) as [->|Hne].
  - rewrite String.eqb_refl. cbn [orb List.length].
    replace (listed ks k) with false
      by (symmetry; apply not_true_is_false; rewrite listed_In; exact Hk).
    rewrite IH. reflexivity.
  - replace (String.eqb x k) with false
      by (symmetry; apply String.eqb_neq; exact Hne).
    cbn [orb]. destruct (listed ks x); cbn [List.length]; rewrite IH; lia.
Qed.

(** The numbers of occurrences of distinct keys add up to the number of
    elements that are one of them. *)
Lemma count_listed ks l :
  NoDup ks ->
  sumZ (map (fun k => Z.of_nat (count_occ string_dec l k)) ks)
  = Z.of_nat (List.length (filter (listed ks) l)).
Proof.
  induction 1 as [|k ks Hk Hnd IH]; cbn [map sumZ fold_right].
  - induction l as [|x l IHl]; [reflexivity | exact IHl].
  - fold (sumZ (map (fun k => Z.of_nat (count_occ string_dec l k)) ks)).
    rewrite IH, listed_cons_count by exact Hk. lia.
Qed.

Lemma filter_map_length {A B : Type} (f : A -> B) (p : B -> bool) l :
  List.length (filter p (map f l))
  = List.length (filter (fun x => p (f x)) l).
Proof.
  induction l as [|x l IH]; simpl; [reflexivity|].
  destruct (p (f x)); simpl; congruence.
Qed.

Section ListedTotals.
Variable key : Flight -> string.

Lemma ranked_counts F :
  map snd (ranked key F)
  = map (fun k => countKey key k F) (map fst (ranked key F)).
Proof.
  rewrite map_map. apply map_ext_in. intros e He.
  apply ranked_In in He. tauto.
Qed.

Lemma topFive_counts F :
  map snd (topFive key F)
  = map (fun k => countKey key k F) (map fst (topFive key F)).
Proof.
  unfold topFive, JS.slice0. rewrite <- !firstn_map, ranked_counts.
  rewrite firstn_map. reflexivity.
Qed.

(** The counts of the keys that are kept add up to the number of rows
    that have one of these keys. *)
Lemma topFive_total F :
  sumZ (map snd (topFive key F))
  = Z.of_nat (List.length
                (filter (fun f => listed (map fst (topFive key F)) (key f)) F)).
Proof.
  rewrite topFive_counts. unfold countKey.
  rewrite count_listed by apply topFive_NoDup.
  rewrite filter_map_length. reflexivity.
Qed.

Lemma filter_all {A : Type} (p : A -> bool) l :
  (forall x, In x l -> p x = true) -> filter p l = l.
Proof.
  induction l as [|x l IH]; intros H; simpl; [reflexivity|].
  rewrite (H x) by (left; reflexivity). f_equal. apply IH.
  intros y Hy. apply H. right. exact Hy.
Qed.

(** With at most five distinct keys every row is behind one of the
    entries. *)
Lemma topFive_everything F :
  (List.length (nodup string_dec (map key F)) <= 5)%nat ->
  sumZ (map snd (topFive key F)) = Z.of_nat (List.length F).
Proof.
  intros H. rewrite topFive_total. f_equal. f_equal.
  apply filter_all. intros f Hf. apply listed_In.
  unfold topFive, JS.slice0.
  rewrite firstn_all2 by (rewrite ranked_length; exact H).
  apply in_map_iff. exists (key f, countKey key (key f) F).
  split; [reflexivity|]. apply ranked_In. simpl.
  split; [apply in_map, Hf | reflexivity].
Qed.
End ListedTotals.

Lemma routeAnalysis_frequencies F :
  map Route.frequency (routeAnalysis F) = map snd (topFive routeKey F).
Proof. rewrite <- routeAnalysis_view, map_map. reflexivity. Qed.

Lemma routeAnalysis_routes F :
  map Route.route (routeAnalysis F) = map fst (topFive routeKey F).
Proof. rewrite <- routeAnalysis_view, map_map. reflexivity. Qed.

Lemma aircraftBreakdown_counts F :
  map Aircraft.count (aircraftBreakdown F) = map snd (topFive aircraftKey F).
Proof. rewrite <- aircraftBreakdown_view, map_map. reflexivity. Qed.

Lemma aircraftBreakdown_types F :
  map Aircraft.type (aircraftBreakdown F) = map fst (topFive aircraftKey F).
Proof. rewrite <- aircraftBreakdown_view, map_map. reflexivity. Qed.

Lemma airlineAnalysis_flights random F :
  map Airline.flights (airlineAnalysis random F)
  = map snd (topFive aircraftKey F).
Proof. rewrite <- (airlineAnalysis_view random), map_map. reflexivity. Qed.

Lemma aggregate_nonempty now random f F :
  aggregate now random (f :: F)
  = {| Summary.totalFlights := totalFlights (f :: F);
       Summary.totalHours := roundTo 2 (totalHours (f :: F));
       Summary.averageFlightTime := roundTo 2 (averageFlightTime (f :: F));
       Summary.mostFrequentRoute := mostFrequentRoute (f :: F);
       Summary.mostUsedAircraft := mostUsedAircraft (f :: F);
       Summary.onTimePercentage := roundTo 1 (onTimePercentage (f :: F));
       Summary.monthlyTrend := generateMonthlyTrend now (f :: F);
       Summary.aircraftBreakdown := aircraftBreakdown (f :: F);
       Summary.routeAnalysis := routeAnalysis (f :: F);
       Summary.statusDistribution := statusDistribution (f :: F);
       Summary.timeDistribution := timeDistribution (f :: F);
       Summary.airlineAnalysis := airlineAnalysis random (f :: F) |}.
Proof. reflexivity. Qed.

(** X1: the frequencies listed in [routeAnalysis] add up to the number of
    rows whose route is listed, and the counts in [aircraftBreakdown]
    (which are the [flights] of [airlineAnalysis]) to the number of rows
    whose carrier is listed; with at most five distinct routes, or
    carriers, that is [totalFlights]. *)
Theorem X1_listed_counts_add_up (now : Z * Z) (random : nat -> float)
    (F : list Flight) :
  let s := aggregate now random F in
  let routes := map Route.route (Summary.routeAnalysis s) in
  let carriers := map Aircraft.type (Summary.aircraftBreakdown s) in
  sumZ (map Route.frequency (Summary.routeAnalysis s))
  = Z.of_nat (List.length (filter (fun f => listed routes (routeKey f)) F))
  /\ sumZ (map Aircraft.count (Summary.aircraftBreakdown s))
     = Z.of_nat
         (List.length (filter (fun f => listed carriers (aircraftKey f)) F))
  /\ map Airline.flights (Summary.airlineAnalysis s)
     = map Aircraft.count (Summary.aircraftBreakdown s)
  /\ ((List.length (nodup string_dec (map routeKey F)) <= 5)%nat ->
      sumZ (map Route.frequency (Summary.routeAnalysis s))
      = Summary.totalFlights s)
  /\ ((List.length (nodup string_dec (map aircraftKey F)) <= 5)%nat ->
      sumZ (map Aircraft.count (Summary.aircraftBreakdown s))
      = Summary.totalFlights s).
Proof.
  destruct F as [|f0 F0] eqn:EF; [repeat split|].
  rewrite aggregate_nonempty. rewrite <- EF. clear EF f0 F0.
  cbn [Summary.routeAnalysis Summary.aircraftBreakdown Summary.airlineAnalysis
       Summary.totalFlights]. cbv zeta.
  rewrite routeAnalysis_frequencies, routeAnalysis_routes,
    aircraftBreakdown_counts, aircraftBreakdown_types, airlineAnalysis_flights.
  split; [apply topFive_total|]. split; [apply topFive_total|].
  split; [reflexivity|].
  split; intros H; apply topFive_everything, H.
Qed.

(** ** The counts of the trend *)

Lemma exclusive_cons {A I : Type} (p : I -> A -> bool) (i : I) (L : list I)
    (l : list A) :
  (forall x j, In x l -> In j L -> p i x = true -> p j x = false) ->
  List.length (filter (fun x => p i x || existsb (fun j => p j x) L) l)
  = (List.length (filter (p i) l)
     + List.length (filter (fun x => existsb (fun j => p j x) L) l))%nat.
Proof.
  induction l as [|x l IH]; intros H; [reflexivity|].
  cbn [filter].
  assert (forall y j, In y l -> In j L -> p i y = true -> p j y = false) as H'
      by (intros y j Hy; apply H; right; exact Hy).
  specialize (IH H').
  destruct (p i x) eqn:Ei; cbn [orb].
  - destruct (existsb (fun j => p j x) L) eqn:Ee.
    + apply existsb_exists in Ee. destruct Ee as (j & Hj & Hp).
      rewrite (H x j) in Hp; [discriminate | left; reflexivity | exact Hj
                                          | exact Ei].
    + cbn [List.length]. rewrite IH. reflexivity.
  - destruct (existsb (fun j => p j x) L); cbn [List.length]; rewrite IH; lia.
Qed.

(** Counts under conditions of which a row meets at most one add up to
    the number of rows that meet one. *)
Lemma exclusive_counts {A I : Type} (p : I -> A -> bool) (L : list I)
    (l : list A) :
  (forall x i j, In x l -> In i L -> In j L ->
                 p i x = true -> p j x = true -> i = j) ->
  NoDup L ->
  sumZ (map (fun i => Z.of_nat (List.length (filter (p i) l))) L)
  = Z.of_nat (List.length (filter (fun x => existsb (fun i => p i x) L) l)).
Proof.
  intros Hex Hnd. induction Hnd as [|i L Hi Hnd IH]; cbn [map sumZ fold_right].
  - induction l as [|x l IHl]; [reflexivity|]. apply IHl.
    intros y i j Hy. apply Hex. right. exact Hy.
  - fold (sumZ (map (fun i => Z.of_nat (List.length (filter (p i) l))) L)).
    rewrite IH.
    + cbn [existsb]. rewrite exclusive_cons; [lia|].
      intros x j Hx Hj Hpi. destruct (p j x) eqn:Hpj; [|reflexivity].
      elim Hi. rewrite (Hex x i j Hx); auto; [left; reflexivity | right; exact Hj].
    + intros x a b Hx Ha Hb. apply Hex; auto; right; assumption.
Qed.

Lemma inMonth_exclusive now f i j :
  In i monthOffsets -> In j monthOffsets ->
  inMonth (monthsBack now i) f = true -> inMonth (monthsBack now j) f = true ->
  i = j.
Proof.
  intros Hi Hj. unfold inMonth. destruct (flight_date f) as [| |y m];
    try discriminate.
  rewrite !andb_true_iff, !Z.eqb_eq. intros [E1 E2] [E3 E4].
  apply (monthsBack_inj now); auto.
  destruct (monthsBack now i), (monthsBack now j); simpl in *; congruence.
Qed.

Lemma monthOffsets_NoDup : NoDup monthOffsets.
Proof. unfold monthOffsets. repeat constructor; simpl; lia. Qed.

Lemma generateMonthlyTrend_flights now F :
  clockWellFormed now -> datesWellFormed F ->
  map Month.flights (generateMonthlyTrend now F)
  = map (fun i => Z.of_nat
                    (List.length (filter (inMonth (monthsBack now i)) F)))
        monthOffsets.
Proof.
  intros Hnow HF. rewrite generateMonthlyTrend_closed_form by assumption.
  rewrite map_map. reflexivity.
Qed.

(** X2: the [flights] of the six entries of [monthlyTrend] add up to the
    number of rows dated in the six months that end at the current one:
    each such row is counted once, a row without a date, with an invalid
    date or dated outside these months in no entry; the total is at most
    [totalFlights]. *)
Theorem X2_trend_counts_add_up (now : Z * Z) (random : nat -> float)
    (F : list Flight) :
  clockWellFormed now -> datesWellFormed F ->
  let s := aggregate now random F in
  sumZ (map Month.flights (Summary.monthlyTrend s))
  = Z.of_nat (List.length (filter (inWindow now) F))
  /\ sumZ (map Month.flights (Summary.monthlyTrend s)) <= Summary.totalFlights s.
Proof.
  intros Hnow HF. destruct F as [|f0 F0] eqn:EF; [split; [reflexivity|simpl; lia]|].
  rewrite aggregate_nonempty. rewrite <- EF in *. clear EF f0 F0.
  cbn [Summary.monthlyTrend Summary.totalFlights]. cbv zeta.
  rewrite generateMonthlyTrend_flights by assumption.
  rewrite (exclusive_counts (fun i => inMonth (monthsBack now i)) monthOffsets F).
  - split; [reflexivity|]. unfold totalFlights.
    apply inj_le, filter_length_le.
  - intros f i j _. apply inMonth_exclusive.
  - apply monthOffsets_NoDup.
Qed.

Lemma X2_trend_counts_add_up_witness :
  let F := [sampleFlight (DateOn 2026 10) "completed" "JFK" "LAX" "AA"
                         (JS.JSString "2.50");
            sampleFlight (DateOn 2026 5) "active" "LAX" "JFK" "DL"
                         (JS.JSNumber 1);
            sampleFlight (DateOn 2026 4) "active" "LAX" "JFK" "DL"
                         (JS.JSNumber 1);
            sampleFlight DateMissing "active" "LAX" "JFK" "DL"
                         (JS.JSNumber 1)]%string in
  let s := aggregate (2026, 10) noRandom F in
  sumZ (map Month.flights (Summary.monthlyTrend s)) = 2
  /\ sumZ (map Month.flights (Summary.monthlyTrend s)) <= Summary.totalFlights s.
Proof.
  cbv zeta.
  refine (X2_trend_counts_add_up (2026, 10) noRandom _ _ _).
  - unfold clockWellFormed. simpl. lia.
  - repeat constructor; simpl; lia.
Defined.

(** ** Row order *)

Lemma Permutation_filter {A : Type} (p : A -> bool) l l' :
  Permutation l l' -> Permutation (filter p l) (filter p l').
Proof.
  induction 1 as [|x l l' H IH|x y l|l l' l'' H1 IH1 H2 IH2]; simpl.
  - constructor.
  - destruct (p x); [constructor|]; exact IH.
  - destruct (p x), (p y); try reflexivity. apply perm_swap.
  - etransitivity; eassumption.
Qed.

(** A list of integers has one descending arrangement. *)
Lemma descending_unique (l l' : list Z) :
  StronglySorted (fun a b => b <= a) l ->
  StronglySorted (fun a b => b <= a) l' ->
  Permutation l l' -> l = l'.
Proof.
  intros Hs. revert l'. induction Hs as [|x t Hs IH Hx]; intros l' Hs' Hp.
  - apply Permutation_nil in Hp. congruence.
  - destruct Hs' as [|y t' Hs' Hy].
    + symmetry in Hp. apply Permutation_nil in Hp. discriminate.
    + assert (x = y) as ->.
      { assert (In y (x :: t)) as H1
            by (eapply Permutation_in; [symmetry; exact Hp | left; reflexivity]).
        assert (In x (y :: t')) as H2
            by (eapply Permutation_in; [exact Hp | left; reflexivity]).
        rewrite Forall_forall in Hx, Hy.
        destruct H1 as [H1|H1]; [congruence|].
        destruct H2 as [H2|H2]; [congruence|].
        specialize (Hx y H1). specialize (Hy x H2). lia. }
      f_equal. apply IH; [exact Hs'|]. eapply Permutation_cons_inv, Hp.
Qed.

Section OrderFacts.
Variable key : Flight -> string.

Lemma countKey_perm k F G : Permutation F G -> countKey key k F = countKey key k G.
Proof.
  intros H. unfold countKey. f_equal.
  apply Permutation_count_occ. apply Permutation_map, H.
Qed.

Lemma keyCounts_NoDup F : NoDup (keyCounts key F).
Proof.
  apply (NoDup_map_inv fst). unfold keyCounts. rewrite map_map. simpl.
  rewrite map_id. apply NoDup_firstSeen.
Qed.

Lemma keyCounts_In F e :
  In e (keyCounts key F)
  <-> In (fst e) (map key F) /\ snd e = countKey key (fst e) F.
Proof.
  unfold keyCounts. rewrite in_map_iff. split.
  - intros (k & <- & Hk). apply (proj1 (In_firstSeen _ _)) in Hk. auto.
  - intros [Hk He]. exists (fst e). rewrite In_firstSeen.
    split; [|exact Hk]. destruct e; simpl in *; congruence.
Qed.

Lemma keyCounts_perm F G :
  Permutation F G -> Permutation (keyCounts key F) (keyCounts key G).
Proof.
  intros H. apply NoDup_Permutation; try apply keyCounts_NoDup.
  intros e. rewrite !keyCounts_In, (countKey_perm (fst e) F G H).
  split; intros [H1 H2]; (split; [|exact H2]);
    (eapply Permutation_in; [|exact H1]); apply Permutation_map;
    [exact H | symmetry; exact H].
Qed.

Lemma ranked_descending F :
  StronglySorted (fun a b => b <= a) (map snd (ranked key F)).
Proof.
  apply StronglySorted_map.
  eapply StronglySorted_weaken; [|apply ranked_sorted].
  intros a b _ _ [H|[H _]]; lia.
Qed.

(** The counts that are listed do not depend on the order of the rows. *)
Lemma topFive_counts_perm F G :
  Permutation F G ->
  map snd (topFive key F) = map snd (topFive key G).
Proof.
  intros H. unfold topFive, JS.slice0. rewrite <- !firstn_map. f_equal.
  apply descending_unique; try apply ranked_descending.
  apply Permutation_map. unfold ranked.
  rewrite (arraySort_perm (A := string * Z) snd (keyCounts key F)).
  rewrite (arraySort_perm (A := string * Z) snd (keyCounts key G)).
  apply keyCounts_perm, H.
Qed.
End OrderFacts.

Lemma countStatus_perm s F G :
  Permutation F G -> countStatus s F = countStatus s G.
Proof.
  intros H. unfold countStatus. f_equal.
  apply Permutation_length, Permutation_filter, H.
Qed.

Lemma statusDistribution_perm F G :
  Permutation F G -> statusDistribution F = statusDistribution G.
Proof.
  intros H. unfold statusDistribution.
  rewrite !(countStatus_perm _ F G H). reflexivity.
Qed.

(** The name and the count of an entry of the trend. *)
Definition monthView (m : Month.t) : string * Z :=
  (Month.month m, Month.flights m).

Lemma generateMonthlyTrend_view now F :
  clockWellFormed now -> datesWellFormed F ->
  map monthView (generateMonthlyTrend now F)
  = map (fun i =>
           (nth (Z.to_nat (snd (monthsBack now i))) monthNames "undefined"%string,
            Z.of_nat (List.length (filter (inMonth (monthsBack now i)) F))))
        monthOffsets.
Proof.
  intros Hnow HF. rewrite generateMonthlyTrend_closed_form by assumption.
  rewrite map_map. reflexivity.
Qed.

(** X3: what the summary counts does not depend on the order of the rows:
    two sequences with the same rows in any order (and any two runs of
    [Math.random]) give the same [totalFlights], [statusDistribution] and
    [onTimePercentage], the same frequencies in [routeAnalysis], counts in
    [aircraftBreakdown] and flights in [airlineAnalysis], entry by entry,
    and the same month names and flights in [monthlyTrend]. *)
Theorem X3_counts_ignore_row_order (now : Z * Z) (random random' : nat -> float)
    (F G : list Flight) :
  Permutation F G -> clockWellFormed now -> datesWellFormed F ->
  let s := aggregate now random F in
  let s' := aggregate now random' G in
  Summary.totalFlights s = Summary.totalFlights s'
  /\ Summary.statusDistribution s = Summary.statusDistribution s'
  /\ Summary.onTimePercentage s = Summary.onTimePercentage s'
  /\ map Route.frequency (Summary.routeAnalysis s)
     = map Route.frequency (Summary.routeAnalysis s')
  /\ map Aircraft.count (Summary.aircraftBreakdown s)
     = map Aircraft.count (Summary.aircraftBreakdown s')
  /\ map Airline.flights (Summary.airlineAnalysis s)
     = map Airline.flights (Summary.airlineAnalysis s')
  /\ map monthView (Summary.monthlyTrend s)
     = map monthView (Summary.monthlyTrend s').
Proof.
  intros HP Hnow HF.
  assert (datesWellFormed G) as HG
      by (unfold datesWellFormed in *; eapply Permutation_Forall; eassumption).
  destruct F as [|f0 F0] eqn:EF.
  { apply Permutation_nil in HP. subst G. repeat split. }
  destruct G as [|g0 G0] eqn:EG.
  { symmetry in HP. apply Permutation_nil in HP. discriminate. }
  rewrite !aggregate_nonempty. rewrite <- EF, <- EG in *. clear EF f0 F0 EG g0 G0.
  cbn [Summary.totalFlights Summary.statusDistribution
       Summary.onTimePercentage Summary.routeAnalysis
       Summary.aircraftBreakdown Summary.airlineAnalysis
       Summary.monthlyTrend]. cbv zeta.
  assert (totalFlights F = totalFlights G) as Ht
      by (unfold totalFlights; f_equal; apply Permutation_length, HP).
  pose proof (statusDistribution_perm F G HP) as Hs.
  split; [exact Ht|]. split; [exact Hs|].
  split; [unfold onTimePercentage; rewrite Ht, Hs; reflexivity|].
  rewrite !routeAnalysis_frequencies, !aircraftBreakdown_counts,
    !airlineAnalysis_flights.
  split; [apply topFive_counts_perm, HP|].
  split; [apply topFive_counts_perm, HP|].
  split; [apply topFive_counts_perm, HP|].
  rewrite !generateMonthlyTrend_view by assumption.
  apply map_ext. intros i. f_equal. f_equal.
  apply Permutation_length, Permutation_filter, HP.
Qed.

Lemma X3_counts_ignore_row_order_witness :
  let a := sampleFlight (DateOn 2026 10) "completed" "JFK" "LAX" "AA"
                        (JS.JSString "2.50") in
  let b := sampleFlight (DateOn 2026 9) "active" "LAX" "JFK" "DL"
                        (JS.JSNumber 1) in
  map Route.frequency
      (Summary.routeAnalysis (aggregate (2026, 10) noRandom [a; b; b]))
  = map Route.frequency
      (Summary.routeAnalysis (aggregate (2026, 10) noRandom [b; a; b])).
Proof.
  cbv zeta.
  refine (proj1 (proj2 (proj2 (proj2
            (X3_counts_ignore_row_order (2026, 10) noRandom noRandom
               _ _ _ _ _))))).
  - apply perm_swap.
  - unfold clockWellFormed. simpl. lia.
  - repeat constructor; simpl; lia.
Defined.

(** ** Route keys *)






(** ** Where NaN cannot appear *)

Lemma isNaN_false_iff x : JS.isNaN x = false <-> Prim2SF x <> S754_nan.
Proof.
  split; [|apply FloatFacts.is_nan_false].
  unfold JS.isNaN, PrimFloat.is_nan. rewrite eqb_spec. intros H E.
  rewrite E in H. discriminate.
Qed.

Lemma ofZ_not_nan z : Prim2SF (JS.ofZ z) <> S754_nan.
Proof.
  apply isNaN_false_iff. apply FloatFacts.SF2Prim_not_nan.
  apply FloatFacts.binary_normalize_not_nan.
Qed.

(** The Number of a positive integer below 2^53 is that integer. *)
Lemma ofZ_small p :
  Z.pos p < 2 ^ 53 ->
  let d := Z.pos (digits2_pos p) in
  Prim2SF (JS.ofZ (Z.pos p))
  = S754_finite false (Z.to_pos (Z.pos p * 2 ^ (53 - d))) (d - 53).
Proof.
  intros Hp d. unfold JS.ofZ.
  pose proof (RoundFacts.digits_bounds p) as [Hlo Hhi]. fold d in Hlo, Hhi.
  assert (1 <= d <= 53) as Hd.
  { split; [unfold d; lia|].
    apply RoundFacts.digits_le_of_lt; [lia | exact Hp]. }
  cbn [binary_normalize]. unfold binary_round.
  pose proof (RoundFacts.shl_align_spec p 0
                (fexp prec emax (Z.pos (digits2_pos p) + 0))) as Hs.
  destruct (shl_align p 0 (fexp prec emax (Z.pos (digits2_pos p) + 0)))
    as [mz ez].
  rewrite RoundFacts.fexp_eq in Hs. fold d in Hs. destruct Hs as [Hez Hmz].
  assert (ez = d - 53) as -> by lia.
  replace (0 - (d - 53)) with (53 - d) in Hmz by lia.
  assert (2 ^ 52 <= Z.pos mz < 2 ^ 53) as Hm.
  { rewrite Hmz. split.
    - replace 52 with ((d - 1) + (53 - d)) by lia.
      rewrite Z.pow_add_r by lia.
      apply Z.mul_le_mono_nonneg_r; [apply Z.pow_nonneg; lia | exact Hlo].
    - replace 53 with (d + (53 - d)) at 2 by lia.
      rewrite Z.pow_add_r by lia.
      apply Z.mul_lt_mono_pos_r; [apply Z.pow_pos_nonneg; lia | exact Hhi]. }
  assert (Z.pos (digits2_pos mz) = 53) as Hdz.
  { pose proof (RoundFacts.digits_le_of_lt mz 53 ltac:(lia) ltac:(lia)).
    pose proof (RoundFacts.digits_ge_of_le mz 52 ltac:(lia) ltac:(lia)). lia. }
  assert (fexp prec emax (Zdigits2 (Z.pos mz) + (d - 53)) = d - 53) as He1.
  { rewrite RoundFacts.fexp_eq. simpl Zdigits2. rewrite Hdz. lia. }
  destruct (RoundFacts.binary_round_aux_exact mz (d - 53))
    as (r & _ & Hr & _ & _ & ->).
  { cbv zeta. rewrite He1. lia. }
  cbv zeta in Hr. rewrite He1 in Hr.
  replace (d - 53 - (d - 53)) with 0 in Hr by lia.
  rewrite Z.pow_0_r, Z.mod_1_r, Z.div_1_r in Hr.
  rewrite (Hr eq_refl). cbv zeta. rewrite He1.
  unfold RoundFacts.roundResult.
  replace (Z.pos mz =? 0) with false by reflexivity.
  replace (Z.pos mz =? 2 ^ 53) with false
    by (symmetry; apply Z.eqb_neq; lia).
  replace (d - 53 <=? 971) with true by (symmetry; apply Z.leb_le; lia).
  rewrite <- Hmz. rewrite Pos2Z.id.
  apply Prim2SF_SF2Prim.
  unfold valid_binary, bounded, canonical_mantissa.
  rewrite RoundFacts.fexp_eq, Hdz.
  apply andb_true_iff. split; [apply Z.eqb_eq; lia | apply Z.leb_le].
  change (emax - prec) with 971. lia.
Qed.

Lemma ofZ_positive n :
  0 < n < 2 ^ 53 -> exists m e, Prim2SF (JS.ofZ n) = S754_finite false m e.
Proof.
  intros [H0 H1]. destruct n as [|p|p]; try lia.
  rewrite ofZ_small by exact H1. eauto.
Qed.

Lemma div_count_not_nan x n :
  Prim2SF x <> S754_nan -> 0 < n < 2 ^ 53 ->
  Prim2SF (x /! JS.ofZ n) <> S754_nan.
Proof.
  intros Hx Hn. rewrite div_spec.
  destruct (ofZ_positive n Hn) as (m & e & ->).
  destruct (Prim2SF x) as [s|s| |s mx ex]; try congruence; try discriminate.
  apply FloatFacts.SFdiv_finite_not_nan.
Qed.

Lemma mul_finite_not_nan x c s m e :
  Prim2SF c = S754_finite s m e ->
  Prim2SF x <> S754_nan -> Prim2SF (x *! c) <> S754_nan.
Proof.
  intros Hc Hx. rewrite mul_spec, Hc.
  destruct (Prim2SF x) as [sx|sx| |sx mx ex]; try congruence; try discriminate.
  simpl. apply FloatFacts.binary_round_aux_not_nan. lia.
Qed.

Lemma div_finite_not_nan x c s m e :
  Prim2SF c = S754_finite s m e ->
  Prim2SF x <> S754_nan -> Prim2SF (x /! c) <> S754_nan.
Proof.
  intros Hc Hx. rewrite div_spec, Hc.
  destruct (Prim2SF x) as [sx|sx| |sx mx ex]; try congruence; try discriminate.
  apply FloatFacts.SFdiv_finite_not_nan.
Qed.

Lemma add_finite_not_nan a d :
  Prim2SF a <> S754_nan -> finiteNumber d -> Prim2SF (a +! d) <> S754_nan.
Proof.
  intros Ha Hd. rewrite add_spec. apply SFadd_finite_not_nan; assumption.
Qed.

Lemma finite_add_not_nan c s m e x :
  Prim2SF c = S754_finite s m e ->
  Prim2SF x <> S754_nan -> Prim2SF (c +! x) <> S754_nan.
Proof.
  intros Hc Hx. rewrite add_spec, Hc.
  destruct (Prim2SF x) as [sx|sx| |sx mx ex]; try congruence; try discriminate.
  apply FloatFacts.binary_normalize_not_nan.
Qed.

Lemma finiteNumber_not_nan d : finiteNumber d -> Prim2SF d <> S754_nan.
Proof. unfold finiteNumber. destruct (Prim2SF d); congruence || tauto. Qed.

Lemma Math_floor_not_nan x :
  Prim2SF x <> S754_nan -> Prim2SF (JS.Math_floor x) <> S754_nan.
Proof.
  intros Hx. unfold JS.Math_floor.
  destruct (Prim2SF x) as [s|s| |s m [|e|e]] eqn:E;
    try (rewrite E; congruence).
  destruct (_ =? 0); [discriminate | apply ofZ_not_nan].
Qed.

Lemma Math_round_not_nan x :
  Prim2SF x <> S754_nan -> Prim2SF (JS.Math_round x) <> S754_nan.
Proof.
  intros Hx. unfold JS.Math_round.
  destruct (Prim2SF x) as [s|s| |s m [|e|e]] eqn:E;
    try (rewrite E; congruence).
  destruct (_ =? 0); [destruct s; discriminate | apply ofZ_not_nan].
Qed.

Definition finiteDurations (F : list Flight) : Prop :=
  Forall (fun f => finiteNumber (safeParseFloat (duration_hours f))) F.

Lemma fold_add_not_nan (ds : list float) : forall acc,
  Forall finiteNumber ds -> Prim2SF acc <> S754_nan ->
  Prim2SF (fold_left PrimFloat.add ds acc) <> S754_nan.
Proof.
  induction ds as [|d ds IH]; intros acc Hds Hacc; simpl; [exact Hacc|].
  inversion Hds; subst. apply IH; [assumption|].
  apply add_finite_not_nan; assumption.
Qed.

Lemma fold_durations_not_nan F :
  finiteDurations F -> forall acc,
  Prim2SF acc <> S754_nan ->
  Prim2SF (fold_left
             (fun sum flight => sum +! safeParseFloat (duration_hours flight))
             F acc) <> S754_nan.
Proof.
  induction 1 as [|f F Hf HF IH]; intros acc Hacc; simpl; [exact Hacc|].
  apply IH. apply add_finite_not_nan; assumption.
Qed.

Lemma totalHours_not_nan F :
  finiteDurations F -> Prim2SF (totalHours F) <> S754_nan.
Proof. intros HF. apply fold_durations_not_nan; [exact HF | discriminate]. Qed.

Lemma finiteDurations_filter p F :
  finiteDurations F -> finiteDurations (filter p F).
Proof.
  unfold finiteDurations. rewrite !Forall_forall. intros H f Hf.
  apply filter_In in Hf. apply H. tauto.
Qed.

Lemma hoursOfKey_not_nan key k F :
  finiteDurations F -> Prim2SF (hoursOfKey key k F) <> S754_nan.
Proof.
  intros HF. unfold hoursOfKey.
  apply (finiteDurations_filter (keyIs key k)) in HF.
  destruct HF as [|f G Hf HG]; simpl; [discriminate|].
  apply fold_add_not_nan.
  - apply Forall_map. exact HG.
  - apply finiteNumber_not_nan, Hf.
Qed.

Lemma countKey_le key k F : countKey key k F <= Z.of_nat (List.length F).
Proof.
  unfold countKey. apply inj_le.
  rewrite <- (length_map key F). apply count_occ_bound.
Qed.

(** *** The entries of the trend *)

Section MapForall.
Context {V : Type} (P : V -> Prop).

Lemma mapGet_Forall (m : list (string * V)) k v :
  Forall (fun e => P (snd e)) m -> JS.mapGet m k = Some v -> P v.
Proof.
  induction 1 as [|[k' v'] m Hv Hm IH]; simpl; [discriminate|].
  destruct (String.eqb k' k); [intros [= <-]; exact Hv | exact IH].
Qed.

Lemma mapSet_Forall (m : list (string * V)) k v :
  Forall (fun e => P (snd e)) m -> P v ->
  Forall (fun e => P (snd e)) (JS.mapSet m k v).
Proof.
  intros Hm Hv. induction Hm as [|[k' v'] m Hv' Hm IH]; simpl.
  - repeat constructor. exact Hv.
  - destruct (String.eqb k' k); constructor; auto.
Qed.
End MapForall.

Definition hoursDefined (m : Month.t) : Prop :=
  Prim2SF (Month.hours m) <> S754_nan.

Lemma initialMonthlyData_defined now :
  Forall (fun e => hoursDefined (snd e)) (initialMonthlyData now).
Proof.
  unfold initialMonthlyData.
  assert (forall L m, Forall (fun e => hoursDefined (snd e)) m ->
            Forall (fun e => hoursDefined (snd e))
                   (fold_left (initMonth now) L m)) as H.
  { induction L as [|i L IH]; intros m Hm; simpl; [exact Hm|].
    apply IH. unfold initMonth.
    destruct (JS.dateOfMonth (fst now) (snd now - i)) as [y mo].
    apply mapSet_Forall; [exact Hm | discriminate]. }
  apply H. constructor.
Qed.

Lemma addFlight_defined m f :
  finiteNumber (safeParseFloat (duration_hours f)) ->
  Forall (fun e => hoursDefined (snd e)) m ->
  Forall (fun e => hoursDefined (snd e)) (addFlight m f).
Proof.
  intros Hf Hm. unfold addFlight.
  destruct (flightMonthKey (flight_date f)) as [key|]; [|exact Hm].
  destruct (JS.mapGet m key) as [existing|] eqn:E; [|exact Hm].
  apply mapSet_Forall; [exact Hm|].
  unfold hoursDefined. simpl. apply add_finite_not_nan; [|exact Hf].
  apply (mapGet_Forall hoursDefined m key existing Hm E).
Qed.

Lemma generateMonthlyTrend_defined now F :
  finiteDurations F -> Forall hoursDefined (generateMonthlyTrend now F).
Proof.
  intros HF. unfold generateMonthlyTrend. apply Forall_map.
  assert (forall m, Forall (fun e => hoursDefined (snd e)) m ->
            Forall (fun e => hoursDefined (snd e))
                   (fold_left addFlight F m)) as H.
  { induction HF as [|f F Hf HF IH]; intros m Hm; simpl; [exact Hm|].
    apply IH, addFlight_defined; assumption. }
  specialize (H _ (initialMonthlyData_defined now)).
  eapply Forall_impl; [|exact H].
  intros [k data] Hd. unfold hoursDefined, roundHours in *. simpl in *.
  eapply div_finite_not_nan; [reflexivity|].
  apply Math_round_not_nan.
  eapply mul_finite_not_nan; [reflexivity | exact Hd].
Qed.

(** No Number of the summary is NaN. *)
Definition numbersDefined (s : Summary.t) : Prop :=
  JS.isNaN (Summary.totalHours s) = false
  /\ JS.isNaN (Summary.averageFlightTime s) = false
  /\ JS.isNaN (Summary.onTimePercentage s) = false
  /\ Forall (fun m => JS.isNaN (Month.hours m) = false) (Summary.monthlyTrend s)
  /\ Forall (fun e => JS.isNaN (Aircraft.hours e) = false
                      /\ JS.isNaN (Aircraft.percentage e) = false)
            (Summary.aircraftBreakdown s)
  /\ Forall (fun e => JS.isNaN (Route.avgDuration e) = false)
            (Summary.routeAnalysis s)
  /\ (JS.isNaN (Time.day (Summary.timeDistribution s)) = false
      /\ JS.isNaN (Time.night (Summary.timeDistribution s)) = false
      /\ JS.isNaN (Time.ifr (Summary.timeDistribution s)) = false
      /\ JS.isNaN (Time.crossCountry (Summary.timeDistribution s)) = false)
  /\ Forall (fun e => JS.isNaN (Airline.reliability e) = false)
            (Summary.airlineAnalysis s).

(** X5: when every duration coerces to a finite Number (and
    [Math.random] returns finite Numbers), no Number of the summary is
    NaN: not the totals, nor any entry of the trend, of the three
    breakdowns or of the time distribution.  The rows are those of an
    array, fewer than 2^32. *)
Theorem X5_finite_durations_no_NaN (now : Z * Z) (random : nat -> float)
    (F : list Flight) :
  finiteDurations F ->
  (forall i, finiteNumber (random i)) ->
  Z.of_nat (List.length F) < 2 ^ 32 ->
  numbersDefined (aggregate now random F).
Proof.
  intros HF Hr Hlen. destruct F as [|f0 F0] eqn:EF.
  { unfold numbersDefined. simpl. repeat split; repeat constructor. }
  rewrite aggregate_nonempty. rewrite <- EF in *.
  assert (0 < totalFlights F < 2 ^ 53) as Hn.
  { unfold totalFlights. rewrite EF in *. simpl List.length in *. lia. }
  clear EF f0 F0. unfold numbersDefined.
  cbn [Summary.totalHours Summary.averageFlightTime Summary.onTimePercentage
       Summary.monthlyTrend Summary.aircraftBreakdown Summary.routeAnalysis
       Summary.timeDistribution Summary.airlineAnalysis].
  pose proof (totalHours_not_nan F HF) as Hsum.
  assert ((0 <? totalFlights F) = true) as Hpos by (apply Z.ltb_lt; lia).
  split; [apply roundTo_not_nan, Hsum|].
  split.
  { apply roundTo_not_nan. unfold averageFlightTime. rewrite Hpos.
    apply div_count_not_nan; assumption. }
  split.
  { apply roundTo_not_nan. unfold onTimePercentage. rewrite Hpos.
    eapply mul_finite_not_nan; [reflexivity|].
    apply div_count_not_nan; [apply ofZ_not_nan | exact Hn]. }
  split.
  { eapply Forall_impl; [|apply generateMonthlyTrend_defined, HF].
    intros m Hm. apply isNaN_false_iff, Hm. }
  split.
  { rewrite Forall_forall. intros e He.
    destruct (aircraftBreakdown_entry F e He) as (k & Hk & ->).
    cbn [aircraftEntry Aircraft.hours Aircraft.percentage tallyOfKey
         tallyCount tallyHours]. rewrite Hpos.
    split; apply isNaN_false_iff.
    - apply hoursOfKey_not_nan, HF.
    - eapply mul_finite_not_nan; [reflexivity|].
      apply div_count_not_nan; [apply ofZ_not_nan | exact Hn]. }
  split.
  { rewrite Forall_forall. intros e He.
    destruct (routeAnalysis_entry F e He) as (k & Hk & ->).
    cbn [routeEntry Route.avgDuration tallyOfKey tallyCount tallyHours].
    pose proof (countKey_pos routeKey k F Hk) as Hc.
    pose proof (countKey_le routeKey k F) as Hc'.
    rewrite (proj2 (Z.ltb_lt _ _) Hc).
    apply isNaN_false_iff, div_count_not_nan;
      [apply hoursOfKey_not_nan, HF | unfold totalFlights in Hn; lia]. }
  split.
  { unfold timeDistribution.
    cbn [Time.day Time.night Time.ifr Time.crossCountry].
    repeat split; apply isNaN_false_iff, Math_floor_not_nan;
      (eapply mul_finite_not_nan; [reflexivity | exact Hsum]). }
  rewrite Forall_forall. intros e He.
  destruct (airlineAnalysis_score random F e He) as (j & ->).
  apply isNaN_false_iff.
  eapply finite_add_not_nan; [reflexivity|].
  eapply mul_finite_not_nan; [reflexivity|].
  apply finiteNumber_not_nan, Hr.
Qed.

Lemma X5_finite_durations_no_NaN_witness :
  numbersDefined
    (aggregate (2026, 10) noRandom
       [sampleFlight (DateOn 2026 10) "completed" "JFK" "LAX" "AA"
                     (JS.JSString "2.50");
        sampleFlight DateInvalid "diverted" "" "LAX" ""
                     (JS.JSString "n/a")]).
Proof.
  apply X5_finite_durations_no_NaN.
  - repeat constructor; vm_compute; exact I.
  - intros i. vm_compute. exact I.
  - vm_compute. reflexivity.
Defined.

(* ================================================================== *)
(** * The built-ins at work *)
(* ================================================================== *)

(** The text of a Number, for Numbers read from a text. *)
Example NumberToString_examples :
  map (fun s => JS.NumberToString (JS.parseFloat s))
      ["0.1"; "1e21"; "1e-7"; "0.000001"; "1.5e-7"; "9007199254740992";
       "0.30000000000000004"; "1.7976931348623157e308"; "5e-324"; "100";
       "1e100"; "123.456"; "123456789012345680000"; "1e23"; "-2.5"; "9999";
       "0.5"; "0.00001"; "-0"; "x"; "-Infinity"; "24"; "7.50"]%string
  = ["0.1"; "1e+21"; "1e-7"; "0.000001"; "1.5e-7"; "9007199254740992";
     "0.30000000000000004"; "1.7976931348623157e+308"; "5e-324"; "100";
     "1e+100"; "123.456"; "123456789012345680000"; "1e+23"; "-2.5"; "9999";
     "0.5"; "0.00001"; "0"; "NaN"; "-Infinity"; "24"; "7.5"]%string.
Proof. vm_compute. reflexivity. Qed.

Example toISOString_examples :
  map JS.toISOString
      [0; -1; 951782400000; 253402300800000; 8640000000000000;
       -8640000000000000; -62198755200000; 1700000000123]
  = ["1970-01-01T00:00:00.000Z"; "1969-12-31T23:59:59.999Z";
     "2000-02-29T00:00:00.000Z"; "+010000-01-01T00:00:00.000Z";
     "+275760-09-13T00:00:00.000Z"; "-271821-04-20T00:00:00.000Z";
     "-000001-01-01T00:00:00.000Z"; "2023-11-14T22:13:20.123Z"]%string.
Proof. vm_compute. reflexivity. Qed.

Example TimeClip_examples :
  map JS.TimeClip
      [0; -0; 1.5; -1.5; 8640000000000000; 8640000000000001; nan; infinity;
       -8640000000000000; 0x1p+60]%float
  = [Some 0; Some 0; Some 1; Some (-1); Some 8640000000000000; None; None; None;
     Some (-8640000000000000); None].
Proof. vm_compute. reflexivity. Qed.

Example split_examples :
  map (JS.split " ") ["Bearer abc"; "abc"; ""; "a  b"; " x"; "a b c"; "a "]%string
  = [["Bearer"; "abc"]; ["abc"]; [""]; ["a"; ""; "b"]; [""; "x"];
     ["a"; "b"; "c"]; ["a"; ""]]%string.
Proof. reflexivity. Qed.

Example arrayAt_examples :
  map (JS.arrayAt [10; 20; 30])
      [0; -0; 2; 3; 1.5; -1; nan; 0x1p+100; infinity]%float
  = [Some 10; Some 10; Some 30; None; None; None; None; None; None].
Proof. vm_compute. reflexivity. Qed.

(* ================================================================== *)
(** * Draws of Math.random, scaled *)
(* ================================================================== *)

Module DrawFacts.
Import RoundFacts.

(** The specification value of a draw: a zero, or a positive value below
    1 in canonical form. *)
Lemma unitInterval_cases (r : float) :
  unitInterval r ->
  (exists s, Prim2SF r = S754_zero s)
  \/ exists m e,
       Prim2SF r = S754_finite false m e
       /\ bounded prec emax m e = true
       /\ e <= -53 /\ Z.pos m < 2 ^ 53 /\ Z.pos m < 2 ^ (- e).
Proof.
  intros [H0 H1]. rewrite leb_spec in H0. rewrite ltb_spec in H1.
  pose proof (Prim2SF_valid r) as Hv.
  replace (Prim2SF 0) with (S754_zero false) in H0 by reflexivity.
  replace (Prim2SF 1) with (S754_finite false 4503599627370496 (-52)) in H1
    by reflexivity.
  destruct (Prim2SF r) as [s|s| |s m e]; try discriminate.
  - left. eauto.
  - destruct s; discriminate.
  - destruct s; [discriminate|]. right. exists m, e.
    simpl in Hv. split; [reflexivity|]. split; [exact Hv|].
    pose proof (bounded_canonical m e Hv) as [Hc _].
    pose proof (digits_bounds m) as [Hlo Hhi].
    assert (Z.pos (digits2_pos m) <= 53) as Hd by lia.
    assert (Z.pos m < 2 ^ 53) as Hm53.
    { eapply Z.lt_le_trans; [exact Hhi|]. apply Z.pow_le_mono_r; lia. }
    unfold SFltb, SFcompare in H1.
    destruct (Z.compare_spec e (-52)) as [He|He|He]; try discriminate.
    + subst e.
      destruct (Pos.compare_cont Eq m 4503599627370496) eqn:E;
        try discriminate.
      pose proof (proj1 (Pos.compare_lt_iff m 4503599627370496) E) as Hlt.
      apply Pos2Z.pos_lt_pos in Hlt.
      assert (Z.pos (digits2_pos m) = 53) as Hd53 by lia.
      rewrite Hd53 in Hlo. change (2 ^ (53 - 1)) with 4503599627370496 in Hlo.
      lia.
    + split; [lia|]. split; [exact Hm53|].
      eapply Z.lt_le_trans; [exact Hm53|].
      clear - He. apply Z.pow_le_mono_r; lia.
Qed.

Lemma zero_float (x : float) s :
  Prim2SF x = S754_zero s -> x = if s then neg_zero else zero.
Proof. intros H. apply Prim2SF_inj. rewrite H. destruct s; reflexivity. Qed.

Section Scaled.

(** The factor [mN * 2^eN], the largest Number below it [mc * 2^ec],
    and the largest integer [K] below it. *)
Variables (mN mc : positive) (eN ec K : Z).
Hypothesis normal : 2 ^ 52 <= Z.pos mN.
Hypothesis canonical : bounded prec emax mc ec = true.
Hypothesis normal_c : 2 ^ 52 <= Z.pos mc.
Hypothesis exponents : eN - 53 <= ec /\ ec < 0.
Hypothesis below2 :
  (2 ^ 53 - 2) * Z.pos mN <= Z.pos mc * 2 ^ (ec - eN + 53).
Hypothesis below1 :
  (2 ^ 53 - 1) * Z.pos mN <= Z.pos mc * 2 ^ (ec - eN + 54).
Hypothesis top :
  belowFloat (SFmul prec emax (S754_finite false 9007199254740991 (-53))
                              (S754_finite false mN eN)) mc ec.
Hypothesis whole : Z.pos mc < (K + 1) * 2 ^ (- ec).

Lemma scaled_below m e :
  bounded prec emax m e = true ->
  e <= -53 -> Z.pos m < 2 ^ 53 ->
  belowFloat (SFmul prec emax (S754_finite false m e)
                              (S754_finite false mN eN)) mc ec.
Proof.
  intros Hv He Hm.
  destruct (Z.eq_dec e (-53)) as [->|Hne].
  - destruct (Z.eq_dec (Z.pos m) 9007199254740991) as [Hm'|Hm'].
    + replace m with 9007199254740991%positive by lia. exact top.
    + change (SFmul prec emax (S754_finite false m (-53))
                (S754_finite false mN eN))
        with (binary_round_aux prec emax false (Z.pos (m * mN)) (-53 + eN)
                               loc_Exact).
      apply round_below.
      * apply aligned_of_digits. rewrite Pos2Z.inj_mul. nia.
      * exact canonical.
      * lia.
      * rewrite Pos2Z.inj_mul.
        replace (ec - (-53 + eN)) with (ec - eN + 53) by lia.
        change (2 ^ 53) with 9007199254740992 in *. nia.
  - change (SFmul prec emax (S754_finite false m e)
              (S754_finite false mN eN))
      with (binary_round_aux prec emax false (Z.pos (m * mN)) (e + eN)
                             loc_Exact).
    apply round_below.
    + apply aligned_of_digits. rewrite Pos2Z.inj_mul. nia.
    + exact canonical.
    + lia.
    + rewrite Pos2Z.inj_mul.
      replace (ec - (e + eN)) with ((ec - eN + 54) + (- e - 54)) by lia.
      rewrite Z.pow_add_r by lia.
      assert (1 <= 2 ^ (- e - 54))
        by (assert (0 < 2 ^ (- e - 54)) by (apply Z.pow_pos_nonneg; lia); lia).
      assert (0 < 2 ^ (ec - eN + 54)) by (apply Z.pow_pos_nonneg; lia).
      change (2 ^ 53) with 9007199254740992 in *. nia.
Qed.

(** [Math.floor] of a value that is at most [mc * 2^ec]. *)
Lemma floor_below (x : float) :
  belowFloat (Prim2SF x) mc ec ->
  exists k, 0 <= k <= K /\ JS.Math_floor x = JS.ofZ k.
Proof.
  intros [Hz|(mr & er & Hx & Hmr & Her)].
  - exists 0. split; [|unfold JS.Math_floor; rewrite Hz;
                       apply (zero_float x false Hz)].
    assert (0 < 2 ^ (- ec)) by (apply Z.pow_pos_nonneg; lia). nia.
  - assert (er < 0) as Hneg by lia.
    destruct er as [|q|q]; try lia.
    unfold JS.Math_floor. rewrite Hx. cbv zeta. unfold JS.floorQ, id.
    assert (0 <= Z.pos mr / 2 ^ Z.pos q <= K) as Hk.
    { assert (0 < 2 ^ Z.pos q) by (apply Z.pow_pos_nonneg; lia).
      split; [apply Z.div_pos; lia|].
      assert (Z.pos mr / 2 ^ Z.pos q < K + 1); [|lia].
      apply Z.div_lt_upper_bound; [lia|].
      assert (0 < 2 ^ (- ec)) by (apply Z.pow_pos_nonneg; lia).
      destruct Her as [Hlt|[E Hle]].
      - replace (Z.pos q) with ((- ec) + (ec - Z.neg q)) by lia.
        rewrite Z.pow_add_r by lia.
        assert (2 <= 2 ^ (ec - Z.neg q)).
        { change 2 with (2 ^ 1) at 1. apply Z.pow_le_mono_r; lia. }
        change (2 ^ 53) with 9007199254740992 in *.
        change (2 ^ 52) with 4503599627370496 in *. nia.
      - replace (Z.pos q) with (- ec) by lia. nia. }
    exists (Z.pos mr / 2 ^ Z.pos q). split; [exact Hk|].
    destruct (Z.eqb_spec (Z.pos mr / 2 ^ Z.pos q) 0) as [->|_]; reflexivity.
Qed.

(** [Math.floor(r * N)] for a draw [r]: one of 0, ..., [K]. *)
Theorem floor_draw (r N : float) :
  unitInterval r -> Prim2SF N = S754_finite false mN eN ->
  (JS.Math_floor (r *! N) = neg_zero)
  \/ exists k, 0 <= k <= K /\ JS.Math_floor (r *! N) = JS.ofZ k.
Proof.
  intros Hr HN.
  destruct (unitInterval_cases r Hr) as [[s Hs]|(m & e & Hs & Hv & He & Hm & _)].
  - assert (Prim2SF (r *! N) = S754_zero s) as Hp.
    { rewrite mul_spec, Hs, HN. simpl. destruct s; reflexivity. }
    pose proof (zero_float _ _ Hp) as E.
    unfold JS.Math_floor. rewrite Hp, E. destruct s.
    + left. reflexivity.
    + right. exists 0. split; [|reflexivity].
      assert (0 < 2 ^ (- ec)) by (apply Z.pow_pos_nonneg; lia). nia.
  - right. apply floor_below. rewrite mul_spec, Hs, HN.
    apply scaled_below; assumption.
Qed.

End Scaled.

(** ** The factors of the server *)

Ltac closed_fact :=
  first [ reflexivity
        | vm_compute; first [reflexivity | discriminate]
        | split; vm_compute; first [reflexivity | discriminate] ].

Ltac below_witness :=
  right; eexists _, _;
  split; [vm_compute; reflexivity|];
  split; [vm_compute; reflexivity|];
  right; split; [reflexivity | vm_compute; discriminate].

Ltac floor_draw_with mN mc eN ec K r N :=
  refine (floor_draw mN mc eN ec K _ _ _ _ _ _ _ _ r N);
  [closed_fact | closed_fact | closed_fact | closed_fact | closed_fact
   | closed_fact | below_witness | closed_fact].

Lemma floor_draw_4 r N :
  unitInterval r -> Prim2SF N = S754_finite false 4503599627370496 (-50) ->
  (JS.Math_floor (r *! N) = neg_zero)
  \/ exists k, 0 <= k <= 3 /\ JS.Math_floor (r *! N) = JS.ofZ k.
Proof.
  floor_draw_with 4503599627370496%positive 9007199254740991%positive
                  (-50) (-51) 3 r N.
Qed.

Lemma floor_draw_5 r N :
  unitInterval r -> Prim2SF N = S754_finite false 5629499534213120 (-50) ->
  (JS.Math_floor (r *! N) = neg_zero)
  \/ exists k, 0 <= k <= 4 /\ JS.Math_floor (r *! N) = JS.ofZ k.
Proof.
  floor_draw_with 5629499534213120%positive 5629499534213119%positive
                  (-50) (-50) 4 r N.
Qed.

Lemma floor_draw_24 r N :
  unitInterval r -> Prim2SF N = S754_finite false 6755399441055744 (-48) ->
  (JS.Math_floor (r *! N) = neg_zero)
  \/ exists k, 0 <= k <= 23 /\ JS.Math_floor (r *! N) = JS.ofZ k.
Proof.
  floor_draw_with 6755399441055744%positive 6755399441055743%positive
                  (-48) (-48) 23 r N.
Qed.

Lemma floor_draw_60 r N :
  unitInterval r -> Prim2SF N = S754_finite false 8444249301319680 (-47) ->
  (JS.Math_floor (r *! N) = neg_zero)
  \/ exists k, 0 <= k <= 59 /\ JS.Math_floor (r *! N) = JS.ofZ k.
Proof.
  floor_draw_with 8444249301319680%positive 8444249301319679%positive
                  (-47) (-47) 59 r N.
Qed.

Lemma floor_draw_9999 r N :
  unitInterval r -> Prim2SF N = S754_finite false 5497008383066112 (-39) ->
  (JS.Math_floor (r *! N) = neg_zero)
  \/ exists k, 0 <= k <= 9998 /\ JS.Math_floor (r *! N) = JS.ofZ k.
Proof.
  floor_draw_with 5497008383066112%positive 5497008383066111%positive
                  (-39) (-39) 9998 r N.
Qed.

Lemma floor_draw_1000000 r N :
  unitInterval r -> Prim2SF N = S754_finite false 8589934592000000 (-33) ->
  (JS.Math_floor (r *! N) = neg_zero)
  \/ exists k, 0 <= k <= 999999 /\ JS.Math_floor (r *! N) = JS.ofZ k.
Proof.
  floor_draw_with 8589934592000000%positive 8589934591999999%positive
                  (-33) (-33) 999999 r N.
Qed.

(** The integer of the Number of an integer. *)
Lemma integerOf_ofZ k : 0 <= k < 2 ^ 53 -> JS.integerOf (JS.ofZ k) = Some k.
Proof.
  intros [H0 H1]. destruct k as [|p|p]; try lia; [reflexivity|].
  unfold JS.integerOf. rewrite ofZ_small by exact H1. cbv zeta.
  pose proof (digits_bounds p) as [Hlo Hhi].
  pose proof (digits_le_of_lt p 53 ltac:(lia) H1) as Hd.
  set (d := Z.pos (digits2_pos p)) in *.
  assert (0 < Z.pos p * 2 ^ (53 - d)) as Hpos.
  { apply Z.mul_pos_pos; [lia | apply Z.pow_pos_nonneg; lia]. }
  destruct (d - 53) as [|q|q] eqn:E; try lia; rewrite Z2Pos.id by exact Hpos.
  - replace (53 - d) with 0 by lia. unfold id. f_equal.
    rewrite Z.pow_0_r. lia.
  - replace (53 - d) with (Z.pos q) by lia.
    rewrite Z.mod_mul by (apply Z.pow_nonzero; lia).
    rewrite Z.div_mul by (apply Z.pow_nonzero; lia). reflexivity.
Qed.

Lemma arrayAt_ofZ {A : Type} (l : list A) k :
  0 <= k < Z.of_nat (List.length l) -> Z.of_nat (List.length l) < 2 ^ 53 ->
  JS.arrayAt l (JS.ofZ k) = nth_error l (Z.to_nat k).
Proof.
  intros Hk Hl. unfold JS.arrayAt. rewrite integerOf_ofZ by lia.
  replace (0 <=? k) with true by (symmetry; apply Z.leb_le; lia).
  replace (k <? Z.of_nat (List.length l)) with true
    by (symmetry; apply Z.ltb_lt; lia).
  reflexivity.
Qed.

(** ** 2 + r * 8 for r between 0 and 1 *)

Lemma SFadd_comm_pos m1 e1 m2 e2 :
  SFadd prec emax (S754_finite false m1 e1) (S754_finite false m2 e2)
  = SFadd prec emax (S754_finite false m2 e2) (S754_finite false m1 e1).
Proof.
  unfold SFadd. rewrite (Z.min_comm e1 e2). cbv zeta. f_equal.
  apply Z.add_comm.
Qed.

Definition sf2 : spec_float := S754_finite false 4503599627370496 (-51).
Definition sf8 : spec_float := S754_finite false 4503599627370496 (-49).
Definition sf10 : spec_float := S754_finite false 5629499534213120 (-49).

(** [2 + t] for a canonical [t] between 0 and 8. *)
Lemma shifted_sum_bounds t :
  valid_binary t = true -> belowFloat t 4503599627370496 (-49) ->
  SFleb sf2 (SFadd prec emax sf2 t) = true
  /\ SFleb (SFadd prec emax sf2 t) sf10 = true.
Proof.
  intros Hv [->|(mt & et & -> & Hmt & Het)]; [split; reflexivity|].
  simpl in Hv. pose proof (bounded_canonical mt et Hv) as [Hc _].
  pose proof (digits_bounds mt) as [Hlo Hhi].
  change (2 ^ 53) with 9007199254740992 in Hmt.
  destruct (Z_le_gt_dec et (-51)) as [Hle|Hgt].
  - unfold sf2.
    destruct (SFadd_pos 4503599627370496 (-51) mt et Hle ltac:(lia))
      as (S & HS & ->).
    assert (0 < 2 ^ (-51 - et)) as Hq by (apply Z.pow_pos_nonneg; lia).
    assert (2 ^ 52 <= Z.pos S) as Hbig
        by (change (2 ^ 52) with 4503599627370496; nia).
    split.
    + apply aboveFloat_leb, round_above.
      * apply aligned_of_digits, Hbig.
      * reflexivity.
      * lia.
      * lia.
    + apply belowFloat_leb, round_below.
      * apply aligned_of_digits, Hbig.
      * reflexivity.
      * lia.
      * rewrite HS. replace (-49 - et) with (2 + (-51 - et)) by lia.
        rewrite Z.pow_add_r by lia. change (2 ^ 2) with 4. nia.
  - assert (et = -50 \/ et = -49) as Hcases by lia.
    assert (Z.pos (digits2_pos mt) = 53) as Hd by lia.
    rewrite Hd in Hlo. change (2 ^ (53 - 1)) with 4503599627370496 in Hlo.
    unfold sf2. rewrite SFadd_comm_pos.
    destruct (SFadd_pos mt et 4503599627370496 (-51) ltac:(lia)
                ltac:(change (2 ^ 52) with 4503599627370496; lia))
      as (S & HS & ->).
    assert (2 ^ 52 <= Z.pos S) as Hbig.
    { change (2 ^ 52) with 4503599627370496. rewrite HS.
      assert (0 < 2 ^ (et - -51)) by (apply Z.pow_pos_nonneg; lia). nia. }
    split.
    + apply aboveFloat_leb, round_above.
      * apply aligned_of_digits, Hbig.
      * reflexivity.
      * lia.
      * rewrite HS. replace (-51 - -51) with 0 by lia. rewrite Z.pow_0_r.
        assert (0 < 2 ^ (et - -51)) by (apply Z.pow_pos_nonneg; lia). nia.
    + apply belowFloat_leb, round_below.
      * apply aligned_of_digits, Hbig.
      * reflexivity.
      * lia.
      * rewrite HS. change (2 ^ (-49 - -51)) with 4.
        destruct Hcases as [->| ->].
        -- change (2 ^ (-50 - -51)) with 2. lia.
        -- change (2 ^ (-49 - -51)) with 4. lia.
Qed.

(** [2 + r * 8] for a draw [r] is between 2 and 10. *)
Theorem duration_bounds (r : float) :
  unitInterval r ->
  (2 <=? 2 + r * 8)%float = true /\ (2 + r * 8 <=? 10)%float = true.
Proof.
  intros Hr. rewrite !leb_spec, !add_spec.
  pose proof (Prim2SF_valid (r * 8)%float) as Hv.
  rewrite mul_spec in *.
  replace (Prim2SF 2) with sf2 by reflexivity.
  replace (Prim2SF 10) with sf10 by reflexivity.
  replace (Prim2SF 8) with sf8 in * by reflexivity.
  destruct (unitInterval_cases r Hr) as [[s Hs]|(m & e & Hs & _ & He & Hm & Hlt)];
    rewrite Hs in *.
  - destruct s; split; reflexivity.
  - apply shifted_sum_bounds; [exact Hv|].
    unfold sf8.
    change (SFmul prec emax (S754_finite false m e)
              (S754_finite false 4503599627370496 (-49)))
      with (binary_round_aux prec emax false (Z.pos (m * 4503599627370496))
                             (e + -49) loc_Exact).
    apply round_below.
    + apply aligned_of_digits. rewrite Pos2Z.inj_mul.
      change (2 ^ 52) with 4503599627370496. lia.
    + reflexivity.
    + lia.
    + rewrite Pos2Z.inj_mul. replace (-49 - (e + -49)) with (- e) by lia. nia.
Qed.

(** ** Rounding a duration *)

(** The [n] integers from [lo]. *)
Fixpoint countFrom (lo : Z) (n : nat) : list Z :=
  match n with
  | O => []
  | S n' => lo :: countFrom (lo + 1) n'
  end.

Definition integersFrom (lo n : Z) : list Z := countFrom lo (Z.to_nat n).

Lemma countFrom_In n : forall lo k,
  lo <= k < lo + Z.of_nat n -> In k (countFrom lo n).
Proof.
  induction n as [|n IH]; intros lo k Hk; cbn [countFrom]; [lia|].
  destruct (Z.eq_dec k lo) as [->|Hne]; [left; reflexivity|].
  right. apply IH. lia.
Qed.

Lemma integersFrom_In lo n k : lo <= k < lo + n -> In k (integersFrom lo n).
Proof.
  intros H. unfold integersFrom. apply countFrom_In.
  rewrite Z2Nat.id by lia. exact H.
Qed.

(** A check made on every integer of a range holds of each. *)
Lemma checked_range (p : Z -> bool) lo n :
  forallb p (integersFrom lo n) = true ->
  forall k, lo <= k < lo + n -> p k = true.
Proof.
  intros H k Hk. rewrite forallb_forall in H. apply H, integersFrom_In, Hk.
Qed.

Lemma hundredths_bounds n :
  200 <= n <= 1000 ->
  (2 <=? JS.ofDecimal false n (-2))%float = true
  /\ (JS.ofDecimal false n (-2) <=? 10)%float = true.
Proof.
  intros Hn. apply andb_true_iff.
  apply (checked_range
           (fun n => (2 <=? JS.ofDecimal false n (-2))%float
                     && (JS.ofDecimal false n (-2) <=? 10)%float)
           200 801); [vm_compute; reflexivity | lia].
Qed.

(** A Number between 2 and 10, in canonical form. *)
Lemma between_2_10 d :
  (2 <=? d)%float = true -> (d <=? 10)%float = true ->
  exists m e,
    Prim2SF d = S754_finite false m e
    /\ 2 ^ 52 <= Z.pos m < 2 ^ 53
    /\ (e = -51 \/ e = -50 \/ (e = -49 /\ Z.pos m <= 5629499534213120)).
Proof.
  rewrite !leb_spec. pose proof (Prim2SF_valid d) as Hv.
  replace (Prim2SF 2) with sf2 by reflexivity.
  replace (Prim2SF 10) with sf10 by reflexivity.
  unfold SFleb, SFcompare, sf2, sf10.
  destruct (Prim2SF d) as [s|s| |s m e]; try discriminate.
  - destruct s; discriminate.
  - destruct s; [discriminate|]. intros H2 H10. exists m, e.
    split; [reflexivity|]. simpl in Hv.
    pose proof (bounded_canonical m e Hv) as [Hc _].
    pose proof (digits_bounds m) as [Hlo Hhi].
    assert (-51 <= e <= -49) as He.
    { destruct (Z.compare_spec (-51) e); try discriminate;
        destruct (Z.compare_spec e (-49)); try discriminate; lia. }
    assert (Z.pos (digits2_pos m) = 53) as Hd by lia.
    rewrite Hd in Hlo, Hhi. split; [split; [exact Hlo | exact Hhi]|].
    assert (e = -51 \/ e = -50 \/ e = -49) as [->|[->| ->]] by lia; auto.
    right; right. split; [reflexivity|].
    rewrite Z.compare_refl in H10.
    destruct (Pos.compare_cont Eq m 5629499534213120) eqn:E; try discriminate.
    + apply Pos.compare_eq in E. lia.
    + pose proof (proj1 (Pos.compare_lt_iff _ _) E) as Hlt.
      apply Pos2Z.pos_lt_pos in Hlt. lia.
Qed.

(** Rounded to two decimals, a Number between 2 and 10 is one of the
    hundredths from 2.00 to 10.00. *)
Lemma roundTo_hundredths d :
  (2 <=? d)%float = true -> (d <=? 10)%float = true ->
  exists n, 200 <= n <= 1000 /\ roundTo 2 d = JS.ofDecimal false n (-2).
Proof.
  intros H2 H10.
  destruct (between_2_10 d H2 H10) as (m & e & Hd & [Hlo Hhi] & He).
  rewrite roundTo_spec, Hd.
  change (2 ^ 52) with 4503599627370496 in Hlo.
  change (2 ^ 53) with 9007199254740992 in Hhi.
  assert ((0x1.b1ae4d6e2ef5p+69 <=? abs d)%float = false) as ->.
  { rewrite leb_spec, abs_spec, Hd.
    destruct He as [->|[->|[-> _]]]; reflexivity. }
  change (0 - Z.of_nat 2) with (-2).
  eexists. split; [|reflexivity].
  unfold JS.nearestScaled, JS.roundHalfUpQ.
  destruct He as [->|[->|[-> Hm]]]; cbv beta iota.
  - change (10 ^ Z.of_nat 2) with 100. change (2 ^ 51) with 2251799813685248.
    split.
    + apply Z.div_le_lower_bound; lia.
    + apply Z.lt_succ_r, Z.div_lt_upper_bound; lia.
  - change (10 ^ Z.of_nat 2) with 100. change (2 ^ 50) with 1125899906842624.
    split.
    + apply Z.div_le_lower_bound; lia.
    + apply Z.lt_succ_r, Z.div_lt_upper_bound; lia.
  - change (10 ^ Z.of_nat 2) with 100. change (2 ^ 49) with 562949953421312.
    split.
    + apply Z.div_le_lower_bound; lia.
    + apply Z.lt_succ_r, Z.div_lt_upper_bound; lia.
Qed.

(** Rounded to two decimals, a Number between 2 and 10 stays there. *)
Theorem roundTo_between_2_10 d :
  (2 <=? d)%float = true -> (d <=? 10)%float = true ->
  (2 <=? roundTo 2 d)%float = true /\ (roundTo 2 d <=? 10)%float = true.
Proof.
  intros H2 H10.
  destruct (roundTo_hundredths d H2 H10) as (n & Hn & ->).
  apply hundredths_bounds, Hn.
Qed.

(** ** The texts of small integers *)

(** The text of a small integer is its digits. *)
Lemma NumberToString_small k :
  0 <= k <= 59 -> JS.NumberToString (JS.ofZ k) = JS.digitsOfZ k.
Proof.
  intros Hk. apply String.eqb_eq.
  apply (checked_range
           (fun k => String.eqb (JS.NumberToString (JS.ofZ k)) (JS.digitsOfZ k))
           0 60); [vm_compute; reflexivity | lia].
Qed.

(** The text of one more than a small integer. *)
Lemma NumberToString_succ k :
  0 <= k <= 9998 ->
  JS.NumberToString (JS.ofZ k +! 1%float) = JS.digitsOfZ (k + 1).
Proof.
  intros Hk. apply String.eqb_eq.
  apply (checked_range
           (fun k => String.eqb (JS.NumberToString (JS.ofZ k +! 1%float))
                                (JS.digitsOfZ (k + 1)))
           0 9999); [vm_compute; reflexivity | lia].
Qed.

End DrawFacts.

(* ================================================================== *)
(** * Flights of the flight API *)
(* ================================================================== *)

Import RoundFacts DrawFacts.

(** ** [Math.abs(x) || 0] *)

Lemma orNumber_falsy y :
  Prim2SF y = S754_nan \/ (exists s, Prim2SF y = S754_zero s) ->
  JS.orNumber y 0%float = 0%float.
Proof.
  unfold JS.orNumber, JS.isNaN, PrimFloat.is_nan. rewrite !eqb_spec.
  replace (Prim2SF 0) with (S754_zero false) by reflexivity.
  intros [->|[s ->]]; [reflexivity | destruct s; reflexivity].
Qed.

Lemma orNumber_truthy y :
  Prim2SF y <> S754_nan -> (forall s, Prim2SF y <> S754_zero s) ->
  JS.orNumber y 0%float = y.
Proof.
  unfold JS.orNumber, JS.isNaN, PrimFloat.is_nan. rewrite !eqb_spec.
  replace (Prim2SF 0) with (S754_zero false) by reflexivity.
  intros Hn Hz. rewrite FloatFacts.SFeqb_refl by exact Hn.
  destruct (Prim2SF y) as [s|s| |s m e]; try congruence;
    destruct s; reflexivity.
Qed.

(** [Math.abs(x) || 0] is a Number that is not negative; it is 0 when
    [x] is NaN. *)
Lemma orNumber_abs x :
  let d := JS.orNumber (abs x) 0%float in
  JS.isNaN d = false /\ (0 <=? d)%float = true
  /\ Prim2SF d <> S754_zero true
  /\ (JS.isNaN x = true -> d = 0%float).
Proof.
  cbv zeta. pose proof (abs_spec x) as Ha.
  assert (forall y, Prim2SF y <> S754_nan -> JS.isNaN y = true -> False) as Hno.
  { intros y Hy H. apply isNaN_false_iff in Hy. congruence. }
  destruct (Prim2SF x) as [s|s| |s m e] eqn:E; simpl in Ha.
  - rewrite orNumber_falsy by eauto. repeat split; try discriminate.
  - rewrite orNumber_truthy by (rewrite Ha; discriminate).
    split; [apply isNaN_false_iff; rewrite Ha; discriminate|].
    split; [rewrite leb_spec, Ha; reflexivity|].
    split; [rewrite Ha; discriminate|].
    intros H. elim (Hno x); [rewrite E; discriminate | exact H].
  - rewrite orNumber_falsy by auto. repeat split; try discriminate.
  - rewrite orNumber_truthy by (rewrite Ha; discriminate).
    split; [apply isNaN_false_iff; rewrite Ha; discriminate|].
    split; [rewrite leb_spec, Ha; reflexivity|].
    split; [rewrite Ha; discriminate|].
    intros H. elim (Hno x); [rewrite E; discriminate | exact H].
Qed.

(** ** The sign of a difference *)

Lemma binary_round_aux_abs s s' m e l :
  SFabs (binary_round_aux prec emax s m e l)
  = SFabs (binary_round_aux prec emax s' m e l).
Proof.
  unfold binary_round_aux.
  destruct (shr_fexp prec emax m e l) as [mrs' e'].
  destruct (shr_fexp prec emax _ e' loc_Exact) as [mrs'' e''].
  destruct (shr_m mrs''); try reflexivity.
  destruct (e'' <=? emax - prec); reflexivity.
Qed.

Lemma binary_round_abs s s' m e :
  SFabs (binary_round prec emax s m e) = SFabs (binary_round prec emax s' m e).
Proof.
  unfold binary_round. destruct (shl_align m e _) as [mz ez].
  apply binary_round_aux_abs.
Qed.

Lemma SFsub_abs_sym x y :
  SFabs (SFsub prec emax x y) = SFabs (SFsub prec emax y x).
Proof.
  destruct x as [sx|sx| |sx mx ex], y as [sy|sy| |sy my ey];
    try reflexivity; try (destruct sx, sy; reflexivity).
  unfold SFsub. rewrite (Z.min_comm ey ex). cbv zeta.
  set (X := cond_Zopp sx (Z.pos (fst (shl_align mx ex (Z.min ex ey))))).
  set (Y := cond_Zopp sy (Z.pos (fst (shl_align my ey (Z.min ex ey))))).
  replace (Y - X) with (- (X - Y)) by lia.
  destruct (X - Y) as [|p|p]; simpl; try reflexivity; apply binary_round_abs.
Qed.

Lemma SFdiv_abs u u' c :
  SFabs u = SFabs u' ->
  SFabs (SFdiv prec emax u c) = SFabs (SFdiv prec emax u' c).
Proof.
  destruct u as [su|su| |su mu eu], u' as [su'|su'| |su' mu' eu'];
    try discriminate; intros E; simpl in E; inversion E; subst;
    destruct c as [sc|sc| |sc mc ec]; try reflexivity.
  unfold SFdiv.
  destruct (SFdiv_core_binary prec emax (Z.pos mu') eu' (Z.pos mc) ec)
    as [[mz ez] lz].
  apply binary_round_aux_abs.
Qed.

(** The magnitude of a scaled difference does not depend on the order of
    its terms. *)
Lemma abs_difference_sym (a d c : float) :
  abs ((a - d) / c)%float = abs ((d - a) / c)%float.
Proof.
  apply Prim2SF_inj. rewrite !abs_spec, !div_spec, !sub_spec.
  apply SFdiv_abs, SFsub_abs_sym.
Qed.


Lemma isNaN_true x : Prim2SF x = S754_nan -> JS.isNaN x = true.
Proof.
  intros H. unfold JS.isNaN, PrimFloat.is_nan. rewrite eqb_spec, H.
  reflexivity.
Qed.

Lemma textOr_empty v : textOr v EmptyString = EmptyString ->
  forall d, textOr v d = d.
Proof. destruct v as [| |[|c r]]; simpl; intros H d; congruence. Qed.

Lemma append_nonempty s t : t <> EmptyString -> (s ++ t)%string <> EmptyString.
Proof. destruct s; simpl; [auto | discriminate]. Qed.

Lemma textOr_nonempty v d : d <> EmptyString -> textOr v d <> EmptyString.
Proof. destruct v as [| |[|c r]]; simpl; auto; discriminate. Qed.

(** X6: the duration of a flight of the API is a Number that is not NaN
    and not negative, whatever the two scheduled times are and however
    the host reads them; it is 0 when one of them is absent, null or
    empty, and when one of them is not a date. *)
Theorem X6_api_duration (parseDate : string -> float) (random : float)
    (flight : ApiFlight.t) (date : string) :
  let row := processAviationStackFlight parseDate random flight date in
  let departs := field Endpoint.scheduled (ApiFlight.departure flight) in
  let arrives := field Endpoint.scheduled (ApiFlight.arrival flight) in
  JS.isNaN (FlightRow.duration_hours row) = false
  /\ (0 <=? FlightRow.duration_hours row)%float = true
  /\ Prim2SF (FlightRow.duration_hours row) <> S754_zero true
  /\ (textOr departs EmptyString = EmptyString
      \/ textOr arrives EmptyString = EmptyString
      \/ newDate parseDate (textOr departs EmptyString) = None
      \/ newDate parseDate (textOr arrives EmptyString) = None ->
      FlightRow.duration_hours row = 0%float).
Proof.
  cbv zeta. unfold processAviationStackFlight. cbn [FlightRow.duration_hours].
  set (departs := field Endpoint.scheduled (ApiFlight.departure flight)).
  set (arrives := field Endpoint.scheduled (ApiFlight.arrival flight)).
  destruct departs as [| |[|c r]], arrives as [| |[|c' r']];
    try (repeat split; try discriminate; reflexivity).
  cbn [textOr].
  match goal with
  | |- context [JS.orNumber (abs ?x) _] =>
      destruct (orNumber_abs x) as (H1 & H2 & H3 & H4)
  end.
  split; [exact H1|]. split; [exact H2|]. split; [exact H3|].
  intros [H|[H|[H|H]]]; try discriminate; apply H4, isNaN_true;
    rewrite div_spec, sub_spec, H; cbn [JS.getTime].
  - replace (Prim2SF nan) with S754_nan by reflexivity.
    destruct (Prim2SF (JS.getTime _)); reflexivity.
  - replace (Prim2SF nan) with S754_nan by reflexivity. reflexivity.
Qed.

(** X7: the duration does not depend on which of the two scheduled
    times is the earlier: two flights of which one departs when the
    other arrives, and arrives when the other departs, get the same
    duration. *)
Theorem X7_api_duration_symmetric (parseDate : string -> float)
    (random random' : float) (f g : ApiFlight.t) (date date' : string) :
  field Endpoint.scheduled (ApiFlight.departure f)
  = field Endpoint.scheduled (ApiFlight.arrival g) ->
  field Endpoint.scheduled (ApiFlight.arrival f)
  = field Endpoint.scheduled (ApiFlight.departure g) ->
  FlightRow.duration_hours (processAviationStackFlight parseDate random f date)
  = FlightRow.duration_hours (processAviationStackFlight parseDate random' g date').
Proof.
  intros Hd Ha. unfold processAviationStackFlight. cbn [FlightRow.duration_hours].
  rewrite Hd, Ha.
  destruct (field Endpoint.scheduled (ApiFlight.arrival g)) as [| |[|c r]],
           (field Endpoint.scheduled (ApiFlight.departure g)) as [| |[|c' r']];
    try reflexivity.
  f_equal. apply abs_difference_sym.
Qed.

Definition endpointAt (time : string) : Endpoint.t :=
  {| Endpoint.airport := FieldNull; Endpoint.iata := FieldText "JFK";
     Endpoint.icao := FieldAbsent; Endpoint.scheduled := FieldText time |}.

Definition flightBetween (departs arrives : string) : ApiFlight.t :=
  {| ApiFlight.flight_status := FieldText "landed";
     ApiFlight.departure := Some (endpointAt departs);
     ApiFlight.arrival := Some (endpointAt arrives);
     ApiFlight.airline := None;
     ApiFlight.flight := None |}.

(** A parser for the examples: it reads the text as a plain number. *)
Definition parseNumber (text : string) : float := JS.parseFloat text.

Lemma X7_api_duration_symmetric_witness :
  FlightRow.duration_hours
    (processAviationStackFlight parseNumber 0 (flightBetween "7200000" "0")
                                "2026-11-02")
  = FlightRow.duration_hours
      (processAviationStackFlight parseNumber 0 (flightBetween "0" "7200000")
                                  "2026-11-03").
Proof.
  apply X7_api_duration_symmetric; reflexivity.
Defined.

(** X8: the texts of a row made from a flight of the API are never
    undefined: the two airport names are never empty (with neither a
    name nor a departure the name reads undefined Airport), the status
    is never empty and is scheduled when the API gives none, the date is
    the one asked for, and the id is an integer from 0 to 999999. *)
Theorem X8_api_texts (parseDate : string -> float) (random : float)
    (flight : ApiFlight.t) (date : string) :
  unitInterval random ->
  let row := processAviationStackFlight parseDate random flight date in
  FlightRow.departure_airport row <> EmptyString
  /\ FlightRow.arrival_airport row <> EmptyString
  /\ (ApiFlight.departure flight = None ->
      FlightRow.departure_airport row = "undefined Airport"%string
      /\ FlightRow.departure_iata row = EmptyString)
  /\ (ApiFlight.arrival flight = None ->
      FlightRow.arrival_airport row = "undefined Airport"%string
      /\ FlightRow.arrival_iata row = EmptyString)
  /\ (exists status,
        FlightRow.flight_status row = Some status /\ status <> EmptyString
        /\ (textOr (ApiFlight.flight_status flight) EmptyString = EmptyString ->
            status = "scheduled"%string))
  /\ FlightRow.flight_date row = date
  /\ exists k, 0 <= k <= 999999 /\ JS.integerOf (FlightRow.id row) = Some k.
Proof.
  intros Hr. cbv zeta. unfold processAviationStackFlight.
  cbn [FlightRow.departure_airport FlightRow.arrival_airport FlightRow.departure_iata
       FlightRow.arrival_iata FlightRow.flight_status FlightRow.flight_date FlightRow.id].
  split; [apply textOr_nonempty, append_nonempty; discriminate|].
  split; [apply textOr_nonempty, append_nonempty; discriminate|].
  split; [intros ->; split; reflexivity|].
  split; [intros ->; split; reflexivity|].
  split.
  { eexists. split; [reflexivity|].
    split; [apply textOr_nonempty; discriminate|].
    intros H. apply textOr_empty, H. }
  split; [reflexivity|].
  destruct (floor_draw_1000000 random 1000000%float Hr eq_refl)
    as [->|(k & Hk & ->)].
  - exists 0. split; [lia | reflexivity].
  - exists k. split; [exact Hk|]. apply integerOf_ofZ.
    change (2 ^ 53) with 9007199254740992. lia.
Qed.

Lemma X8_api_texts_witness :
  let row := processAviationStackFlight parseNumber 0.5
               {| ApiFlight.flight_status := FieldNull;
                  ApiFlight.departure := None;
                  ApiFlight.arrival := Some (endpointAt "0");
                  ApiFlight.airline := None;
                  ApiFlight.flight := None |} "2026-11-02" in
  FlightRow.departure_airport row = "undefined Airport"%string
  /\ FlightRow.arrival_airport row = "JFK Airport"%string
  /\ FlightRow.flight_status row = Some "scheduled"%string
  /\ JS.integerOf (FlightRow.id row) = Some 500000.
Proof.
  cbv zeta.
  pose proof (X8_api_texts parseNumber 0.5
                {| ApiFlight.flight_status := FieldNull;
                   ApiFlight.departure := None;
                   ApiFlight.arrival := Some (endpointAt "0");
                   ApiFlight.airline := None;
                   ApiFlight.flight := None |} "2026-11-02"
                ltac:(split; reflexivity)) as H.
  cbv zeta in H. destruct H as (_ & _ & Hd & _).
  split; [apply Hd; reflexivity|]. vm_compute. repeat split.
Defined.

(* ================================================================== *)
(** * Mock flights *)
(* ================================================================== *)

(** ** Array.from *)

Section ArrayFrom.
Context {A : Type} (f : nat -> Completion A).

Lemma arrayFrom_returns n : forall i L,
  arrayFrom f i n = Returns L ->
  List.length L = n
  /\ forall j, (j < n)%nat ->
       exists x, f (i + j)%nat = Returns x /\ nth_error L j = Some x.
Proof.
  induction n as [|n IH]; intros i L; cbn [arrayFrom].
  - intros [= <-]. split; [reflexivity | intros j Hj; lia].
  - destruct (f i) as [x|e] eqn:Ex; cbn [andThen]; [|discriminate].
    destruct (arrayFrom f (S i) n) as [rest|e] eqn:Er; cbn [andThen];
      [|discriminate].
    intros [= <-]. destruct (IH (S i) rest Er) as [Hlen Hnth].
    split; [simpl; congruence|]. intros [|j] Hj.
    + exists x. rewrite Nat.add_0_r. auto.
    + destruct (Hnth j ltac:(lia)) as (y & Hy & Hn).
      exists y. replace (i + S j)%nat with (S i + j)%nat by lia. auto.
Qed.

Lemma arrayFrom_throws n : forall i e,
  arrayFrom f i n = Throws e ->
  exists j, (j < n)%nat /\ f (i + j)%nat = Throws e.
Proof.
  induction n as [|n IH]; intros i e; cbn [arrayFrom]; [discriminate|].
  destruct (f i) as [x|e'] eqn:Ex; cbn [andThen].
  - destruct (arrayFrom f (S i) n) as [rest|e''] eqn:Er; cbn [andThen];
      [discriminate|].
    intros [= <-]. destruct (IH (S i) e'' Er) as (j & Hj & Hf).
    exists (S j). split; [lia|].
    replace (i + S j)%nat with (S i + j)%nat by lia. exact Hf.
  - intros [= <-]. exists 0%nat. split; [lia|].
    rewrite Nat.add_0_r. exact Ex.
Qed.

End ArrayFrom.

Lemma nth_error_all {A B : Type} (g : nat -> B) (h : A -> B) (L : list A) :
  (forall j, (j < List.length L)%nat ->
     exists x, nth_error L j = Some x /\ h x = g j) ->
  map h L = map g (seq 0 (List.length L)).
Proof.
  revert g. induction L as [|x L IH]; intros g H; [reflexivity|].
  cbn [List.length seq map]. f_equal.
  - destruct (H 0%nat ltac:(simpl; lia)) as (y & [= <-] & Hy). exact Hy.
  - rewrite <- seq_shift, map_map. apply IH. intros j Hj.
    destruct (H (S j) ltac:(simpl; lia)) as (y & Hn & Hy). eauto.
Qed.

Lemma nth_error_Forall {A : Type} (P : A -> Prop) (L : list A) :
  (forall j x, nth_error L j = Some x -> P x) -> Forall P L.
Proof.
  intros H. apply Forall_forall. intros x Hx.
  apply In_nth_error in Hx. destruct Hx as [j Hj]. eauto.
Qed.

(** ** A draw as an index *)

Lemma arrayAt_neg_zero {A : Type} (l : list A) :
  JS.arrayAt l neg_zero = nth_error l 0.
Proof.
  unfold JS.arrayAt. change (JS.integerOf neg_zero) with (Some 0).
  destruct l; reflexivity.
Qed.

Lemma arrayAt_index {A : Type} (l : list A) (x : float) K :
  Z.of_nat (List.length l) = K + 1 -> 0 <= K < 2 ^ 52 ->
  x = neg_zero \/ (exists k, 0 <= k <= K /\ x = JS.ofZ k) ->
  exists a, JS.arrayAt l x = Some a /\ In a l.
Proof.
  intros Hlen [HK0 HK] [->|(k & Hk & ->)].
  - rewrite arrayAt_neg_zero. destruct l as [|a l]; [simpl in Hlen; lia|].
    exists a. split; [reflexivity | left; reflexivity].
  - rewrite arrayAt_ofZ
      by (change (2 ^ 53) with 9007199254740992;
          change (2 ^ 52) with 4503599627370496 in HK; lia).
    destruct (nth_error l (Z.to_nat k)) as [a|] eqn:E.
    + exists a. split; [reflexivity|]. eapply nth_error_In, E.
    + apply nth_error_None in E. lia.
Qed.

Lemma pick_five {A : Type} (l : list A) r :
  List.length l = 5%nat -> unitInterval r ->
  exists a, JS.arrayAt l (pick l r) = Some a /\ In a l.
Proof.
  intros Hlen Hr. apply (arrayAt_index l _ 4); [rewrite Hlen; reflexivity | split; [lia | reflexivity]|].
  unfold pick. rewrite Hlen. apply floor_draw_5; [exact Hr | reflexivity].
Qed.

Lemma pick_four {A : Type} (l : list A) r :
  List.length l = 4%nat -> unitInterval r ->
  exists a, JS.arrayAt l (pick l r) = Some a /\ In a l.
Proof.
  intros Hlen Hr. apply (arrayAt_index l _ 3); [rewrite Hlen; reflexivity | split; [lia | reflexivity]|].
  unfold pick. rewrite Hlen. apply floor_draw_4; [exact Hr | reflexivity].
Qed.

(** ** The number and the clock of a mock flight *)

Lemma flight_number_text r :
  unitInterval r ->
  exists n, 1 <= n <= 9999
    /\ JS.NumberToString (JS.Math_floor (r *! 9999%float) +! 1%float)
       = JS.digitsOfZ n.
Proof.
  intros Hr.
  destruct (floor_draw_9999 r 9999%float Hr eq_refl) as [->|(k & Hk & ->)].
  - exists 1. split; [lia | vm_compute; reflexivity].
  - exists (k + 1). split; [lia | apply NumberToString_succ, Hk].
Qed.

(** Two digits. *)
Definition twoDigits (k : Z) : string := JS.padStart 2 (JS.digitsOfZ k).

Lemma clock_text (r N : float) K :
  (JS.Math_floor (r *! N) = neg_zero
   \/ exists k, 0 <= k <= K /\ JS.Math_floor (r *! N) = JS.ofZ k) ->
  0 <= K <= 59 ->
  exists k, 0 <= k <= K
    /\ JS.padStart 2 (JS.NumberToString (JS.Math_floor (r *! N))) = twoDigits k.
Proof.
  intros [->|(k & Hk & ->)] HK.
  - exists 0. split; [lia | reflexivity].
  - exists k. split; [exact Hk|]. unfold twoDigits.
    rewrite NumberToString_small by lia. reflexivity.
Qed.

Lemma departureText_clock date r4 r5 :
  unitInterval r4 -> unitInterval r5 ->
  exists h m, 0 <= h <= 23 /\ 0 <= m <= 59
    /\ departureText date r4 r5
       = (date ++ "T" ++ twoDigits h ++ ":" ++ twoDigits m ++ ":00")%string.
Proof.
  intros H4 H5. unfold departureText.
  destruct (clock_text r4 24%float 23
              (floor_draw_24 r4 24%float H4 eq_refl) ltac:(lia))
    as (h & Hh & ->).
  destruct (clock_text r5 60%float 59
              (floor_draw_60 r5 60%float H5 eq_refl) ltac:(lia))
    as (m & Hm & ->).
  exists h, m. auto.
Qed.

(** ** The two parts of a flight code *)

Lemma flight_code_parts a b digits :
  airlineCode (String a (String b digits)) = String a (String b EmptyString)
  /\ flightNumber (String a (String b digits)) = digits.
Proof.
  unfold airlineCode, flightNumber, JS.substring, JS.substringFrom.
  split; [destruct digits; reflexivity|].
  cbn [String.length Nat.sub String.substring]. rewrite Nat.sub_0_r.
  apply substring_all.
Qed.

(** ** One mock flight *)

Section MockFlights.
Variable parseDate : string -> float.
Variable random : nat -> float.
Variable date : string.
Hypothesis draws : forall n, unitInterval (random n).

(** What a row of index [i] with the times [td] and [ta] is like. *)
Definition mockRow (i : nat) (td ta : Z) (row : FlightRow.t) : Prop :=
  FlightRow.id row = JS.ofZ (Z.of_nat i + 1)
  /\ FlightRow.flight_date row = date
  /\ (exists status, FlightRow.flight_status row = Some status /\ In status statuses)
  /\ In (FlightRow.departure_iata row, FlightRow.departure_airport row) airports
  /\ In (FlightRow.arrival_iata row, FlightRow.arrival_airport row) airports
  /\ In (FlightRow.airline_iata row, FlightRow.airline_name row) airlines
  /\ FlightRow.departure_scheduled row = JS.toISOString td
  /\ FlightRow.arrival_scheduled row = JS.toISOString ta
  /\ (FlightRow.departure_icao row = EmptyString
      /\ FlightRow.arrival_icao row = EmptyString
      /\ FlightRow.flight_icao row = EmptyString)
  /\ (exists n, 1 <= n <= 9999
        /\ FlightRow.flight_number row = JS.digitsOfZ n
        /\ FlightRow.flight_iata row
           = (FlightRow.airline_iata row ++ JS.digitsOfZ n)%string)
  /\ FlightRow.duration_hours row = roundTo 2 (mockDuration random i).

Lemma mockFlight_cases (i : nat) :
  match mockDepTime parseDate random date i,
        mockArrTime parseDate random date i with
  | Some td, Some ta =>
      exists row, mockFlight parseDate random date i = Returns row
                  /\ mockRow i td ta row
  | _, _ => mockFlight parseDate random date i = Throws RangeError
  end.
Proof.
  unfold mockFlight. cbv zeta.
  destruct (pick_five airlines (random (8 * i + 0)) eq_refl (draws _))
    as (airline & -> & Hairline).
  destruct (pick_five airports (random (8 * i + 1)) eq_refl (draws _))
    as (dep & -> & Hdep).
  destruct (pick_five airports (random (8 * i + 2)) eq_refl (draws _))
    as (arr & -> & Harr).
  destruct (pick_four statuses (random (8 * i + 7)) eq_refl (draws _))
    as (status & -> & Hstatus).
  destruct (flight_number_text (random (8 * i + 3)) (draws _))
    as (n & Hn & ->).
  cbn [defined andThen].
  destruct (mockDepTime parseDate random date i) as [td|]; cbn [andThen];
    [|reflexivity].
  destruct (mockArrTime parseDate random date i) as [ta|]; cbn [andThen];
    [|reflexivity].
  eexists. split; [reflexivity|]. unfold mockRow.
  cbn [FlightRow.id FlightRow.flight_date FlightRow.flight_status FlightRow.departure_airport
       FlightRow.departure_iata FlightRow.departure_icao FlightRow.departure_scheduled
       FlightRow.arrival_airport FlightRow.arrival_iata FlightRow.arrival_icao
       FlightRow.arrival_scheduled FlightRow.airline_name FlightRow.airline_iata
       FlightRow.flight_number FlightRow.flight_iata FlightRow.flight_icao FlightRow.duration_hours].
  rewrite <- !surjective_pairing. repeat split; eauto.
Qed.

Lemma mockFlight_not_TypeError i :
  mockFlight parseDate random date i <> Throws TypeError.
Proof.
  pose proof (mockFlight_cases i) as H.
  destruct (mockDepTime parseDate random date i) as [td|];
    [destruct (mockArrTime parseDate random date i) as [ta|]|];
    try (rewrite H; discriminate).
  destruct H as (row & -> & _). discriminate.
Qed.

Lemma mockFlight_returns i row :
  mockFlight parseDate random date i = Returns row ->
  exists td ta,
    mockDepTime parseDate random date i = Some td
    /\ mockArrTime parseDate random date i = Some ta
    /\ mockRow i td ta row.
Proof.
  intros Hrow. pose proof (mockFlight_cases i) as H.
  destruct (mockDepTime parseDate random date i) as [td|];
    [destruct (mockArrTime parseDate random date i) as [ta|]|];
    try (rewrite H in Hrow; discriminate).
  destruct H as (row' & H & Hok). exists td, ta.
  rewrite H in Hrow. injection Hrow as <-. auto.
Qed.

Lemma mockFlight_throws i e :
  mockFlight parseDate random date i = Throws e ->
  e = RangeError
  /\ (mockDepTime parseDate random date i = None
      \/ mockArrTime parseDate random date i = None).
Proof.
  intros He. pose proof (mockFlight_cases i) as H.
  destruct (mockDepTime parseDate random date i) as [td|];
    [destruct (mockArrTime parseDate random date i) as [ta|]|].
  - destruct H as (row & H & _). rewrite H in He. discriminate.
  - rewrite H in He. injection He as <-. auto.
  - rewrite H in He. injection He as <-. auto.
Qed.

(** The rows that are returned, with their indices. *)
Lemma generateMockFlights_rows count rows :
  generateMockFlights parseDate random date count = Returns rows ->
  List.length rows = count
  /\ forall j row, nth_error rows j = Some row ->
       exists td ta,
         mockDepTime parseDate random date j = Some td
         /\ mockArrTime parseDate random date j = Some ta
         /\ mockRow j td ta row.
Proof.
  unfold generateMockFlights. intros H.
  destruct (arrayFrom_returns _ _ _ _ H) as [Hlen Hnth].
  split; [exact Hlen|]. intros j row Hj.
  assert (j < count)%nat as Hlt
      by (rewrite <- Hlen; apply nth_error_Some; congruence).
  destruct (Hnth j Hlt) as (x & Hx & Hn). simpl in Hx.
  assert (x = row) as -> by congruence.
  apply mockFlight_returns, Hx.
Qed.

End MockFlights.

(** ** The flights that are generated *)

(** The host of the examples reads every text as the same instant; the
    draws of the examples are all one half. *)
Definition fixedClock (_ : string) : float := 1700000000000%float.
Definition halves (_ : nat) : float := 0.5%float.

Lemma halves_draws n : unitInterval (halves n).
Proof. split; reflexivity. Qed.

(** X9: with draws of [Math.random] between 0 and 1, [generateMockFlights]
    never fails on a table index (no TypeError): either it returns
    [count] flights, with the ids 1, 2, ..., [count] and the date asked
    for, which is when the host reads a valid time of departure for
    every flight and the time of arrival is valid too; or it throws a
    RangeError, which is when one of these times is invalid. *)
Theorem X9_mock_flights_returned (parseDate : string -> float)
    (random : nat -> float) (date : string) (count : nat) :
  (forall n, unitInterval (random n)) ->
  match generateMockFlights parseDate random date count with
  | Returns rows =>
      List.length rows = count
      /\ map FlightRow.id rows = map (fun i => JS.ofZ (Z.of_nat i + 1)) (seq 0 count)
      /\ Forall (fun row => FlightRow.flight_date row = date) rows
      /\ forall i, (i < count)%nat ->
           mockDepTime parseDate random date i <> None
           /\ mockArrTime parseDate random date i <> None
  | Throws e =>
      e = RangeError
      /\ exists i, (i < count)%nat
           /\ (mockDepTime parseDate random date i = None
               \/ mockArrTime parseDate random date i = None)
  end.
Proof.
  intros draws.
  destruct (generateMockFlights parseDate random date count) as [rows|e] eqn:E.
  - destruct (generateMockFlights_rows parseDate random date draws count rows E)
      as [Hlen Hrows].
    split; [exact Hlen|]. split; [|split].
    + rewrite <- Hlen. apply nth_error_all. intros j Hj.
      destruct (nth_error rows j) as [row|] eqn:Ej;
        [|apply nth_error_None in Ej; lia].
      exists row. split; [reflexivity|].
      destruct (Hrows j row Ej) as (td & ta & _ & _ & Hid & _). exact Hid.
    + apply nth_error_Forall. intros j row Ej.
      destruct (Hrows j row Ej) as (td & ta & _ & _ & _ & Hdate & _).
      exact Hdate.
    + intros i Hi.
      destruct (nth_error rows i) as [row|] eqn:Ei;
        [|apply nth_error_None in Ei; lia].
      destruct (Hrows i row Ei) as (td & ta & -> & -> & _).
      split; discriminate.
  - unfold generateMockFlights in E.
    destruct (arrayFrom_throws _ _ _ _ E) as (j & Hj & Hf). simpl in Hf.
    destruct (mockFlight_throws parseDate random date draws j e Hf) as [-> H].
    split; [reflexivity|]. exists j. auto.
Qed.

Lemma X9_mock_flights_returned_witness :
  match generateMockFlights fixedClock halves "2026-11-02" 2 with
  | Returns rows =>
      List.length rows = 2%nat
      /\ map FlightRow.id rows = map (fun i => JS.ofZ (Z.of_nat i + 1)) (seq 0 2)
      /\ Forall (fun row => FlightRow.flight_date row = "2026-11-02"%string) rows
      /\ forall i, (i < 2)%nat ->
           mockDepTime fixedClock halves "2026-11-02" i <> None
           /\ mockArrTime fixedClock halves "2026-11-02" i <> None
  | Throws e =>
      e = RangeError
      /\ exists i, (i < 2)%nat
           /\ (mockDepTime fixedClock halves "2026-11-02" i = None
               \/ mockArrTime fixedClock halves "2026-11-02" i = None)
  end.
Proof. apply X9_mock_flights_returned, halves_draws. Defined.

(** The fields of a row that come from the tables. *)
Definition fromTables (row : FlightRow.t) : Prop :=
  In (FlightRow.airline_iata row, FlightRow.airline_name row) airlines
  /\ In (FlightRow.departure_iata row, FlightRow.departure_airport row) airports
  /\ In (FlightRow.arrival_iata row, FlightRow.arrival_airport row) airports
  /\ (exists status, FlightRow.flight_status row = Some status /\ In status statuses)
  /\ FlightRow.departure_icao row = EmptyString
  /\ FlightRow.arrival_icao row = EmptyString
  /\ FlightRow.flight_icao row = EmptyString.

(** The flight number of a row and its flight code. *)
Definition numbered (row : FlightRow.t) : Prop :=
  exists n, 1 <= n <= 9999
    /\ FlightRow.flight_number row = JS.digitsOfZ n
    /\ FlightRow.flight_iata row = (FlightRow.airline_iata row ++ FlightRow.flight_number row)%string
    /\ airlineCode (FlightRow.flight_iata row) = FlightRow.airline_iata row
    /\ flightNumber (FlightRow.flight_iata row) = FlightRow.flight_number row.

Lemma airlines_codes code name digits :
  In (code, name) airlines ->
  airlineCode (code ++ digits)%string = code
  /\ flightNumber (code ++ digits)%string = digits.
Proof.
  intros H. simpl in H.
  repeat (destruct H as [[= <- <-]|H]; [apply flight_code_parts|]).
  contradiction.
Qed.

(** X10: every mock flight that is returned has an airline that is one
    of the five of the table, with the name of its code, airports of
    departure and arrival that are each one of the five of the table
    with their names (possibly the same airport twice), a status that is
    one of the four, and empty ICAO codes; its flight number is the text
    of an integer from 1 to 9999, and its flight code is the airline
    code followed by that number, so that the two parts the flight
    search takes of the code are the airline code and the number. *)
Theorem X10_mock_flights_fields (parseDate : string -> float)
    (random : nat -> float) (date : string) (count : nat) :
  (forall n, unitInterval (random n)) ->
  match generateMockFlights parseDate random date count with
  | Returns rows => Forall (fun row => fromTables row /\ numbered row) rows
  | Throws _ => True
  end.
Proof.
  intros draws.
  destruct (generateMockFlights parseDate random date count) as [rows|e] eqn:E;
    [|exact I].
  destruct (generateMockFlights_rows parseDate random date draws count rows E)
    as [_ Hrows].
  apply nth_error_Forall. intros j row Ej.
  destruct (Hrows j row Ej)
    as (td & ta & _ & _ & _ & _ & Hst & Hdep & Harr & Hair & _ & _
        & (Hi1 & Hi2 & Hi3) & (n & Hn & Hnum & Hcode) & _).
  split; [unfold fromTables; auto 10|].
  exists n. rewrite Hnum. split; [exact Hn|]. split; [reflexivity|].
  split; [exact Hcode|]. rewrite Hcode.
  eapply airlines_codes, Hair.
Qed.

Lemma X10_mock_flights_fields_witness :
  match generateMockFlights fixedClock halves "2026-11-02" 2 with
  | Returns rows => Forall (fun row => fromTables row /\ numbered row) rows
  | Throws _ => True
  end.
Proof. apply X10_mock_flights_fields, halves_draws. Defined.

(** X11: the duration of every mock flight that is returned is between
    2 and 10 hours, both included. *)
Theorem X11_mock_flights_duration (parseDate : string -> float)
    (random : nat -> float) (date : string) (count : nat) :
  (forall n, unitInterval (random n)) ->
  match generateMockFlights parseDate random date count with
  | Returns rows =>
      Forall (fun row => (2 <=? FlightRow.duration_hours row)%float = true
                         /\ (FlightRow.duration_hours row <=? 10)%float = true) rows
  | Throws _ => True
  end.
Proof.
  intros draws.
  destruct (generateMockFlights parseDate random date count) as [rows|e] eqn:E;
    [|exact I].
  destruct (generateMockFlights_rows parseDate random date draws count rows E)
    as [_ Hrows].
  apply nth_error_Forall. intros j row Ej.
  destruct (Hrows j row Ej)
    as (td & ta & _ & _ & _ & _ & _ & _ & _ & _ & _ & _ & _ & _ & ->).
  apply roundTo_between_2_10; apply duration_bounds, draws.
Qed.

Lemma X11_mock_flights_duration_witness :
  match generateMockFlights fixedClock halves "2026-11-02" 2 with
  | Returns rows =>
      Forall (fun row => (2 <=? FlightRow.duration_hours row)%float = true
                         /\ (FlightRow.duration_hours row <=? 10)%float = true) rows
  | Throws _ => True
  end.
Proof. apply X11_mock_flights_duration, halves_draws. Defined.

(** X12: the text from which the host reads the time of departure of a
    mock flight is the date asked for followed by T and a time of day
    HH:MM:00, of two digits each, with HH from 00 to 23 and MM from 00
    to 59; the [departure_scheduled] of a flight that is returned is
    the ISO text of the time the host read. *)
Theorem X12_mock_flights_departure (parseDate : string -> float)
    (random : nat -> float) (date : string) (count : nat) :
  (forall n, unitInterval (random n)) ->
  (forall i, exists h m,
      0 <= h <= 23 /\ 0 <= m <= 59
      /\ mockDepTime parseDate random date i
         = newDate parseDate
             (date ++ "T" ++ twoDigits h ++ ":" ++ twoDigits m ++ ":00")%string)
  /\ match generateMockFlights parseDate random date count with
     | Returns rows =>
         map (fun row => Some (FlightRow.departure_scheduled row)) rows
         = map (fun i => option_map JS.toISOString
                           (mockDepTime parseDate random date i))
               (seq 0 count)
         /\ map (fun row => Some (FlightRow.arrival_scheduled row)) rows
            = map (fun i => option_map JS.toISOString
                              (mockArrTime parseDate random date i))
                  (seq 0 count)
     | Throws _ => True
     end.
Proof.
  intros draws. split.
  - intros i. unfold mockDepTime.
    destruct (departureText_clock date _ _ (draws (8 * i + 4)%nat)
                                  (draws (8 * i + 5)%nat))
      as (h & m & Hh & Hm & ->).
    exists h, m. auto.
  - destruct (generateMockFlights parseDate random date count) as [rows|e] eqn:E;
      [|exact I].
    destruct (generateMockFlights_rows parseDate random date draws count rows E)
      as [Hlen Hrows].
    rewrite <- Hlen.
    split; apply nth_error_all; intros j Hj;
      (destruct (nth_error rows j) as [row|] eqn:Ej;
         [|apply nth_error_None in Ej; lia]);
      exists row; (split; [reflexivity|]);
      destruct (Hrows j row Ej)
        as (td & ta & Etd & Eta & _ & _ & _ & _ & _ & _ & Hd & Ha & _);
      rewrite ?Etd, ?Eta; simpl; congruence.
Qed.

Lemma X12_mock_flights_departure_witness :
  (forall i, exists h m,
      0 <= h <= 23 /\ 0 <= m <= 59
      /\ mockDepTime fixedClock halves "2026-11-02" i
         = newDate fixedClock
             ("2026-11-02" ++ "T" ++ twoDigits h ++ ":" ++ twoDigits m ++ ":00")
             %string)
  /\ match generateMockFlights fixedClock halves "2026-11-02" 2 with
     | Returns rows =>
         map (fun row => Some (FlightRow.departure_scheduled row)) rows
         = map (fun i => option_map JS.toISOString
                           (mockDepTime fixedClock halves "2026-11-02" i))
               (seq 0 2)
         /\ map (fun row => Some (FlightRow.arrival_scheduled row)) rows
            = map (fun i => option_map JS.toISOString
                              (mockArrTime fixedClock halves "2026-11-02" i))
                  (seq 0 2)
     | Throws _ => True
     end.
Proof. apply X12_mock_flights_departure, halves_draws. Defined.

(** The two flights of the examples. *)
Example mock_flights_example :
  generateMockFlights fixedClock halves "2026-11-02" 2
  = Returns
      [ {| FlightRow.id := 1; FlightRow.flight_date := "2026-11-02";
           FlightRow.flight_status := Some "completed"%string;
           FlightRow.departure_airport := "Chicago O'Hare International Airport";
           FlightRow.departure_iata := "ORD"; FlightRow.departure_icao := "";
           FlightRow.departure_scheduled := "2023-11-14T22:13:20.000Z";
           FlightRow.arrival_airport := "Chicago O'Hare International Airport";
           FlightRow.arrival_iata := "ORD"; FlightRow.arrival_icao := "";
           FlightRow.arrival_scheduled := "2023-11-15T04:13:20.000Z";
           FlightRow.airline_name := "United Airlines"; FlightRow.airline_iata := "UA";
           FlightRow.flight_number := "5000"; FlightRow.flight_iata := "UA5000";
           FlightRow.flight_icao := ""; FlightRow.duration_hours := 6 |};
        {| FlightRow.id := 2; FlightRow.flight_date := "2026-11-02";
           FlightRow.flight_status := Some "completed"%string;
           FlightRow.departure_airport := "Chicago O'Hare International Airport";
           FlightRow.departure_iata := "ORD"; FlightRow.departure_icao := "";
           FlightRow.departure_scheduled := "2023-11-14T22:13:20.000Z";
           FlightRow.arrival_airport := "Chicago O'Hare International Airport";
           FlightRow.arrival_iata := "ORD"; FlightRow.arrival_icao := "";
           FlightRow.arrival_scheduled := "2023-11-15T04:13:20.000Z";
           FlightRow.airline_name := "United Airlines"; FlightRow.airline_iata := "UA";
           FlightRow.flight_number := "5000"; FlightRow.flight_iata := "UA5000";
           FlightRow.flight_icao := ""; FlightRow.duration_hours := 6 |} ]%float.
Proof. vm_compute. reflexivity. Qed.

(* ================================================================== *)
(** * The duration that is saved *)
(* ================================================================== *)





(** The hundredths from 2.00 to 10.00 are saved as they are. *)
Lemma savedDuration_hundredths n :
  200 <= n <= 1000 ->
  savedDuration (JS.JSNumber (JS.ofDecimal false n (-2)))
  = JS.ofDecimal false n (-2).
Proof.
  intros Hn. apply Leibniz.eqb_spec.
  apply (checked_range
           (fun n => Leibniz.eqb
                       (savedDuration (JS.JSNumber (JS.ofDecimal false n (-2))))
                       (JS.ofDecimal false n (-2)))
           200 801); [vm_compute; reflexivity | lia].
Qed.

(** X14: the duration of a mock flight that is returned is saved
    unchanged by the route that saves a flight: its text parses back to
    the same Number. *)
Theorem X14_mock_duration_saved (parseDate : string -> float)
    (random : nat -> float) (date : string) (count : nat) :
  (forall n, unitInterval (random n)) ->
  match generateMockFlights parseDate random date count with
  | Returns rows =>
      Forall (fun row =>
                savedDuration (JS.JSNumber (FlightRow.duration_hours row))
                = FlightRow.duration_hours row) rows
  | Throws _ => True
  end.
Proof.
  intros draws.
  destruct (generateMockFlights parseDate random date count) as [rows|e] eqn:E;
    [|exact I].
  destruct (generateMockFlights_rows parseDate random date draws count rows E)
    as [_ Hrows].
  apply nth_error_Forall. intros j row Ej.
  destruct (Hrows j row Ej)
    as (td & ta & _ & _ & _ & _ & _ & _ & _ & _ & _ & _ & _ & _ & ->).
  destruct (roundTo_hundredths (mockDuration random j))
    as (n & Hn & ->); try (apply duration_bounds, draws).
  apply savedDuration_hundredths, Hn.
Qed.

Lemma X14_mock_duration_saved_witness :
  match generateMockFlights fixedClock halves "2026-11-02" 2 with
  | Returns rows =>
      Forall (fun row =>
                savedDuration (JS.JSNumber (FlightRow.duration_hours row))
                = FlightRow.duration_hours row) rows
  | Throws _ => True
  end.
Proof. apply X14_mock_duration_saved, halves_draws. Defined.

(* ================================================================== *)
(** * The token of a request *)
(* ================================================================== *)

(** A text without the character [sep]. *)
Fixpoint freeOf (sep : ascii) (s : string) : bool :=
  match s with
  | EmptyString => true
  | String c r => negb (Ascii.eqb c sep) && freeOf sep r
  end.

Lemma split_cons sep s : exists piece rest, JS.split sep s = piece :: rest.
Proof.
  induction s as [|c r IH]; cbn [JS.split]; [eauto|].
  destruct (Ascii.eqb c sep); [eauto|].
  destruct IH as (piece & rest & ->). eauto.
Qed.

Lemma split_free sep s : freeOf sep s = true -> JS.split sep s = [s].
Proof.
  induction s as [|c r IH]; cbn [JS.split freeOf]; [reflexivity|].
  intros H. apply andb_true_iff in H. destruct H as [Hc Hr].
  apply negb_true_iff in Hc. rewrite Hc, (IH Hr). reflexivity.
Qed.

Lemma split_app sep s r :
  freeOf sep s = true ->
  JS.split sep (s ++ String sep r) = s :: JS.split sep r.
Proof.
  induction s as [|c s IH]; cbn [JS.split freeOf String.append].
  - intros _. rewrite Ascii.eqb_refl. reflexivity.
  - intros H. apply andb_true_iff in H. destruct H as [Hc Hs].
    apply negb_true_iff in Hc. rewrite Hc, (IH Hs). reflexivity.
Qed.

(** The second field of a header. *)
Lemma split_second scheme token rest :
  freeOf " " scheme = true -> freeOf " " token = true ->
  rest = EmptyString \/ (exists r, rest = String " " r) ->
  nth_error (JS.split " " (scheme ++ " " ++ token ++ rest)) 1 = Some token.
Proof.
  intros Hs Ht Hrest.
  change (scheme ++ " " ++ token ++ rest)%string
    with (scheme ++ String " " (token ++ rest))%string.
  rewrite (split_app " " scheme _ Hs). cbn [nth_error].
  destruct Hrest as [->|[r ->]].
  - rewrite append_empty_r, (split_free " " token Ht). reflexivity.
  - rewrite (split_app " " token r Ht). reflexivity.
Qed.

Section Token.
Context {User : Type} (verify : string -> option User).

(** What the middleware does with a token. *)
Definition verified (token : string) : Handled :=
  match token with
  | EmptyString => Answer 401 "Access token required"
  | _ =>
      match verify token with
      | Some user => Next user
      | None => Answer 403 "Invalid or expired token"
      end
  end.

Lemma authenticateToken_second scheme token rest :
  freeOf " " scheme = true -> freeOf " " token = true ->
  rest = EmptyString \/ (exists r, rest = String " " r) ->
  authenticateToken verify (Some (scheme ++ " " ++ token ++ rest)%string)
  = verified token.
Proof.
  intros Hs Ht Hrest. unfold authenticateToken, tokenOf.
  pose proof (split_second scheme token rest Hs Ht Hrest) as H.
  destruct (scheme ++ " " ++ token ++ rest)%string as [|c h] eqn:E.
  - destruct scheme; discriminate.
  - rewrite H. destruct token; reflexivity.
Qed.

Lemma authenticateToken_single word :
  freeOf " " word = true ->
  authenticateToken verify (Some word) = Answer 401 "Access token required".
Proof.
  intros Hw. unfold authenticateToken, tokenOf.
  destruct word as [|c r]; [reflexivity|].
  rewrite (split_free " " _ Hw). reflexivity.
Qed.

End Token.

(** X15: the middleware takes as the token what stands between the first
    space of the Authorization header and the next one (or the end); the
    word before the first space is not looked at, and what follows the
    second space is ignored.  Without a header, with a header without a
    space, or with an empty token, it answers 401; with a token that
    does not verify, 403; with one that does, the request goes on with
    the user of the token. *)
Theorem X15_token_of_header {User : Type} (verify : string -> option User)
    (scheme token rest : string) :
  freeOf " " scheme = true -> freeOf " " token = true ->
  rest = EmptyString \/ (exists r, rest = String " " r) ->
  authenticateToken verify (Some (scheme ++ " " ++ token ++ rest)%string)
  = match token with
    | EmptyString => Answer 401 "Access token required"
    | _ =>
        match verify token with
        | Some user => Next user
        | None => Answer 403 "Invalid or expired token"
        end
    end
  /\ authenticateToken verify (Some scheme) = Answer 401 "Access token required"
  /\ authenticateToken verify None = Answer 401 "Access token required".
Proof.
  intros Hs Ht Hrest. split; [|split].
  - apply authenticateToken_second; assumption.
  - apply authenticateToken_single, Hs.
  - reflexivity.
Qed.

(** The tokens of the example: only [secret] verifies, as user 7. *)
Definition onlySecret (token : string) : option Z :=
  if String.eqb token "secret" then Some 7 else None.

Lemma X15_token_of_header_witness :
  authenticateToken onlySecret (Some ("Basic" ++ " " ++ "secret" ++ " x y")%string)
  = Next 7
  /\ authenticateToken onlySecret (Some "Basic"%string)
     = Answer 401 "Access token required"
  /\ authenticateToken onlySecret None = Answer 401 "Access token required".
Proof.
  apply (X15_token_of_header onlySecret "Basic" "secret" " x y");
    [reflexivity | reflexivity | right; eexists; reflexivity].
Defined.

(* ================================================================== *)
(** * The date of a time *)
(* ================================================================== *)

Lemma freeOf_app sep a b :
  freeOf sep (a ++ b) = freeOf sep a && freeOf sep b.
Proof.
  induction a as [|c a IH]; cbn [String.append freeOf]; [reflexivity|].
  rewrite IH, andb_assoc. reflexivity.
Qed.

Lemma freeOf_zeros n : freeOf "T" (JS.zeros n) = true.
Proof. induction n as [|n IH]; [reflexivity | exact IH]. Qed.

Lemma freeOf_uint d : freeOf "T" (NilEmpty.string_of_uint d) = true.
Proof. induction d; cbn [NilEmpty.string_of_uint freeOf]; auto. Qed.

Lemma freeOf_digitsOfZ z : freeOf "T" (JS.digitsOfZ z) = true.
Proof.
  unfold JS.digitsOfZ, NilZero.string_of_int, NilZero.string_of_uint.
  destruct (Z.to_int z) as [d|d]; destruct d; try reflexivity;
    cbn [freeOf]; try apply freeOf_uint;
    exact (freeOf_uint _).
Qed.

Lemma freeOf_padStart n z : freeOf "T" (JS.padStart n (JS.digitsOfZ z)) = true.
Proof.
  unfold JS.padStart. rewrite freeOf_app, freeOf_zeros, freeOf_digitsOfZ.
  reflexivity.
Qed.

Lemma freeOf_yearText y : freeOf "T" (JS.yearText y) = true.
Proof.
  unfold JS.yearText.
  destruct ((0 <=? y) && (y <=? 9999)); [apply freeOf_padStart|].
  rewrite freeOf_app, freeOf_padStart. destruct (y <? 0); reflexivity.
Qed.

Lemma freeOf_dateText day : freeOf "T" (JS.dateText day) = true.
Proof.
  unfold JS.dateText.
  destruct (JS.MonthAndDate _ _) as [month date].
  rewrite !freeOf_app, freeOf_yearText, !freeOf_padStart. reflexivity.
Qed.

(** ** The calendar *)

Lemma YearFromDay_spec day :
  JS.DayFromYear (JS.YearFromDay day) <= day
  < JS.DayFromYear (JS.YearFromDay day + 1).
Proof.
  unfold JS.YearFromDay. cbv zeta.
  pose proof (Z.div_mod (day * 400) 146097 ltac:(lia)) as Hq.
  pose proof (Z.mod_pos_bound (day * 400) 146097 ltac:(lia)) as Hr.
  set (q := day * 400 / 146097) in *.
  set (r := (day * 400) mod 146097) in *.
  clearbody q r.
  destruct (JS.DayFromYear (1970 + q + 1) <=? day) eqn:E1;
    [|destruct (JS.DayFromYear (1970 + q) <=? day) eqn:E2];
    rewrite ?Z.leb_le, ?Z.leb_gt in *; unfold JS.DayFromYear in *;
    Z.div_mod_to_equations; lia.
Qed.

Lemma MonthAndDate_bounds d leap :
  0 <= d < 365 + leap -> 0 <= leap <= 1 ->
  0 <= fst (JS.MonthAndDate d leap) <= 11
  /\ 1 <= snd (JS.MonthAndDate d leap) <= 31.
Proof.
  intros Hd Hl. unfold JS.MonthAndDate.
  repeat match goal with
         | |- context [if ?b then _ else _] =>
             let E := fresh "E" in destruct b eqn:E
         end;
    rewrite ?Z.ltb_lt, ?Z.ltb_ge in *; cbn [fst snd]; lia.
Qed.

Lemma padStart_two k :
  0 <= k <= 99 -> String.length (JS.padStart 2 (JS.digitsOfZ k)) = 2%nat.
Proof.
  intros Hk. apply Nat.eqb_eq.
  apply (checked_range
           (fun k => Nat.eqb (String.length (JS.padStart 2 (JS.digitsOfZ k))) 2)
           0 100); [vm_compute; reflexivity | lia].
Qed.

Lemma yearText_four y :
  0 <= y <= 9999 -> String.length (JS.yearText y) = 4%nat.
Proof.
  intros Hy. apply Nat.eqb_eq.
  apply (checked_range
           (fun y => Nat.eqb (String.length (JS.yearText y)) 4)
           0 10000); [vm_compute; reflexivity | lia].
Qed.

Lemma length_app a b :
  String.length (a ++ b) = (String.length a + String.length b)%nat.
Proof. induction a as [|c a IH]; simpl; [reflexivity | rewrite IH; reflexivity]. Qed.

(** X16: [formatDate] of an invalid Date throws a RangeError; of any
    other it returns the part of [toISOString] before the T, which is
    the date of the UTC day of the time: two times of one UTC day have
    the same text.  From the year 0 to the year 9999 that text has the
    ten characters of YYYY-MM-DD, with a month from 01 to 12 and a day
    from 01 to 31. *)
Theorem X16_formatDate_day (t : Z) :
  formatDate None = Throws RangeError
  /\ formatDate (Some t) = Returns (Some (JS.dateText (t / 86400000)))
  /\ (forall t', t / 86400000 = t' / 86400000 ->
        formatDate (Some t) = formatDate (Some t'))
  /\ (-62167219200000 <= t <= 253402300799999 ->
      exists y m d,
        0 <= y <= 9999 /\ 1 <= m <= 12 /\ 1 <= d <= 31
        /\ JS.dateText (t / 86400000)
           = (JS.padStart 4 (JS.digitsOfZ y) ++ "-"
              ++ JS.padStart 2 (JS.digitsOfZ m) ++ "-"
              ++ JS.padStart 2 (JS.digitsOfZ d))%string
        /\ String.length (JS.dateText (t / 86400000)) = 10%nat).
Proof.
  assert (forall u, formatDate (Some u)
                    = Returns (Some (JS.dateText (u / 86400000)))) as Hday.
  { intros u. unfold formatDate, JS.toISOString.
    change (JS.dateText (u / 86400000) ++ "T"
            ++ JS.timeText (u mod 86400000) ++ "Z")%string
      with (JS.dateText (u / 86400000)
            ++ String "T" (JS.timeText (u mod 86400000) ++ "Z"))%string.
    rewrite split_app by apply freeOf_dateText. reflexivity. }
  split; [reflexivity|]. split; [apply Hday|].
  split; [intros t' Ht; rewrite !Hday, Ht; reflexivity|].
  intros Ht. set (day := t / 86400000).
  assert (-719528 <= day <= 2932896) as Hd
      by (unfold day; Z.div_mod_to_equations; lia).
  pose proof (YearFromDay_spec day) as Hy.
  set (y := JS.YearFromDay day) in *.
  assert (0 <= y <= 9999) as Hyr
      by (unfold JS.DayFromYear in Hy; Z.div_mod_to_equations; lia).
  set (leap := JS.DayFromYear (y + 1) - JS.DayFromYear y - 365).
  assert (0 <= leap <= 1) as Hl
      by (unfold leap, JS.DayFromYear; Z.div_mod_to_equations; lia).
  pose proof (MonthAndDate_bounds (day - JS.DayFromYear y) leap
                ltac:(unfold leap; lia) Hl) as [Hm Hdt].
  unfold JS.dateText. fold y. fold leap.
  destruct (JS.MonthAndDate (day - JS.DayFromYear y) leap) as [month date].
  cbn [fst snd] in Hm, Hdt.
  exists y, (month + 1), date.
  split; [exact Hyr|]. split; [lia|]. split; [exact Hdt|].
  assert (JS.yearText y = JS.padStart 4 (JS.digitsOfZ y)) as Hyt.
  { unfold JS.yearText.
    replace (0 <=? y) with true by (symmetry; apply Z.leb_le; lia).
    replace (y <=? 9999) with true by (symmetry; apply Z.leb_le; lia).
    reflexivity. }
  split; [rewrite Hyt; reflexivity|].
  rewrite !length_app, yearText_four, !padStart_two by lia. reflexivity.
Qed.

(* ================================================================== *)
(** * The time of arrival of a mock flight *)
(* ================================================================== *)

(** ** Values between two integers *)

(** [x] is a finite value between the integers [L] and [H]. *)
Definition valueIn (x : spec_float) (L H : Z) : Prop :=
  match x with
  | S754_zero _ => L <= 0 <= H
  | S754_finite s m e =>
      e <= 0
      /\ L * 2 ^ (- e) <= (if s then - Z.pos m else Z.pos m) <= H * 2 ^ (- e)
  | _ => False
  end.

Lemma valueIn_opp y L H : valueIn y (- H) (- L) -> valueIn (SFopp y) L H.
Proof.
  destruct y as [s|s| |s m e]; cbn [valueIn SFopp]; try tauto; [lia|].
  intros [He Hv]. split; [exact He|]. destruct s; cbn [negb]; lia.
Qed.

Lemma valid_opp y : valid_binary (SFopp y) = valid_binary y.
Proof. destruct y; reflexivity. Qed.

(** ** Rounding, with either sign *)

Lemma binary_round_aux_opp m e l :
  binary_round_aux prec emax true m e l
  = SFopp (binary_round_aux prec emax false m e l).
Proof.
  unfold binary_round_aux.
  destruct (shr_fexp prec emax m e l) as [mrs' e'].
  destruct (shr_fexp prec emax _ e' loc_Exact) as [mrs'' e''].
  destruct (shr_m mrs''); try reflexivity.
  destruct (e'' <=? emax - prec); reflexivity.
Qed.

Lemma binary_round_opp m e :
  binary_round prec emax true m e = SFopp (binary_round prec emax false m e).
Proof.
  unfold binary_round. destruct (shl_align m e _) as [mz ez].
  apply binary_round_aux_opp.
Qed.

(** Rounding a value whose exponent is above that of a binary64 gives
    more than it. *)
Lemma round_above_coarser (p mc : positive) (ex ec : Z) :
  ex <= fexp prec emax (Zdigits2 (Z.pos p) + ex) ->
  bounded prec emax mc ec = true ->
  ec < ex ->
  aboveFloat (binary_round_aux prec emax false (Z.pos p) ex loc_Exact) mc ec.
Proof.
  intros Hal Hc Hlt.
  destruct (binary_round_aux_exact p ex Hal)
    as (r & [Hr1 Hr2] & Hr3 & Hr4 & Hr5 & ->).
  destruct (bounded_canonical mc ec Hc) as [Hcan Hec].
  set (e1 := fexp prec emax (Zdigits2 (Z.pos p) + ex)) in *.
  assert (2 ^ 52 <= r) as Hr by (apply Hr5; lia).
  change (2 ^ 52) with 4503599627370496 in Hr.
  destruct (roundResult_cases r e1 ltac:(lia))
    as [[_ ?]|[[-> _]|(mr & er & -> & Hcase & Her)]];
    [lia | left; reflexivity|].
  right. exists mr, er. split; [reflexivity|]. left.
  destruct Hcase as [(_ & -> & _)|(_ & -> & _)]; lia.
Qed.

(** ** The binary64 of an integer *)

Lemma binary_round_integer p :
  Z.pos p < 2 ^ 53 ->
  exists mc ec,
    binary_round prec emax false p 0 = S754_finite false mc ec
    /\ bounded prec emax mc ec = true
    /\ -52 <= ec <= 0
    /\ Z.pos mc = Z.pos p * 2 ^ (- ec)
    /\ 2 ^ 52 <= Z.pos mc < 2 ^ 53.
Proof.
  intros Hp. set (d := Z.pos (digits2_pos p)).
  pose proof (digits_bounds p) as [Hlo Hhi]. fold d in Hlo, Hhi.
  assert (1 <= d <= 53) as Hd.
  { split; [unfold d; lia|]. apply digits_le_of_lt; [lia | exact Hp]. }
  unfold binary_round.
  pose proof (shl_align_spec p 0
                (fexp prec emax (Z.pos (digits2_pos p) + 0))) as Hs.
  destruct (shl_align p 0 (fexp prec emax (Z.pos (digits2_pos p) + 0)))
    as [mz ez].
  rewrite fexp_eq in Hs. fold d in Hs. destruct Hs as [Hez Hmz].
  assert (ez = d - 53) as -> by lia.
  replace (0 - (d - 53)) with (53 - d) in Hmz by lia.
  assert (2 ^ 52 <= Z.pos mz < 2 ^ 53) as Hm.
  { rewrite Hmz. split.
    - replace 52 with ((d - 1) + (53 - d)) by lia.
      rewrite Z.pow_add_r by lia.
      apply Z.mul_le_mono_nonneg_r; [apply Z.pow_nonneg; lia | exact Hlo].
    - replace 53 with (d + (53 - d)) at 2 by lia.
      rewrite Z.pow_add_r by lia.
      apply Z.mul_lt_mono_pos_r; [apply Z.pow_pos_nonneg; lia | exact Hhi]. }
  assert (Z.pos (digits2_pos mz) = 53) as Hdz.
  { pose proof (digits_le_of_lt mz 53 ltac:(lia) ltac:(lia)).
    pose proof (digits_ge_of_le mz 52 ltac:(lia) ltac:(lia)). lia. }
  assert (fexp prec emax (Zdigits2 (Z.pos mz) + (d - 53)) = d - 53) as He1.
  { rewrite fexp_eq. simpl Zdigits2. rewrite Hdz. lia. }
  destruct (binary_round_aux_exact mz (d - 53))
    as (r & _ & Hr & _ & _ & ->).
  { cbv zeta. rewrite He1. lia. }
  cbv zeta in Hr. rewrite He1 in Hr.
  replace (d - 53 - (d - 53)) with 0 in Hr by lia.
  rewrite Z.pow_0_r, Z.mod_1_r, Z.div_1_r in Hr.
  rewrite (Hr eq_refl). cbv zeta. rewrite He1.
  unfold roundResult.
  replace (Z.pos mz =? 0) with false by reflexivity.
  replace (Z.pos mz =? 2 ^ 53) with false
    by (symmetry; apply Z.eqb_neq; lia).
  replace (d - 53 <=? 971) with true by (symmetry; apply Z.leb_le; lia).
  rewrite Pos2Z.id. exists mz, (d - 53).
  split; [reflexivity|]. split.
  { unfold bounded, canonical_mantissa. rewrite fexp_eq, Hdz.
    apply andb_true_iff. split; [apply Z.eqb_eq; lia | apply Z.leb_le].
    change (emax - prec) with 971. lia. }
  split; [lia|]. split; [|exact Hm].
  rewrite Hmz. f_equal. f_equal. lia.
Qed.

(** The binary64 of an integer of either sign. *)
Lemma ofZ_signed t :
  t <> 0 -> - 2 ^ 53 < t < 2 ^ 53 ->
  exists mt et,
    Prim2SF (JS.ofZ t) = S754_finite (t <? 0) mt et
    /\ bounded prec emax mt et = true
    /\ -52 <= et <= 0
    /\ Z.pos mt = Z.abs t * 2 ^ (- et)
    /\ 2 ^ 52 <= Z.pos mt < 2 ^ 53.
Proof.
  intros Ht Hr. destruct t as [|p|p]; try lia;
    destruct (binary_round_integer p ltac:(lia))
      as (mc & ec & E & Hb & He & Hm & Hn);
    exists mc, ec; (split; [|auto]);
    unfold JS.ofZ; cbn [binary_normalize].
  - rewrite E. apply Prim2SF_SF2Prim. exact Hb.
  - rewrite binary_round_opp, E. apply Prim2SF_SF2Prim. exact Hb.
Qed.

(** ** From the order of binary64 values to their values *)

Lemma pow2_two a : 0 < a -> 2 <= 2 ^ a.
Proof.
  intros Ha. change 2 with (2 ^ 1) at 1. apply Z.pow_le_mono_r; lia.
Qed.

Lemma below_value y H mc ec :
  belowFloat y mc ec -> ec <= 0 -> Z.pos mc = H * 2 ^ (- ec) ->
  2 ^ 52 <= Z.pos mc ->
  y = S754_zero false
  \/ exists mr er, y = S754_finite false mr er /\ er <= 0
                   /\ Z.pos mr <= H * 2 ^ (- er).
Proof.
  intros [->|(mr & er & -> & Hmr & Hcase)] Hec Hmc Hn; [left; reflexivity|].
  right. exists mr, er. split; [reflexivity|].
  destruct Hcase as [Hlt|[-> Hle]]; [|split; lia].
  split; [lia|].
  replace (- er) with (- ec + (ec - er)) by lia.
  rewrite Z.pow_add_r, Z.mul_assoc, <- Hmc by lia.
  pose proof (pow2_two (ec - er) ltac:(lia)).
  change (2 ^ 53) with 9007199254740992 in Hmr.
  change (2 ^ 52) with 4503599627370496 in Hn. nia.
Qed.

Lemma above_value y L mc ec :
  aboveFloat y mc ec -> valid_binary y = true ->
  -1074 < ec -> ec <= 0 -> Z.pos mc = L * 2 ^ (- ec) -> Z.pos mc < 2 ^ 53 ->
  y = S754_infinity false
  \/ exists mr er, y = S754_finite false mr er
                   /\ (er <= 0 -> L * 2 ^ (- er) <= Z.pos mr).
Proof.
  intros [->|(mr & er & -> & Hcase)] Hv Hec0 Hec Hmc Hlt; [left; reflexivity|].
  right. exists mr, er. split; [reflexivity|]. intros Her.
  destruct Hcase as [Hgt|[-> Hle]]; [|lia].
  simpl in Hv. destruct (bounded_canonical mr er Hv) as [Hcan _].
  pose proof (digits_bounds mr) as [Hlo _].
  assert (Z.pos (digits2_pos mr) = 53) as Hd by lia.
  rewrite Hd in Hlo. change (2 ^ (53 - 1)) with 4503599627370496 in Hlo.
  assert (L * 2 ^ (- er) * 2 ^ (er - ec) = Z.pos mc) as HL.
  { rewrite Hmc, <- Z.mul_assoc, <- Z.pow_add_r by lia. f_equal. f_equal. lia. }
  pose proof (pow2_two (er - ec) ltac:(lia)).
  change (2 ^ 53) with 9007199254740992 in Hlt.
  destruct (Z_le_gt_dec (L * 2 ^ (- er)) 0); [lia | nia].
Qed.

(** A positive value in canonical form that is at least 1 is normal. *)
Lemma positive_normal m e L :
  bounded prec emax m e = true -> 0 < L -> e <= 0 ->
  L * 2 ^ (- e) <= Z.pos m ->
  -53 < e /\ 2 ^ 52 <= Z.pos m < 2 ^ 53.
Proof.
  intros Hb HL He Hm. destruct (bounded_canonical m e Hb) as [Hcan _].
  pose proof (digits_bounds m) as [Hlo Hhi].
  set (d := Z.pos (digits2_pos m)) in *.
  assert (d <= 53) as Hd by lia.
  assert (Z.pos m < 2 ^ 53) as Hlt.
  { eapply Z.lt_le_trans; [exact Hhi|]. apply Z.pow_le_mono_r; lia. }
  assert (0 < 2 ^ (- e)) as Hp by (apply Z.pow_pos_nonneg; lia).
  assert (2 ^ (- e) < 2 ^ 53) as Hpe by nia.
  apply Z.pow_lt_mono_r_iff in Hpe; try lia.
  assert (d = 53) as Hd53 by lia. rewrite Hd53 in Hlo.
  split; [lia|]. split; [exact Hlo | exact Hlt].
Qed.

(** ** Rounding between two integers *)

(** Rounding a value between two integers gives a value between them. *)
Lemma aux_between (p : positive) (ex L H : Z) :
  2 ^ 52 <= Z.pos p -> ex <= 0 -> H < 2 ^ 53 ->
  L * 2 ^ (- ex) <= Z.pos p <= H * 2 ^ (- ex) ->
  valid_binary (binary_round_aux prec emax false (Z.pos p) ex loc_Exact) = true ->
  valueIn (binary_round_aux prec emax false (Z.pos p) ex loc_Exact) L H.
Proof.
  intros Hp Hex HH [HLp HpH] Hv.
  pose proof (aligned_of_digits p ex Hp) as Hal.
  assert (0 < 2 ^ (- ex)) as Hpow by (apply Z.pow_pos_nonneg; lia).
  assert (0 < H) as H0 by nia.
  assert (L <= H) as HLH by nia.
  destruct (binary_round_integer (Z.to_pos H))
    as (mh & eh & _ & Hbh & Heh & Hmh & Hnh); [rewrite Z2Pos.id; lia|].
  rewrite Z2Pos.id in Hmh by lia.
  change (2 ^ 52) with 4503599627370496 in *.
  change (2 ^ 53) with 9007199254740992 in *.
  assert (ex <= eh) as Hfin.
  { destruct (Z_le_gt_dec ex eh) as [|Hgt]; [assumption | exfalso].
    assert (H * 2 ^ (- ex) * 2 ^ (ex - eh) = Z.pos mh) as E.
    { rewrite Hmh, <- Z.mul_assoc, <- Z.pow_add_r by lia.
      f_equal. f_equal. lia. }
    pose proof (pow2_two (ex - eh) ltac:(lia)). nia. }
  assert (belowFloat (binary_round_aux prec emax false (Z.pos p) ex loc_Exact)
                     mh eh) as Hbelow.
  { apply round_below; [exact Hal | exact Hbh | exact Hfin|].
    rewrite Hmh, <- Z.mul_assoc, <- Z.pow_add_r by lia.
    replace (- eh + (eh - ex)) with (- ex) by lia. exact HpH. }
  assert (0 < L ->
          exists ml el,
            aboveFloat (binary_round_aux prec emax false (Z.pos p) ex loc_Exact)
                       ml el
            /\ -52 <= el <= 0 /\ Z.pos ml = L * 2 ^ (- el)
            /\ Z.pos ml < 9007199254740992) as Habove.
  { intros HL.
    destruct (binary_round_integer (Z.to_pos L))
      as (ml & el & _ & Hbl & Hel & Hml & Hnl);
      [rewrite Z2Pos.id; change (2 ^ 53) with 9007199254740992; lia|].
    rewrite Z2Pos.id in Hml by lia.
    change (2 ^ 53) with 9007199254740992 in Hnl.
    exists ml, el. split; [|repeat split; lia].
    destruct (Z_le_gt_dec ex el) as [Hle|Hgt].
    - apply round_above; [exact Hal | exact Hbl | exact Hle|].
      rewrite Hml, <- Z.mul_assoc, <- Z.pow_add_r by lia.
      replace (- el + (el - ex)) with (- ex) by lia. exact HLp.
    - apply round_above_coarser; [exact Hal | exact Hbl | lia]. }
  set (Y := binary_round_aux prec emax false (Z.pos p) ex loc_Exact) in *.
  clearbody Y.
  destruct (below_value Y H mh eh Hbelow ltac:(lia) Hmh ltac:(lia))
    as [->|(mr & er & -> & Her & Hmr)].
  - cbn [valueIn]. split; [|lia].
    destruct (Z_le_gt_dec L 0) as [|HL]; [assumption | exfalso].
    destruct (Habove ltac:(lia)) as (ml & el & [E|(mr & er & E & _)] & _);
      discriminate.
  - cbn [valueIn]. split; [exact Her|]. split; [|exact Hmr].
    assert (0 < 2 ^ (- er)) by (apply Z.pow_pos_nonneg; lia).
    destruct (Z_le_gt_dec L 0) as [HL|HL]; [nia|].
    destruct (Habove ltac:(lia)) as (ml & el & Ha & Hel & Hml & Hnl).
    destruct (above_value _ L ml el Ha Hv ltac:(lia) ltac:(lia) Hml Hnl)
      as [E|(mr' & er' & E & Hb)]; [discriminate|].
    injection E as <- <-. apply Hb, Her.
Qed.

Lemma round_between (p : positive) (ez L H : Z) :
  -1000 <= ez <= 0 -> H < 2 ^ 53 ->
  L * 2 ^ (- ez) <= Z.pos p <= H * 2 ^ (- ez) ->
  valid_binary (binary_round prec emax false p ez) = true ->
  valueIn (binary_round prec emax false p ez) L H.
Proof.
  intros Hez HH [HLp HpH]. unfold binary_round.
  pose proof (shl_align_spec p ez
                (fexp prec emax (Z.pos (digits2_pos p) + ez))) as Hs.
  destruct (shl_align p ez (fexp prec emax (Z.pos (digits2_pos p) + ez)))
    as [mz e'].
  destruct Hs as [He' Hmz]. rewrite fexp_eq in He'.
  pose proof (digits_bounds p) as [Hlo Hhi].
  set (d := Z.pos (digits2_pos p)) in *.
  assert (1 <= d) as Hd by (unfold d; lia).
  assert (0 < 2 ^ (ez - e')) as Hp by (apply Z.pow_pos_nonneg; lia).
  intros Hv. apply aux_between; [|lia | exact HH | | exact Hv].
  - rewrite Hmz. destruct (Z_le_gt_dec d 53) as [Hle|Hgt].
    + assert (e' = d + ez - 53) as -> by lia.
      replace (ez - (d + ez - 53)) with (53 - d) by lia.
      replace 52 with ((d - 1) + (53 - d)) by lia.
      rewrite Z.pow_add_r by lia.
      apply Z.mul_le_mono_nonneg_r; [apply Z.pow_nonneg; lia | exact Hlo].
    + assert (e' = ez) as -> by lia.
      rewrite Z.sub_diag, Z.pow_0_r, Z.mul_1_r.
      eapply Z.le_trans; [|exact Hlo]. apply Z.pow_le_mono_r; lia.
  - rewrite Hmz. replace (- e') with (- ez + (ez - e')) by lia.
    rewrite Z.pow_add_r, !Z.mul_assoc by lia.
    split; apply Z.mul_le_mono_nonneg_r; lia.
Qed.

Lemma normalize_between V ez L H :
  -1000 <= ez <= 0 -> - 2 ^ 53 < L -> H < 2 ^ 53 ->
  L * 2 ^ (- ez) <= V <= H * 2 ^ (- ez) ->
  valid_binary (binary_normalize prec emax V ez false) = true ->
  valueIn (binary_normalize prec emax V ez false) L H.
Proof.
  intros Hez HL HH HV.
  assert (0 < 2 ^ (- ez)) as Hp by (apply Z.pow_pos_nonneg; lia).
  destruct V as [|p|p]; cbn [binary_normalize].
  - intros _. cbn [valueIn]. nia.
  - apply round_between; assumption.
  - rewrite binary_round_opp, valid_opp. intros Hv.
    apply valueIn_opp, round_between; [exact Hez | lia | | exact Hv].
    rewrite !Z.mul_opp_l. lia.
Qed.

(** ** Products and sums *)

(** The product of a positive value between [L] and [H] and of the
    binary64 of the integer [K]. *)
Lemma mul_value (x c : float) (L H K : Z) (mk : positive) (ek : Z) :
  valueIn (Prim2SF x) L H -> 0 < L ->
  Prim2SF c = S754_finite false mk ek ->
  ek <= 0 -> Z.pos mk = K * 2 ^ (- ek) -> 2 ^ 52 <= Z.pos mk ->
  H * K < 2 ^ 53 ->
  valueIn (Prim2SF (x *! c)) (L * K) (H * K).
Proof.
  intros Hx HL Hc Hek Hmk Hnk HHK.
  pose proof (Prim2SF_valid x) as Hvx.
  pose proof (Prim2SF_valid (x *! c)) as Hv.
  rewrite mul_spec, Hc in *.
  destruct (Prim2SF x) as [s|s| |s m e]; cbn [valueIn] in Hx; try tauto;
    [lia|].
  destruct Hx as [He [Hlo Hhi]].
  assert (0 < 2 ^ (- e)) as Hpe by (apply Z.pow_pos_nonneg; lia).
  assert (0 < 2 ^ (- ek)) as Hpk by (apply Z.pow_pos_nonneg; lia).
  destruct s; [nia|].
  destruct (positive_normal m e L Hvx HL He Hlo) as [_ [Hm _]].
  change (SFmul prec emax (S754_finite false m e) (S754_finite false mk ek))
    with (binary_round_aux prec emax false (Z.pos (m * mk)) (e + ek) loc_Exact)
    in *.
  apply aux_between; [|lia | exact HHK | | exact Hv].
  - rewrite Pos2Z.inj_mul. change (2 ^ 52) with 4503599627370496 in *. nia.
  - replace (- (e + ek)) with (- e + - ek) by lia.
    rewrite Z.pow_add_r, Pos2Z.inj_mul by lia.
    replace (L * K * (2 ^ (- e) * 2 ^ (- ek)))
      with (L * 2 ^ (- e) * (K * 2 ^ (- ek))) by ring.
    replace (H * K * (2 ^ (- e) * 2 ^ (- ek)))
      with (H * 2 ^ (- e) * (K * 2 ^ (- ek))) by ring.
    rewrite <- Hmk. split; apply Z.mul_le_mono_nonneg_r; lia.
Qed.

(** The sum of the binary64 of an integer and of a positive value
    between [L] and [H]. *)
Lemma add_value (t : Z) (y : float) (L H : Z) :
  - 2 ^ 53 < t < 2 ^ 53 -> - 2 ^ 53 < t + L -> t + H < 2 ^ 53 ->
  0 < L -> valueIn (Prim2SF y) L H ->
  valueIn (Prim2SF (JS.ofZ t +! y)) (t + L) (t + H).
Proof.
  intros Ht HtL HtH HL Hy.
  pose proof (Prim2SF_valid y) as Hvy.
  pose proof (Prim2SF_valid (JS.ofZ t +! y)) as Hv.
  rewrite add_spec in *. unfold SF64add in *.
  destruct (Prim2SF y) as [s|s| |s m e]; cbn [valueIn] in Hy; try tauto;
    [lia|].
  destruct Hy as [He [Hlo Hhi]].
  assert (0 < 2 ^ (- e)) as Hpe by (apply Z.pow_pos_nonneg; lia).
  destruct s; [nia|].
  destruct (positive_normal m e L Hvy HL He Hlo) as [Hemin _].
  destruct (Z.eq_dec t 0) as [->|Hnz].
  { change (Prim2SF (JS.ofZ 0)) with (S754_zero false).
    cbn [SFadd valueIn]. split; [exact He|]. lia. }
  destruct (ofZ_signed t Hnz Ht) as (mt & et & E & _ & Het & Hmt & _).
  rewrite E in *. clear E. unfold SFadd in *. cbv zeta in *.
  set (ez := Z.min et e) in *.
  pose proof (shl_align_spec mt et ez) as H1.
  pose proof (shl_align_spec m e ez) as H2.
  destruct (shl_align mt et ez) as [a1 x1].
  destruct (shl_align m e ez) as [a2 x2].
  destruct H1 as [-> H1], H2 as [-> H2].
  replace (Z.min et ez) with ez in H1 by (unfold ez; lia).
  replace (Z.min e ez) with ez in H2 by (unfold ez; lia).
  cbn [fst cond_Zopp] in *.
  assert (0 < 2 ^ (- ez)) as Hpz by (apply Z.pow_pos_nonneg; unfold ez; lia).
  assert (2 ^ (- ez) = 2 ^ (- et) * 2 ^ (et - ez)) as Etz.
  { rewrite <- Z.pow_add_r by (unfold ez; lia). f_equal. lia. }
  assert (2 ^ (- ez) = 2 ^ (- e) * 2 ^ (e - ez)) as Eez.
  { rewrite <- Z.pow_add_r by (unfold ez; lia). f_equal. lia. }
  assert (0 < 2 ^ (e - ez)) as Hpd
      by (apply Z.pow_pos_nonneg; unfold ez; lia).
  assert (cond_Zopp (t <? 0) (Z.pos a1) = t * 2 ^ (- ez)) as E1.
  { rewrite H1, Hmt, <- Z.mul_assoc, <- Etz.
    destruct (Z.ltb_spec t 0); cbn [cond_Zopp]; [|f_equal; lia].
    rewrite <- Z.mul_opp_l. f_equal. lia. }
  apply normalize_between;
    [unfold ez; lia | exact HtL | exact HtH | | exact Hv].
  rewrite E1, H2, !Z.mul_add_distr_r, Eez, !Z.mul_assoc.
  split; apply Z.add_le_mono_l, Z.mul_le_mono_nonneg_r; lia.
Qed.

(** ** TimeClip of a value between two integers *)

Lemma TimeClip_value x L H ta :
  valueIn (Prim2SF x) L H -> JS.TimeClip x = Some ta -> L <= ta <= H.
Proof.
  unfold JS.TimeClip.
  destruct (Prim2SF x) as [s|s| |s m e]; cbn [valueIn]; try tauto.
  - intros HLH [= <-]. exact HLH.
  - intros [He [Hlo Hhi]].
    destruct e as [|k|k]; try lia.
    + change (2 ^ (- 0)) with 1 in *. change (2 ^ 0) with 1.
      destruct (_ <? _); [discriminate|]. intros [= <-].
      destruct s; lia.
    + change (- Z.neg k) with (Z.pos k) in *.
      assert (0 < 2 ^ Z.pos k) as Hp by (apply Z.pow_pos_nonneg; lia).
      destruct (_ <? _); [discriminate|]. intros [= <-].
      pose proof (Z.mul_div_le (Z.pos m) (2 ^ Z.pos k) Hp) as Hd1.
      pose proof (Z.mul_succ_div_gt (Z.pos m) (2 ^ Z.pos k) Hp) as Hd2.
      destruct s; nia.
Qed.

Lemma TimeClip_valid x L H :
  valueIn (Prim2SF x) L H ->
  -8640000000000000 <= L -> H <= 8640000000000000 ->
  JS.TimeClip x <> None.
Proof.
  unfold JS.TimeClip.
  destruct (Prim2SF x) as [s|s| |s m e]; cbn [valueIn]; try tauto;
    [discriminate|].
  intros [He [Hlo Hhi]] HL HH.
  destruct e as [|k|k]; try lia.
  - change (2 ^ (- 0)) with 1 in *. change (2 ^ 0) with 1.
    destruct (Z.ltb_spec 8640000000000000 (Z.pos m * 1)); [|discriminate].
    destruct s; lia.
  - change (- Z.neg k) with (Z.pos k) in *.
    assert (0 < 2 ^ Z.pos k) as Hp by (apply Z.pow_pos_nonneg; lia).
    destruct (Z.ltb_spec (8640000000000000 * 2 ^ Z.pos k) (Z.pos m));
      [|discriminate].
    destruct s; nia.
Qed.

Lemma TimeClip_range x t :
  JS.TimeClip x = Some t -> -8640000000000000 <= t <= 8640000000000000.
Proof.
  unfold JS.TimeClip.
  destruct (Prim2SF x) as [s|s| |s m e]; try discriminate.
  - intros [= <-]. lia.
  - destruct e as [|k|k].
    + change (2 ^ 0) with 1.
      destruct (Z.ltb_spec 8640000000000000 (Z.pos m * 1)); [discriminate|].
      intros [= <-]. destruct s; lia.
    + assert (0 < 2 ^ Z.pos k) as Hp by (apply Z.pow_pos_nonneg; lia).
      set (T := Z.pos m * 2 ^ Z.pos k).
      assert (0 < T) as HT by (apply Z.mul_pos_pos; lia). clearbody T.
      destruct (Z.ltb_spec 8640000000000000 T); [discriminate|].
      intros [= <-]. destruct s; lia.
    + assert (0 < 2 ^ Z.pos k) as Hp by (apply Z.pow_pos_nonneg; lia).
      destruct (Z.ltb_spec (8640000000000000 * 2 ^ Z.pos k) (Z.pos m));
        [discriminate|].
      intros [= <-].
      assert (0 <= Z.pos m / 2 ^ Z.pos k <= 8640000000000000).
      { split; [apply Z.div_pos; lia|].
        apply Z.div_le_upper_bound; lia. }
      destruct s; lia.
Qed.

(** ** The milliseconds of a duration *)

Lemma duration_value d :
  (2 <=? d)%float = true -> (d <=? 10)%float = true ->
  valueIn (Prim2SF d) 2 10.
Proof.
  intros H2 H10.
  destruct (between_2_10 d H2 H10) as (m & e & -> & [Hlo Hhi] & He).
  change (2 ^ 52) with 4503599627370496 in Hlo.
  change (2 ^ 53) with 9007199254740992 in Hhi.
  cbn [valueIn].
  destruct He as [->|[->|[-> Hm]]]; (split; [lia|]).
  - change (2 ^ (- -51)) with 2251799813685248. lia.
  - change (2 ^ (- -50)) with 1125899906842624. lia.
  - change (2 ^ (- -49)) with 562949953421312. lia.
Qed.

Lemma millis_value d :
  (2 <=? d)%float = true -> (d <=? 10)%float = true ->
  valueIn (Prim2SF (d *! 60%float *! 60%float *! 1000%float)) 7200000 36000000.
Proof.
  intros H2 H10. pose proof (duration_value d H2 H10) as Hd.
  apply (mul_value d 60%float 2 10 60 8444249301319680 (-47)) in Hd;
    [|closed_fact ..].
  apply (mul_value _ 60%float _ _ 60 8444249301319680 (-47)) in Hd;
    [|closed_fact ..].
  apply (mul_value _ 1000%float _ _ 1000 8796093022208000 (-43)) in Hd;
    [|closed_fact ..].
  exact Hd.
Qed.

(** X17: a mock flight arrives between 2 and 10 hours after it departs:
    when the host reads a valid time of departure, a valid time of
    arrival is at least 7200000 and at most 36000000 milliseconds
    later, and the time of arrival is valid unless the departure is
    within ten hours of the last time a Date can hold. *)
Theorem X17_mock_arrival_after_departure (parseDate : string -> float)
    (random : nat -> float) (date : string) (i : nat) (td : Z) :
  (forall n, unitInterval (random n)) ->
  mockDepTime parseDate random date i = Some td ->
  (forall ta, mockArrTime parseDate random date i = Some ta ->
              td + 7200000 <= ta <= td + 36000000)
  /\ (td <= 8640000000000000 - 36000000 ->
      mockArrTime parseDate random date i <> None).
Proof.
  intros draws Hdep.
  assert (-8640000000000000 <= td <= 8640000000000000) as Htd
      by (apply (TimeClip_range _ _ Hdep)).
  assert (valueIn
            (Prim2SF (JS.ofZ td
                      +! mockDuration random i *! 60%float *! 60%float
                         *! 1000%float))
            (td + 7200000) (td + 36000000)) as Hsum.
  { change (2 ^ 53) with 9007199254740992 in *.
    apply add_value;
      try (change (2 ^ 53) with 9007199254740992; lia).
    apply millis_value; apply duration_bounds, draws. }
  unfold mockArrTime. rewrite Hdep. cbn [JS.getTime]. split.
  - intros ta Hta. exact (TimeClip_value _ _ _ _ Hsum Hta).
  - intros Hlast. apply (TimeClip_valid _ _ _ Hsum); lia.
Qed.

Lemma X17_mock_arrival_after_departure_witness :
  (forall ta, mockArrTime fixedClock halves "2026-11-02" 0 = Some ta ->
              1700000000000 + 7200000 <= ta <= 1700000000000 + 36000000)
  /\ (1700000000000 <= 8640000000000000 - 36000000 ->
      mockArrTime fixedClock halves "2026-11-02" 0 <> None).
Proof.
  apply (X17_mock_arrival_after_departure fixedClock halves "2026-11-02" 0
           1700000000000 halves_draws).
  reflexivity.
Defined.
